(** * Link-discovery crawler: URL normalizer, policy gate, fetcher, frontier

    A shallow embedding of the crawler core of the competitor-analysis
    backend:
      - [Backend/crawler/python_web_crawler_products.py] (module [Products]),
      - [Backend/crawler/ai_crawler.py]                  (module [AiCrawler]),
      - [Backend/crawler/keyword_crawler.py]             (module [KeywordCrawler]),
      - [Backend/notebook/robots_crawler.py]             (module [RobotsCrawler]).

    Python [str] values are modelled as Rocq strings of 8-bit characters.
    The embedding is exact on ASCII text, which is what a URL on the wire
    consists of; what Python does to code points above 127 (Unicode case
    mapping, the NFKC check on the host, UTF-8 decoding of the escapes
    [%80] to [%FF]) is outside the model. *)

From Stdlib Require Import String Ascii List Bool Arith ZArith QArith Qminmax Lia.
From stdpp Require Import base strings gmap list sets.

Local Open Scope string_scope.
Local Open Scope list_scope.
Local Open Scope nat_scope.

(** ** Python string operations used by the crawlers *)

Module PyStr.

Definition code (c : ascii) : nat := nat_of_ascii c.

Definition in_range (lo hi : nat) (c : ascii) : bool :=
  (lo <=? code c) && (code c <=? hi).

Definition is_upper (c : ascii) : bool := in_range 65 90 c.
Definition is_lower (c : ascii) : bool := in_range 97 122 c.
Definition is_alpha (c : ascii) : bool := is_upper c || is_lower c.
Definition is_digit (c : ascii) : bool := in_range 48 57 c.

Definition lower_char (c : ascii) : ascii :=
  if is_upper c then ascii_of_nat (code c + 32) else c.

Fixpoint map_str (f : ascii -> ascii) (s : string) : string :=
  match s with
  | EmptyString => EmptyString
  | String c r => String (f c) (map_str f r)
  end.

(** [s.lower()] *)
Definition lower (s : string) : string := map_str lower_char s.

Fixpoint filter_str (p : ascii -> bool) (s : string) : string :=
  match s with
  | EmptyString => EmptyString
  | String c r => if p c then String c (filter_str p r) else filter_str p r
  end.

Fixpoint all_chars (p : ascii -> bool) (s : string) : bool :=
  match s with
  | EmptyString => true
  | String c r => p c && all_chars p r
  end.

(** [c in s] for a one-character [c] *)
Fixpoint has_char (c : ascii) (s : string) : bool :=
  match s with
  | EmptyString => false
  | String a r => Ascii.eqb a c || has_char c r
  end.

Definition nonempty (s : string) : bool := negb (String.eqb s "").

(** [break p s]: the longest prefix of [s] free of characters satisfying
    [p], and what is left (starting at the first such character). *)
Fixpoint break (p : ascii -> bool) (s : string) : string * string :=
  match s with
  | EmptyString => (EmptyString, EmptyString)
  | String a r =>
      if p a then (EmptyString, s)
      else let '(h, t) := break p r in (String a h, t)
  end.

(** [s.partition(c)]: the text before the first [c], and the text after it
    when there is one ([None] when [c] does not occur). *)
Fixpoint partition (c : ascii) (s : string) : string * option string :=
  match s with
  | EmptyString => (EmptyString, None)
  | String a r =>
      if Ascii.eqb a c then (EmptyString, Some r)
      else let '(h, t) := partition c r in (String a h, t)
  end.

(** [s.rpartition(c)[2]] *)
Fixpoint rpartition_tail (c : ascii) (s : string) : string :=
  match s with
  | EmptyString => EmptyString
  | String a r =>
      if has_char c r then rpartition_tail c r
      else if Ascii.eqb a c then r else s
  end.

(** [s.split(c)] *)
Fixpoint split (c : ascii) (s : string) : list string :=
  match s with
  | EmptyString => [EmptyString]
  | String a r =>
      if Ascii.eqb a c then EmptyString :: split c r
      else match split c r with
           | [] => [String a EmptyString]
           | h :: t => String a h :: t
           end
  end.

(** [sep.join(l)] *)
Definition join (sep : string) (l : list string) : string := String.concat sep l.

(** [s.lstrip(chars)], the character set given as a predicate *)
Fixpoint lstrip (p : ascii -> bool) (s : string) : string :=
  match s with
  | EmptyString => EmptyString
  | String a r => if p a then lstrip p r else s
  end.

(** [s.rstrip(chars)] *)
Fixpoint rstrip (p : ascii -> bool) (s : string) : string :=
  match s with
  | EmptyString => EmptyString
  | String a r =>
      match rstrip p r with
      | EmptyString => if p a then EmptyString else String a EmptyString
      | r' => String a r'
      end
  end.

(** [s.startswith(pre)] *)
Fixpoint startswith (pre s : string) : bool :=
  match pre with
  | EmptyString => true
  | String a pre' =>
      match s with
      | EmptyString => false
      | String b s' => Ascii.eqb a b && startswith pre' s'
      end
  end.

(** [s.endswith(suf)]: some tail of [s] is [suf] *)
Fixpoint endswith (suf s : string) : bool :=
  String.eqb s suf ||
  match s with
  | EmptyString => false
  | String _ r => endswith suf r
  end.

(** [needle in s] *)
Fixpoint contains (needle s : string) : bool :=
  startswith needle s ||
  match s with
  | EmptyString => false
  | String _ r => contains needle r
  end.

Definition mem_str (s : string) (l : list string) : bool :=
  existsb (String.eqb s) l.

Definition is_char (c : ascii) : ascii -> bool := fun a => Ascii.eqb a c.

(** A character that is not a letter *)
Definition not_letter (c : ascii) : bool := negb (is_alpha c).

(** A predicate on characters that lower-casing preserves *)
Definition lower_stable (p : ascii -> bool) : Prop :=
  forall a, p a = true -> p (lower_char a) = true.

(** ['/' * n] *)
Fixpoint slashes (n : nat) : string :=
  match n with
  | 0 => EmptyString
  | S k => String "/" (slashes k)
  end.

(** Some character of [s] is an upper-case letter *)
Definition has_upper (s : string) : bool := negb (all_chars (fun c => negb (is_upper c)) s).

End PyStr.

(** ** [urllib.parse] (CPython 3.11), the part the crawlers call

    [None] stands for a raised [ValueError]. *)

(** [_check_bracketed_host(hostname)] returns (without raising): the
    bracketed host is an IPvFuture literal or an IPv6 address accepted by
    the [ipaddress] module.  The address grammar is left abstract. *)
Class HostCheck := check_bracketed_host : string -> bool.

Module UrlParse.
Import PyStr.

Record ParseResult := mkParseResult {
  scheme : string;
  netloc : string;
  path : string;
  params : string;
  query : string;
  fragment : string
}.

Definition uses_relative : list string :=
  [""; "ftp"; "http"; "gopher"; "nntp"; "imap"; "wais"; "file"; "https";
   "shttp"; "mms"; "prospero"; "rtsp"; "rtspu"; "sftp"; "svn"; "svn+ssh";
   "ws"; "wss"].

Definition uses_netloc : list string :=
  [""; "ftp"; "http"; "gopher"; "nntp"; "telnet"; "imap"; "wais"; "file";
   "mms"; "https"; "shttp"; "snews"; "prospero"; "rtsp"; "rtspu"; "rsync";
   "svn"; "svn+ssh"; "sftp"; "nfs"; "git"; "git+ssh"; "ws"; "wss"].

Definition uses_params : list string :=
  [""; "ftp"; "hdl"; "prospero"; "http"; "imap"; "https"; "shttp"; "rtsp";
   "rtspu"; "sip"; "sips"; "mms"; "sftp"; "tel"].

(** [scheme_chars]: letters, digits and [+-.] *)
Definition scheme_char (c : ascii) : bool :=
  is_alpha c || is_digit c || has_char c "+-.".

(** [_WHATWG_C0_CONTROL_OR_SPACE]: the characters 0x00 to 0x20 *)
Definition c0_control_or_space (c : ascii) : bool := code c <=? 32.

(** [_UNSAFE_URL_BYTES_TO_REMOVE]: tab, carriage return, line feed *)
Definition unsafe_url_byte (c : ascii) : bool :=
  (code c =? 9) || (code c =? 13) || (code c =? 10).

Definition remove_unsafe (s : string) : string :=
  filter_str (fun c => negb (unsafe_url_byte c)) s.

(** The scheme block of [urlsplit]: [i = url.find(':')], [i > 0], the first
    character an ASCII letter and every character before the colon a scheme
    character.  Returns the scheme found (lower-cased) and the rest. *)
Definition split_scheme (default_scheme url : string) : string * string :=
  match partition ":" url with
  | (String c0 pre, Some post) =>
      if is_alpha c0 && all_chars scheme_char (String c0 pre)
      then (lower (String c0 pre), post)
      else (default_scheme, url)
  | _ => (default_scheme, url)
  end.

Definition netloc_delim (c : ascii) : bool := has_char c "/?#".

(** A scheme as [urlsplit] accepts it: a letter, then scheme characters *)
Definition valid_scheme (s : string) : bool :=
  match s with
  | String c _ => is_alpha c && all_chars scheme_char s
  | EmptyString => false
  end.

(** What comes before the two slashes of a network location: nothing, or a
    scheme and its colon *)
Definition scheme_prefix (pre : string) : Prop :=
  pre = "" \/ exists s, pre = s +:+ ":" /\ valid_scheme s = true.

(** What comes after a network location: nothing, or text that starts with
    one of the characters the location ends at *)
Definition after_netloc (rest : string) : bool :=
  match rest with
  | EmptyString => true
  | String a _ => netloc_delim a
  end.

(** [_splitnetloc(url, 2)], given [url] without its two leading slashes *)
Definition splitnetloc (url : string) : string * string := break netloc_delim url.

Section WithHostCheck.
Context {hc : HostCheck}.

(** [_check_bracketed_netloc]: [true] when it returns, [false] when it
    raises *)
Definition check_bracketed_netloc (nl : string) : bool :=
  let hostname_and_port := rpartition_tail "@" nl in
  match partition "[" hostname_and_port with
  | (before_bracket, Some bracketed) =>
      if nonempty before_bracket then false
      else
        let '(hostname, port) := partition "]" bracketed in
        let port := default "" port in
        if nonempty port && negb (startswith ":" port) then false
        else check_bracketed_host hostname
  | (_, None) =>
      check_bracketed_host (fst (partition ":" hostname_and_port))
  end.

(** The netloc block of [urlsplit]: [if url[:2] == '//': ...] *)
Definition split_netloc_checked (url : string) : option (string * string) :=
  match url with
  | String a (String b r) =>
      if Ascii.eqb a "/" && Ascii.eqb b "/" then
        let '(nl, rest) := splitnetloc r in
        let lb := has_char "[" nl in
        let rb := has_char "]" nl in
        if (lb && negb rb) || (rb && negb lb) then None
        else if lb && rb && negb (check_bracketed_netloc nl) then None
        else Some (nl, rest)
      else Some ("", url)
  | _ => Some ("", url)
  end.

(** The two bracket tests of [urlsplit] pass *)
Definition brackets_ok (nl : string) : bool :=
  let lb := has_char "[" nl in
  let rb := has_char "]" nl in
  negb ((lb && negb rb) || (rb && negb lb)) &&
  negb (lb && rb && negb (check_bracketed_netloc nl)).

(** A network location as [urlsplit] returns it: free of the characters that
    end it and of the removed bytes, and accepted by the bracket tests *)
Definition netloc_ok (nl : string) : bool :=
  all_chars (fun c => negb (netloc_delim c) && negb (unsafe_url_byte c)) nl &&
  brackets_ok nl.

(** [urlsplit(url, scheme)]; the result's [params] is left empty *)
Definition urlsplit (url default_scheme : string) : option ParseResult :=
  let url := lstrip c0_control_or_space url in
  let url := remove_unsafe url in
  let '(sch, url) := split_scheme default_scheme url in
  match split_netloc_checked url with
  | None => None
  | Some (nl, url) =>
      let '(url, frag) := partition "#" url in
      let '(url, qry) := partition "?" url in
      Some (mkParseResult sch nl url "" (default "" qry) (default "" frag))
  end.

(** [_splitparams(url)] *)
Definition splitparams (url : string) : string * string :=
  if has_char "/" url then
    (* i = url.find(';', url.rfind('/')) *)
    let last_seg := rpartition_tail "/" url in
    match partition ";" last_seg with
    | (_, None) => (url, "")
    | (seg_head, Some prm) =>
        (substring 0 (String.length url - String.length last_seg) url +:+ seg_head, prm)
    end
  else
    match partition ";" url with
    | (h, Some prm) => (h, prm)
    | (_, None) =>
        (* i = -1: url[:-1], url[0:] *)
        (substring 0 (String.length url - 1) url, url)
    end.

(** [urlparse(url, scheme)] *)
Definition urlparse_with (url default_scheme : string) : option ParseResult :=
  match urlsplit url default_scheme with
  | None => None
  | Some r =>
      if mem_str (scheme r) uses_params && has_char ";" (path r) then
        let '(p, prm) := splitparams (path r) in
        Some (mkParseResult (scheme r) (netloc r) p prm (query r) (fragment r))
      else Some r
  end.

Definition urlparse (url : string) : option ParseResult := urlparse_with url "".

End WithHostCheck.

(** [urlunsplit((scheme, netloc, url, query, fragment))] *)
Definition urlunsplit (sch nl url qry frag : string) : string :=
  let url :=
    if nonempty nl ||
       (nonempty sch && mem_str sch uses_netloc && negb (startswith "//" url))
    then
      let url := if nonempty url && negb (startswith "/" url)
                 then "/" +:+ url else url in
      "//" +:+ nl +:+ url
    else url in
  let url := if nonempty sch then sch +:+ ":" +:+ url else url in
  let url := if nonempty qry then url +:+ "?" +:+ qry else url in
  if nonempty frag then url +:+ "#" +:+ frag else url.

(** [urlunparse((scheme, netloc, url, params, query, fragment))] *)
Definition urlunparse (sch nl url prm qry frag : string) : string :=
  let url := if nonempty prm then url +:+ ";" +:+ prm else url in
  urlunsplit sch nl url qry frag.

Definition hex_val (c : ascii) : option nat :=
  if is_digit c then Some (code c - 48)
  else if in_range 65 70 c then Some (code c - 55)
  else if in_range 97 102 c then Some (code c - 87)
  else None.

(** [unquote(s)]: every [%XX] with two hexadecimal digits becomes the
    character of that code; a [%] not followed by two hexadecimal digits
    stays. *)
Fixpoint unquote (s : string) : string :=
  match s with
  | EmptyString => EmptyString
  | String c rest =>
      match rest with
      | String a (String b r) =>
          if Ascii.eqb c "%" then
            match hex_val a, hex_val b with
            | Some x, Some y => String (ascii_of_nat (16 * x + y)) (unquote r)
            | _, _ => String c (unquote rest)
            end
          else String c (unquote rest)
      | _ => String c (unquote rest)
      end
  end.

(** [s.replace('+', ' ')] *)
Definition plus_to_space (s : string) : string :=
  map_str (fun c => if Ascii.eqb c "+" then " "%char else c) s.

(** [parse_qsl(qs, keep_blank_values=True)] *)
Definition parse_qsl (qs : string) : list (string * string) :=
  if nonempty qs then
    flat_map
      (fun name_value =>
         if nonempty name_value then
           let '(n, v) := partition "=" name_value in
           [(unquote (plus_to_space n), unquote (plus_to_space (default "" v)))]
         else [])
      (split "&" qs)
  else [].

End UrlParse.

Module UrlJoin.
Import PyStr UrlParse.

(** [segments[1:-1] = filter(None, segments[1:-1])] *)
Definition filter_middle (segments : list string) : list string :=
  match segments with
  | first :: (_ :: _) as rest =>
      first :: filter (fun s => nonempty s) (removelast rest) ++ [List.last rest ""]
  | _ => segments
  end.

(** The loop over [segments] building [resolved_path]; popping from an empty
    list is ignored. *)
Fixpoint resolve_segments (segments resolved_path : list string) : list string :=
  match segments with
  | [] => resolved_path
  | seg :: rest =>
      if String.eqb seg ".." then resolve_segments rest (removelast resolved_path)
      else if String.eqb seg "." then resolve_segments rest resolved_path
      else resolve_segments rest (resolved_path ++ [seg])
  end.

Section WithHostCheck.
Context {hc : HostCheck}.

(** [urljoin(base, url)] *)
Definition urljoin (base url : string) : option string :=
  if negb (nonempty base) then Some url
  else if negb (nonempty url) then Some base
  else
    match urlparse_with base "" with
    | None => None
    | Some b =>
      match urlparse_with url (scheme b) with
      | None => None
      | Some r =>
        if negb (String.eqb (scheme r) (scheme b)) ||
           negb (mem_str (scheme r) uses_relative)
        then Some url
        else
          let in_netloc := mem_str (scheme r) uses_netloc in
          if in_netloc && nonempty (netloc r) then
            Some (urlunparse (scheme r) (netloc r) (path r) (params r)
                             (query r) (fragment r))
          else
            let nl := if in_netloc then netloc b else netloc r in
            if negb (nonempty (path r)) && negb (nonempty (params r)) then
              let qry := if nonempty (query r) then query r else query b in
              Some (urlunparse (scheme r) nl (path b) (params b) qry (fragment r))
            else
              let base_parts := split "/" (path b) in
              let base_parts :=
                if nonempty (List.last base_parts "")
                then removelast base_parts else base_parts in
              let segments :=
                if startswith "/" (path r) then split "/" (path r)
                else filter_middle (base_parts ++ split "/" (path r)) in
              let resolved_path := resolve_segments segments [] in
              let last_seg := List.last segments "" in
              let resolved_path :=
                if String.eqb last_seg "." || String.eqb last_seg ".."
                then resolved_path ++ [""] else resolved_path in
              let joined := join "/" resolved_path in
              Some (urlunparse (scheme r) nl
                               (if nonempty joined then joined else "/")
                               (params r) (query r) (fragment r))
      end
    end.

End WithHostCheck.
End UrlJoin.

(** ** The URL normalizer, shared by both crawler variants

    The lines that the two copies of [normalize_url] have in common: from the
    parsed URL to the reassembled one. *)

Module Normalizer.
Import PyStr UrlParse.

(** [('fbclid', 'gclid', 'icid')] *)
Definition tracking_keys : list string := ["fbclid"; "gclid"; "icid"].

(** [k.lower().startswith('utm_') or k.lower() in ('fbclid', 'gclid', 'icid')] *)
Definition is_tracking (k : string) : bool :=
  startswith "utm_" (lower k) || mem_str (lower k) tracking_keys.

(** [path = parsed.path or '/'] followed by
    [if path != '/' and path.endswith('/'): path = path.rstrip('/')] *)
Definition normalize_path (parsed_path : string) : string :=
  let path := if nonempty parsed_path then parsed_path else "/" in
  if negb (String.eqb path "/") && endswith "/" path
  then rstrip (is_char "/") path
  else path.

(** [qs_items], [qs_filtered] and [query] *)
Definition normalize_query (parsed_query : string) : string :=
  let qs_items := parse_qsl parsed_query in
  let qs_filtered := filter (fun kv => negb (is_tracking (fst kv))) qs_items in
  match qs_filtered with
  | [] => ""
  | _ => join "&" (map (fun kv => fst kv +:+ "=" +:+ snd kv) qs_filtered)
  end.

Definition normalized_scheme (parsed : ParseResult) : string :=
  lower (if nonempty (scheme parsed) then scheme parsed else "http").

Definition normalized_netloc (parsed : ParseResult) : string :=
  lower (netloc parsed).

(** [urlunparse((scheme, netloc, path, '', query, ''))] on the normalized
    components *)
Definition reassemble (parsed : ParseResult) : string :=
  urlunparse (normalized_scheme parsed) (normalized_netloc parsed)
             (normalize_path (path parsed)) ""
             (normalize_query (query parsed)) "".

(** The URL both copies of [normalize_url] build from the parsed components
    with [p] as the path *)
Definition rebuilt (parsed : ParseResult) (p : string) : string :=
  urlunparse (normalized_scheme parsed) (normalized_netloc parsed) p ""
             (normalize_query (query parsed)) "".

(** [u.split('#', 1)[0]] *)
Definition strip_fragment (u : string) : string := fst (partition "#" u).

(** [if base: u = urljoin(base, u)] followed by [u = u.split('#', 1)[0]]:
    the URL that is parsed.  [None]: [urljoin] raised. *)
Definition resolve {hc : HostCheck} (u : string) (base : option string) : option string :=
  match base with
  | Some b => if nonempty b then strip_fragment <$> UrlJoin.urljoin b u
              else Some (strip_fragment u)
  | None => Some (strip_fragment u)
  end.

End Normalizer.

(** ** [python_web_crawler_products.py]: [normalize_url] *)

Module Products.
Import PyStr UrlParse UrlJoin Normalizer.

Section WithHostCheck.
Context {hc : HostCheck}.

(** [normalize_url(u, base=None)]; the whole body is under
    [try: ... except Exception: return None]. *)
Definition normalize_url (u : string) (base : option string) : option string :=
  if negb (nonempty u) then None
  else
    match resolve u base with
    | None => None
    | Some u =>
        match urlparse u with
        | None => None
        | Some parsed =>
            let normalized := reassemble parsed in
            if String.eqb (normalized_netloc parsed) "" then None
            else Some normalized
        end
    end.

End WithHostCheck.
End Products.

(** ** [ai_crawler.py]: [normalize_url] *)

(** Python exceptions (subclasses of [Exception]) that the modelled code
    can meet *)
Inductive exn : Type :=
  | ValueError
  | TypeError
  | PlaywrightTimeoutError
  | PlaywrightError.

(** The outcome of a Python call that may raise *)
Inductive py (A : Type) : Type :=
  | Ret (a : A)
  | Raise (e : exn).
Arguments Ret {A} a.
Arguments Raise {A} e.

Module AiCrawler.
Import PyStr UrlParse UrlJoin Normalizer.

Section WithHostCheck.
Context {hc : HostCheck}.

(** [normalize_url(u, base=None)]: no [try], and no test on the host *)
Definition normalize_url (u : string) (base : option string) : py (option string) :=
  if negb (nonempty u) then Ret None
  else
    match resolve u base with
    | None => Raise ValueError
    | Some u =>
        match urlparse u with
        | None => Raise ValueError
        | Some parsed => Ret (Some (reassemble parsed))
        end
    end.

End WithHostCheck.
End AiCrawler.

(** ** Sitemap documents

    An XML element as [xml.etree.ElementTree] gives it: namespace, local
    name, the text before the first child, and the children. *)

#[local] Unset Elimination Schemes.
Inductive xml : Type :=
  | Elem (ns : string) (name : string) (text : option string) (children : list xml).
#[local] Set Elimination Schemes.

Module Xml.
Import PyStr.

Definition ns_of (e : xml) : string := let 'Elem ns _ _ _ := e in ns.
Definition name_of (e : xml) : string := let 'Elem _ n _ _ := e in n.
Definition text_of (e : xml) : option string := let 'Elem _ _ t _ := e in t.
Definition children_of (e : xml) : list xml := let 'Elem _ _ _ cs := e in cs.

(** [e.tag]: [{namespace}name], or the bare name without a namespace *)
Definition tag (e : xml) : string :=
  if nonempty (ns_of e) then "{" +:+ ns_of e +:+ "}" +:+ name_of e else name_of e.

(** The proper descendants of [e], in document order *)
Fixpoint descendants (e : xml) : list xml :=
  let 'Elem _ _ _ cs := e in
  (fix go (l : list xml) : list xml :=
     match l with
     | [] => []
     | c :: r => c :: descendants c ++ go r
     end) cs.

(** ['.//{*}name']: descendants called [name] in any namespace *)
Definition findall_any_ns (name : string) (root : xml) : list xml :=
  filter (fun e => String.eqb (name_of e) name) (descendants root).

(** ['{*}name'] with [find]: the first child called [name] *)
Definition find_child_any_ns (name : string) (e : xml) : option xml :=
  List.find (fun c => String.eqb (name_of c) name) (children_of e).

(** ['.//ns:parent/ns:name']: the children called [name] of the descendants
    called [parent], all in the namespace [ns] *)
Definition findall_path (ns parent name : string) (root : xml) : list xml :=
  flat_map
    (fun p =>
       if String.eqb (ns_of p) ns && String.eqb (name_of p) parent
       then filter (fun c => String.eqb (ns_of c) ns && String.eqb (name_of c) name)
                   (children_of p)
       else [])
    (descendants root).

(** ASCII white space, as [str.strip()] removes it *)
Definition is_space (c : ascii) : bool :=
  in_range 9 13 c || in_range 28 32 c.

(** [s.strip()] *)
Definition strip (s : string) : string := rstrip is_space (lstrip is_space s).

(** [loc.text.strip()] for the elements whose text is not empty *)
Definition stripped_texts (locs : list xml) : list string :=
  flat_map
    (fun loc => match text_of loc with
                | Some t => if nonempty t then [strip t] else []
                | None => []
                end)
    locs.

End Xml.

(** What the network returns for a sitemap URL: the parsed document, or
    [None] when the download or the XML parser raised. *)
Definition sitemap_web : Type := string -> option xml.

(** ** [notebook/robots_crawler.py]: [parse_sitemap] *)

Module RobotsCrawler.
Import PyStr Xml.

Definition sm_ns : string := "http://www.sitemaps.org/schemas/sitemap/0.9".

(** The state threaded through the recursion: the shared [seen] set (one
    object for the whole resolution) and the log of [requests.get] calls. *)
Record walk := mkWalk {
  seen : gset string;
  fetched : list string
}.

(** [parse_sitemap(sitemap_url, seen)].  [fuel] bounds the recursion depth;
    [None] is returned when it runs out. *)
Fixpoint parse_sitemap (fuel : nat) (web : sitemap_web) (sitemap_url : string)
    (w : walk) : option (list string * walk) :=
  match fuel with
  | 0 => None
  | S fuel' =>
      if bool_decide (sitemap_url ∈ seen w) then Some ([], w)
      else
        let w := mkWalk ({[sitemap_url]} ∪ seen w) (fetched w ++ [sitemap_url]) in
        match web sitemap_url with
        | None => Some ([], w)
        | Some root =>
            let urls := stripped_texts (findall_path sm_ns "url" "loc" root) in
            (fix nested_loop (locs : list string) (urls : list string) (w : walk)
               : option (list string * walk) :=
               match locs with
               | [] => Some (urls, w)
               | nested :: rest =>
                   match parse_sitemap fuel' web nested w with
                   | None => None
                   | Some (more, w') => nested_loop rest (urls ++ more) w'
                   end
               end)
              (stripped_texts (findall_path sm_ns "sitemap" "loc" root)) urls w
        end
  end.

(** The log holds no URL twice and only URLs marked as seen *)
Definition log_ok (w : walk) : Prop :=
  NoDup (fetched w) /\ forall x, x ∈ fetched w -> x ∈ seen w.

End RobotsCrawler.

(** ** [python_web_crawler_products.py]: [fetch_sitemap_urls] *)

Module ProductsSitemap.
Import PyStr Xml.

(** The [loc] of each element of [els]: [el.find('{*}loc')], kept when it
    exists and has text *)
Definition locs_of (els : list xml) : list string :=
  flat_map
    (fun el => match find_child_any_ns "loc" el with
               | Some loc => stripped_texts [loc]
               | None => []
               end)
    els.

(** [fetch_sitemap_urls(sitemap_url)], with the log of [requests.get] calls.
    [fuel] bounds the recursion depth; the result is [None] when it runs
    out, and the log is returned in both cases. *)
Fixpoint fetch_sitemap_urls (fuel : nat) (web : sitemap_web) (sitemap_url : string)
    (fetched : list string) : option (list string) * list string :=
  match fuel with
  | 0 => (None, fetched)
  | S fuel' =>
      let fetched := fetched ++ [sitemap_url] in
      match web sitemap_url with
      | None => (Some [], fetched)
      | Some root =>
          let fallback (urls : list string) : list string :=
            match urls with
            | [] => stripped_texts (findall_any_ns "loc" root)
            | _ => urls
            end in
          if endswith "sitemapindex" (lower (tag root)) then
            (fix index_loop (locs : list string) (urls : list string)
                 (fetched : list string) : option (list string) * list string :=
               match locs with
               | [] => (Some (fallback urls), fetched)
               | child :: rest =>
                   match fetch_sitemap_urls fuel' web child fetched with
                   | (None, fetched') => (None, fetched')
                   | (Some more, fetched') => index_loop rest (urls ++ more) fetched'
                   end
               end)
              (locs_of (findall_any_ns "sitemap" root)) [] fetched
          else
            (Some (fallback (locs_of (findall_any_ns "url" root))), fetched)
      end
  end.

End ProductsSitemap.

(** ** [keyword_crawler.py]: the politeness delay of [KeywordCrawler]

    Delays are Python floats; they are modelled as exact rationals. *)

Module KeywordCrawler.
Import PyStr.

Inductive event : Type :=
  | Submit (url : string)       (* exe.submit(self.process_page, url) *)
  | Sleep (seconds : Q).        (* time.sleep(seconds) *)

Record crawler := mkCrawler {
  base_domain : string;
  scheme : string;
  max_pages : nat;
  delay : Q;
  concurrency : Z;
  can_fetch : string -> bool;
  to_visit : list string;
  visited : gset string;
  log : list event
}.

(** The part of [__init__] that sets the delay, the concurrency and the
    queue; [robots_crawl_delay] is [self.robots.crawl_delay]. *)
Definition init {hc : HostCheck} (start_url : string) (max_pages : nat) (delay : Q)
    (concurrency : Z) (robots_can_fetch : string -> bool)
    (robots_crawl_delay : option Q) : py crawler :=
  let start_url := rstrip (is_char "/") start_url in
  match UrlParse.urlparse start_url with
  | None => Raise ValueError
  | Some parsed =>
      Ret {| base_domain := UrlParse.netloc parsed;
             scheme := if nonempty (UrlParse.scheme parsed)
                       then UrlParse.scheme parsed else "https";
             max_pages := max_pages;
             delay := match robots_crawl_delay with
                      | Some crawl_delay => Qmax delay crawl_delay
                      | None => delay
                      end;
             concurrency := Z.max 1 concurrency;
             can_fetch := robots_can_fetch;
             to_visit := [start_url];
             visited := ∅;
             log := [] |}
  end.

(** The argument of [time.sleep] in [run]:
    [self.delay / max(1, self.concurrency)] *)
Definition submission_sleep (self : crawler) : Q :=
  delay self / inject_Z (Z.max 1 (concurrency self)).

Definition with_queue (self : crawler) (tv : list string) : crawler :=
  mkCrawler (base_domain self) (scheme self) (max_pages self) (delay self)
            (concurrency self) (can_fetch self) tv (visited self) (log self).

(** One pass through the body of the [while] loop of [run]; [None] when the
    loop condition fails, [Raise] when [urlparse] raises. *)
Definition run_iteration {hc : HostCheck} (self : crawler) : option (py crawler) :=
  match to_visit self with
  | [] => None
  | url :: tv =>
      if size (visited self) <? max_pages self then
        match UrlParse.urlparse url with
        | None => Some (Raise ValueError)
        | Some parsed =>
            let url := if nonempty (UrlParse.scheme parsed) then url
                       else scheme self +:+ "://" +:+ base_domain self +:+ url in
            let url := rstrip (is_char "/") url in
            if negb (can_fetch self url) then Some (Ret (with_queue self tv))
            else if bool_decide (url ∈ visited self) then Some (Ret (with_queue self tv))
            else
              Some (Ret (mkCrawler (base_domain self) (scheme self) (max_pages self)
                           (delay self) (concurrency self) (can_fetch self) tv
                           ({[url]} ∪ visited self)
                           (log self ++ [Submit url; Sleep (submission_sleep self)])))
        end
      else None
  end.

(** The queue update of [process_page], run by a pool thread under
    [self.lock] *)
Definition enqueue_link (self : crawler) (link : string) : crawler :=
  if bool_decide (link ∈ visited self) || mem_str link (to_visit self) then self
  else if size (visited self) + length (to_visit self) <? max_pages self
       then with_queue self (to_visit self ++ [link])
       else self.

(** What can happen next: the main thread runs one loop iteration, or a pool
    thread enqueues a link it found. *)
Inductive action : Type :=
  | Iterate
  | Found (link : string).

Definition step {hc : HostCheck} (self : crawler) (a : action) : crawler :=
  match a with
  | Iterate => match run_iteration self with
               | Some (Ret self') => self'
               | _ => self
               end
  | Found link => enqueue_link self link
  end.

Definition run {hc : HostCheck} (self : crawler) (schedule : list action) : crawler :=
  fold_left step schedule self.




End KeywordCrawler.

(** ** [fetch_with_playwright] (both crawler variants)

    A browser page is given by what each awaited call on it does: the call
    returns, it raises a subclass of [Exception], or the task is cancelled
    while it waits and [asyncio.CancelledError] is raised there.  That one is
    a [BaseException]: no [except Exception] clause catches it. *)

Module Playwright.
Import PyStr.

(** What an [await] can raise *)
Inductive thrown : Type :=
  | Exc (e : exn)                       (* a subclass of Exception *)
  | CancelledError.

Inductive awaited (A : Type) : Type :=
  | Done (a : A)
  | Throws (t : thrown).
Arguments Done {A} a.
Arguments Throws {A} t.

Record page := mkPage {
  new_page : awaited unit;              (* context.new_page() *)
  set_extra_http_headers : awaited unit;
  goto : awaited unit;                  (* page.goto(url, wait_until, timeout) *)
  inner_height : awaited Z;             (* evaluate("() => window.innerHeight") *)
  scroll_height : nat -> awaited Z;     (* the i-th evaluate of document.body.scrollHeight *)
  scroll_to : nat -> awaited unit;      (* the i-th window.scrollTo *)
  collect_attrs : awaited (list string);   (* evaluate(js_collect) *)
  script_texts : awaited (list string);    (* evaluate of the script text collector *)
  content : awaited string;             (* page.content() *)
  close : awaited unit                  (* page.close() *)
}.

(** The calls on the page that matter for its life cycle *)
Inductive op : Type := NewPage | Goto | Content | Close.

Inductive outcome : Type :=
  | Returned (content : option string) (candidates : list string)
  | Raised (t : thrown)
  | Hangs.                              (* the scroll loop has not ended *)

Record run := mkRun {
  result : outcome;
  ops : list op
}.

(** How the block [try: <scroll loop> except Exception: pass] is left *)
Inductive block : Type :=
  | Passed                              (* the loop ended, or an exception was swallowed *)
  | Cancelled                           (* CancelledError leaves the block *)
  | Running.                            (* the loop is still running when the fuel is used up *)

(** What [try: ... except Exception: pass] makes of a throw *)
Definition swallowed (t : thrown) : block :=
  match t with
  | Exc _ => Passed
  | CancelledError => Cancelled
  end.

(** [while scrolled < total_h: ...].  [int(viewport_h * 0.9)] is taken as
    the truncated quotient. *)
Fixpoint scroll_loop (fuel : nat) (p : page) (viewport_h scrolled total_h : Z)
    (i : nat) : block :=
  match fuel with
  | 0 => Running
  | S fuel' =>
      if (scrolled <? total_h)%Z then
        let scrolled := (scrolled + Z.quot (9 * viewport_h) 10)%Z in
        match scroll_to p i with
        | Throws t => swallowed t
        | Done _ =>
            match scroll_height p (S i) with
            | Throws t => swallowed t
            | Done h => scroll_loop fuel' p viewport_h scrolled h (S i)
            end
        end
      else Passed
  end.

Definition scroll (fuel : nat) (p : page) : block :=
  match inner_height p with
  | Throws t => swallowed t
  | Done viewport_h =>
      match scroll_height p 0 with
      | Throws t => swallowed t
      | Done total_h => scroll_loop fuel p viewport_h 0%Z total_h 0
      end
  end.

(** [try: x = await ... except Exception: x = []] *)
Definition or_empty (r : awaited (list string)) : awaited (list string) :=
  match r with
  | Throws (Exc _) => Done []
  | _ => r
  end.

(** The [except] clauses of the outer [try], entered with what was thrown
    after the calls [done]: a subclass of [Exception] is caught,
    [page.close()] is awaited under [try: ... except Exception: pass] and
    [(None, [])] is returned; [CancelledError] is caught by neither clause. *)
Definition handler (p : page) (done : list op) (t : thrown) : run :=
  match t with
  | CancelledError => mkRun (Raised CancelledError) done
  | Exc _ =>
      match close p with
      | Throws CancelledError => mkRun (Raised CancelledError) (done ++ [Close])
      | _ => mkRun (Returned None []) (done ++ [Close])
      end
  end.

(** [fetch_with_playwright(context, url)].  [scan] stands for the three
    regular expressions applied to a script text.  The hover, dispatch and
    click steps run under [try]/[except Exception: pass] and contribute
    nothing to what is returned; they are left out, and so are the sleeps: a
    cancellation at one of them leaves the function as a cancellation at the
    next call on the page does. *)
Definition fetch_with_playwright (fuel : nat) (scan : string -> list string)
    (p : page) : run :=
  match new_page p with
  | Throws t => mkRun (Raised t) []
  | Done _ =>
      match set_extra_http_headers p with
      | Throws t => handler p [NewPage] t
      | Done _ =>
          match goto p with
          | Throws t => handler p [NewPage; Goto] t
          | Done _ =>
              match scroll fuel p with
              | Running => mkRun Hangs [NewPage; Goto]
              | Cancelled => handler p [NewPage; Goto] CancelledError
              | Passed =>
                  match or_empty (collect_attrs p) with
                  | Throws t => handler p [NewPage; Goto] t
                  | Done collected_attrs =>
                      match or_empty (script_texts p) with
                      | Throws t => handler p [NewPage; Goto] t
                      | Done scripts =>
                          match content p with
                          | Throws t => handler p [NewPage; Goto; Content] t
                          | Done c =>
                              match close p with
                              | Throws CancelledError =>
                                  mkRun (Raised CancelledError)
                                        [NewPage; Goto; Content; Close]
                              | _ =>
                                  mkRun (Returned (Some c)
                                           (remove_dups
                                              (filter (fun v => nonempty v) collected_attrs
                                               ++ flat_map scan scripts)))
                                        [NewPage; Goto; Content; Close]
                              end
                          end
                      end
                  end
              end
          end
      end
  end.



End Playwright.

(** ** The frontier and the worker pool ([robust_crawl], [crawl])

    The workers are asyncio tasks on one event loop: a worker runs alone from
    one [await] to the next.  A run is a list of events, each one carrying a
    worker from an [await] to its next one; what the network answers is part
    of the event. *)

Module Crawl.
Import PyStr.

Inductive variant : Type := ProductsVariant | AiVariant.

(** [EXTENSION_SKIP] *)
Definition extension_skip (v : variant) : list string :=
  match v with
  | ProductsVariant =>
      [".jpg"; ".jpeg"; ".png"; ".gif"; ".svg"; ".pdf"; ".zip"; ".rar"; ".exe";
       ".tar"; ".gz"; ".woff"; ".woff2"]
  | AiVariant =>
      [".jpg"; ".jpeg"; ".png"; ".gif"; ".svg"; ".pdf"; ".zip"; ".rar"; ".exe";
       ".tar"; ".gz"]
  end.

(** The length under which a plain page is rendered *)
Definition render_threshold (v : variant) : nat :=
  match v with
  | ProductsVariant => 600
  | AiVariant => 500
  end.

Record PageResult := mkPageResult {
  url : string;
  rendered_with_playwright : bool;
  links_found : list string
}.

Record config := mkConfig {
  which : variant;
  base_host : string;
  max_pages : nat;
  rp : option (string -> bool);     (* [None]: loading robots.txt raised *)
  ignore_robots : bool;
  use_pw : bool;                    (* a browser context is available *)
  extract_links_from_html : string -> string -> py (list string)
}.

Inductive wstate : Type :=
  | Ready                                        (* task created, not yet run *)
  | AwaitPlain (url : string)                    (* await asyncio.to_thread(fetch_plain, url) *)
  | AwaitRender (url : string) (html : option string)   (* await of the render fetch *)
  | Asleep                                       (* await asyncio.sleep(delay) *)
  | Finished.

Record state := mkState {
  q : list (option string);
  discovered : gset (option string);
  visited : gset string;
  results : list PageResult;
  workers : list wstate;
  plain_fetches : list string;       (* every fetch_plain(url) started *)
  render_fetches : list string;      (* every render fetch started *)
  visit_log : list string;           (* every visited.add(url) executed *)
  crashed : option exn               (* the first exception that left a worker *)
}.

Inductive event : Type :=
  | Resume (w : nat)
  | PlainDone (w : nat) (html : option string)
  | RenderDone (w : nat) (content : option string) (raw_js_candidates : list string)
  | RenderRaised (w : nat) (e : exn).

(** [not x] for an optional string *)
Definition falsy (x : option string) : bool :=
  match x with
  | None => true
  | Some s => negb (nonempty s)
  end.

(** What [asyncio.gather] raises to the caller of the pool: the first
    exception that left a worker *)
Definition first_raised (old : option exn) (e : exn) : option exn :=
  match old with
  | Some e0 => Some e0
  | None => Some e
  end.

(** An exception leaves worker [w]: its task is over *)
Definition crash (st : state) (w : nat) (e : exn) : state :=
  mkState (q st) (discovered st) (visited st) (results st)
          (<[w := Finished]> (workers st))
          (plain_fetches st) (render_fetches st) (visit_log st)
          (first_raised (crashed st) e).

Section WithHostCheck.
Context {hc : HostCheck}.

(** [urlparse(url).netloc] *)
Definition netloc_of (url : string) : option string :=
  UrlParse.netloc <$> UrlParse.urlparse url.

(** [rp and not ignore_robots and not rp.can_fetch(USER_AGENT, url)] *)
Definition blocked_by_robots (cfg : config) (url : string) : bool :=
  match rp cfg with
  | Some can_fetch => negb (ignore_robots cfg) && negb (can_fetch url)
  | None => false
  end.

Inductive loop_exit : Type :=
  | StartFetch (url : string)
  | LoopEnds
  | LoopRaises (e : exn).

(** The worker's [while q and len(visited) < max_pages:] loop from its test
    up to the first [await]: pops, skips, and stops at the URL to fetch.
    [log] receives the URL of every [visited.add(url)]. *)
Fixpoint loop_head (cfg : config) (q : list (option string)) (visited : gset string)
    (log : list string)
    : list (option string) * gset string * list string * loop_exit :=
  match q with
  | [] => (q, visited, log, LoopEnds)
  | x :: q' =>
      if size visited <? max_pages cfg then
        match x with
        | None => loop_head cfg q' visited log
        | Some url =>
            if negb (nonempty url) then loop_head cfg q' visited log
            else if bool_decide (url ∈ visited) then loop_head cfg q' visited log
            else
              match netloc_of url with
              | None => (q', visited, log, LoopRaises ValueError)
              | Some nl =>
                  if negb (String.eqb nl (base_host cfg))
                  then loop_head cfg q' ({[url]} ∪ visited) (log ++ [url])
                  else if blocked_by_robots cfg url
                  then loop_head cfg q' ({[url]} ∪ visited) (log ++ [url])
                  else (q', visited, log, StartFetch url)
              end
        end
      else (q, visited, log, LoopEnds)
  end.

(** [normalize_url(raw, base=url)] under [try: ... except Exception: pass],
    kept when truthy *)
Definition normalized_candidate (cfg : config) (url raw : string) : list string :=
  match which cfg with
  | ProductsVariant =>
      match Products.normalize_url raw (Some url) with
      | Some n => if nonempty n then [n] else []
      | None => []
      end
  | AiVariant =>
      match AiCrawler.normalize_url raw (Some url) with
      | Ret (Some n) => if nonempty n then [n] else []
      | _ => []
      end
  end.

(** [any(l.lower().endswith(ext) for ext in EXTENSION_SKIP)] *)
Definition skipped_extension (cfg : config) (l : string) : bool :=
  existsb (fun ext => endswith ext (lower l)) (extension_skip (which cfg)).

(** The [for l in links:] loop that feeds the frontier *)
Fixpoint enqueue (cfg : config) (links : list string) (q : list (option string))
    (discovered : gset (option string))
    : list (option string) * gset (option string) * option exn :=
  match links with
  | [] => (q, discovered, None)
  | l :: rest =>
      if negb (nonempty l) then enqueue cfg rest q discovered
      else if skipped_extension cfg l then enqueue cfg rest q discovered
      else
        match netloc_of l with
        | None => (q, discovered, Some ValueError)
        | Some nl =>
            if String.eqb nl (base_host cfg) && negb (bool_decide (Some l ∈ discovered))
            then enqueue cfg rest (q ++ [Some l]) ({[Some l]} ∪ discovered)
            else enqueue cfg rest q discovered
        end
  end.

(** From [visited.add(url)] to the [await asyncio.sleep(delay)] that ends the
    iteration *)
Definition finish_page (cfg : config) (st : state) (w : nat) (url : string)
    (html : option string) (raw_js_candidates : list string)
    (used_playwright : bool) : state :=
  let visited := {[url]} ∪ visited st in
  let log := visit_log st ++ [url] in
  if falsy html then
    mkState (q st) (discovered st) visited (results st)
            (<[w := Asleep]> (workers st)) (plain_fetches st) (render_fetches st)
            log (crashed st)
  else
    match extract_links_from_html cfg url (default "" html) with
    | Raise e =>
        mkState (q st) (discovered st) visited (results st)
                (<[w := Finished]> (workers st))
                (plain_fetches st) (render_fetches st) log
                (first_raised (crashed st) e)
    | Ret found =>
        let links := found ++ flat_map (normalized_candidate cfg url) raw_js_candidates in
        let results := results st ++ [mkPageResult url used_playwright links] in
        let '(q, discovered, err) := enqueue cfg links (q st) (discovered st) in
        mkState q discovered visited results
                (<[w := match err with
                        | None => Asleep
                        | Some _ => Finished
                        end]> (workers st))
                (plain_fetches st) (render_fetches st) log
                (match err with
                 | None => crashed st
                 | Some e => first_raised (crashed st) e
                 end)
    end.

(** [(not html or len(html) < threshold)] together with the availability of
    the renderer *)
Definition wants_render (cfg : config) (html : option string) : bool :=
  use_pw cfg &&
  match html with
  | None => true
  | Some h => negb (nonempty h) || (String.length h <? render_threshold (which cfg))
  end.

(** [content or html] *)
Definition content_or (content html : option string) : option string :=
  if falsy content then html else content.

Definition resume (cfg : config) (st : state) (w : nat) : state :=
  let '(q, visited, log, out) := loop_head cfg (q st) (visited st) (visit_log st) in
  match out with
  | StartFetch url =>
      mkState q (discovered st) visited (results st)
              (<[w := AwaitPlain url]> (workers st))
              (plain_fetches st ++ [url]) (render_fetches st) log (crashed st)
  | LoopEnds =>
      mkState q (discovered st) visited (results st)
              (<[w := Finished]> (workers st))
              (plain_fetches st) (render_fetches st) log (crashed st)
  | LoopRaises e =>
      mkState q (discovered st) visited (results st)
              (<[w := Finished]> (workers st))
              (plain_fetches st) (render_fetches st) log
              (first_raised (crashed st) e)
  end.

(** One event.  An event that does not match the state of its worker
    changes nothing.  A worker that an exception has left is over; the other
    workers go on, since [asyncio.gather] does not cancel them.  A worker
    whose task is cancelled while it waits gets no further event. *)
Definition step (cfg : config) (st : state) (ev : event) : state :=
  match ev with
  | Resume w =>
      match workers st !! w with
      | Some Ready | Some Asleep => resume cfg st w
      | _ => st
      end
  | PlainDone w html =>
      match workers st !! w with
      | Some (AwaitPlain url) =>
          if wants_render cfg html then
            mkState (q st) (discovered st) (visited st) (results st)
                    (<[w := AwaitRender url html]> (workers st))
                    (plain_fetches st) (render_fetches st ++ [url])
                    (visit_log st) (crashed st)
          else finish_page cfg st w url html [] false
      | _ => st
      end
  | RenderDone w content cands =>
      match workers st !! w with
      | Some (AwaitRender url html) =>
          match which cfg with
          | ProductsVariant => finish_page cfg st w url (content_or content html) cands true
          | AiVariant => finish_page cfg st w url content cands true
          end
      | _ => st
      end
  | RenderRaised w e =>
      match workers st !! w with
      | Some (AwaitRender url html) =>
          match which cfg with
          | ProductsVariant => finish_page cfg st w url html [] false
          | AiVariant => crash st w e
          end
      | _ => st
      end
  end.

Definition run (cfg : config) (st : state) (evs : list event) : state :=
  fold_left (step cfg) evs st.

(** What holds of the logs in every state *)
Record logs_ok (cfg : config) (st : state) : Prop := mkLogsOk {
  plain_nodup : NoDup (plain_fetches st);
  render_nodup : NoDup (render_fetches st);
  visit_nodup : NoDup (visit_log st);
  visited_is_log : visited st = list_to_set (visit_log st);
  plain_allowed : forall u, u ∈ plain_fetches st -> blocked_by_robots cfg u = false;
  render_after_plain : forall u, u ∈ render_fetches st -> u ∈ plain_fetches st
}.

End WithHostCheck.

(** No URL was fetched twice, rendered twice or added to [visited] twice *)
Definition fetched_once (st : state) : Prop :=
  NoDup (plain_fetches st) /\ NoDup (render_fetches st) /\ NoDup (visit_log st).

(** The shared state when the workers are started *)
Definition init (concurrency : nat) (seeds : list (option string)) : state :=
  mkState seeds (list_to_set seeds) ∅ [] (replicate concurrency Ready) [] [] [] None.

(** The URLs some worker is fetching or rendering *)
Definition inflight_url (ws : wstate) : list string :=
  match ws with
  | AwaitPlain url => [url]
  | AwaitRender url _ => [url]
  | _ => []
  end.

Definition inflight (st : state) : list string :=
  flat_map inflight_url (workers st).

(** The URLs some worker is rendering *)
Definition render_url (ws : wstate) : list string :=
  match ws with
  | AwaitRender url _ => [url]
  | _ => []
  end.

Definition rendering (st : state) : list string :=
  flat_map render_url (workers st).

(** The pages visited and the pages in flight stay within the budget plus
    one page for each worker but one *)
Definition within_budget (cfg : config) (st : state) : Prop :=
  size (visited st) + length (inflight st)
  <= max_pages cfg + (length (workers st) - 1).


(** What holds of the frontier in every state: no URL is twice in the
    queue, in flight or in the visit log, nor in two of them; all of these
    are in the discovered set; a URL whose fetch was started is in the
    discovered set and no longer queued; a URL in flight that was handed to
    the renderer is with the renderer still. *)
Record frontier_ok (st : state) : Prop := mkFrontierOk {
  frontier_nodup : NoDup (q st ++ (Some <$> inflight st ++ visit_log st));
  frontier_discovered :
    forall x, x ∈ q st ++ (Some <$> inflight st ++ visit_log st) -> x ∈ discovered st;
  plain_dequeued :
    forall u, u ∈ plain_fetches st -> Some u ∈ discovered st /\ (Some u ∉ q st);
  render_in_flight :
    forall u, u ∈ render_fetches st -> u ∈ inflight st -> u ∈ rendering st;
  inflight_fetched :
    forall u, u ∈ inflight st -> u ∈ plain_fetches st
}.

(** A queue entry that the loop head drops without a fetch: a falsy entry,
    or a URL of another host than the start host *)
Definition off_domain {hc : HostCheck} (cfg : config) (x : option string) : Prop :=
  falsy x = true \/
  exists u nl, x = Some u /\ netloc_of u = Some nl /\ nl <> base_host cfg.

(** Nothing was fetched, nothing is being fetched, and nothing in the queue
    is going to be *)
Record quiet {hc : HostCheck} (cfg : config) (st : state) : Prop := mkQuiet {
  quiet_queue : Forall (off_domain cfg) (q st);
  quiet_workers : Forall (fun ws => inflight_url ws = []) (workers st);
  quiet_plain : plain_fetches st = [];
  quiet_render : render_fetches st = [];
  quiet_results : results st = [];
  quiet_crashed : crashed st = None
}.

End Crawl.

(** ** [robust_crawl]: from the start URL to the started worker pool *)

Module RobustCrawl.
Import PyStr Crawl.

(** The site as the seeding code sees it *)
Record web := mkWeb {
  robots_txt : option (string -> bool);        (* [rp.read()]: [None] when it raised *)
  http_get : string -> option (nat * string);  (* [requests.get]: status and text *)
  anchors : string -> list string;             (* the [href]s of the [a] tags of a page *)
  sitemap_docs : sitemap_web;
  playwright_ok : bool                         (* the browser context could be started *)
}.

Inductive request : Type :=
  | Probe (url : string)           (* requests.get(s) on a sitemap candidate *)
  | FetchPlain (url : string)      (* fetch_plain(url) *)
  | FetchSitemap (url : string).   (* requests.get inside fetch_sitemap_urls *)

(** [fetch_plain(url)]: the text, unless the request raised or
    [raise_for_status] did *)
Definition fetch_plain (w : web) (url : string) : option string :=
  match http_get w url with
  | Some (status, text) =>
      if (400 <=? status) && (status <? 600) then None else Some text
  | None => None
  end.

Definition sitemap_candidates (base_root : string) : list string :=
  [base_root +:+ "/sitemap.xml"; base_root +:+ "/sitemap_index.xml";
   base_root +:+ "/sitemap-index.xml"; base_root +:+ "/sitemap.xml.gz"].

(** [r.status_code == 200 and '<urlset' in r.text.lower()] *)
Definition is_urlset (w : web) (s : string) : bool :=
  match http_get w s with
  | Some (status, text) => (status =? 200) && contains "<urlset" (lower text)
  | None => false
  end.

Fixpoint insert_sorted (s : string) (l : list string) : list string :=
  match l with
  | [] => [s]
  | x :: r => if String.leb s x then s :: l else x :: insert_sorted s r
  end.

(** [sorted(l)] on strings *)
Definition sorted (l : list string) : list string :=
  fold_right insert_sorted [] l.

Section WithHostCheck.
Context {hc : HostCheck}.

(** The sitemap links of the start page, searched when no candidate
    answered *)
Definition sitemaps_on_start_page (w : web) (start_url : string) : list string :=
  match fetch_plain w start_url with
  | Some html =>
      if nonempty html then
        flat_map
          (fun href =>
             if nonempty href && contains "sitemap" href then
               match Products.normalize_url href (Some start_url) with
               | Some full => if nonempty full then [full] else []
               | None => []
               end
             else [])
          (anchors w html)
      else []
  | None => []
  end.

(** [for s in found_sitemaps: ...]: the normalized URLs of every sitemap,
    and the requests made.  [None]: a sitemap recursion has not ended. *)
Fixpoint load_sitemaps (fuel : nat) (w : web) (found : list string)
    (urls : list string) (log : list request)
    : option (list string * list request) :=
  match found with
  | [] => Some (urls, log)
  | s :: rest =>
      match ProductsSitemap.fetch_sitemap_urls fuel (sitemap_docs w) s [] with
      | (None, _) => None
      | (Some us, fetched) =>
          let normalized :=
            flat_map (fun u => match Products.normalize_url u None with
                               | Some nu => if nonempty nu then [nu] else []
                               | None => []
                               end) us in
          load_sitemaps fuel w rest (urls ++ normalized)
                        (log ++ map FetchSitemap fetched)
      end
  end.

(** The [if use_sitemaps:] block: the URLs added to [initial_urls] and the
    requests made *)
Definition seed_from_sitemaps (fuel : nat) (w : web) (start_url base_root : string)
    : option (list string * list request) :=
  let candidates := sitemap_candidates base_root in
  let probes := map Probe candidates in
  let found := filter (is_urlset w) candidates in
  match found with
  | [] =>
      load_sitemaps fuel w (remove_dups (sitemaps_on_start_page w start_url)) []
                    (probes ++ [FetchPlain start_url])
  | _ => load_sitemaps fuel w (remove_dups found) [] probes
  end.

(** What [robust_crawl] has built when it spawns the workers *)
Record started := mkStarted {
  cfg : config;
  st0 : state;
  seed_requests : list request
}.

(** [robust_crawl(...)] up to [asyncio.gather].  [None]: the sitemap
    recursion has not ended within [fuel]. *)
Definition robust_crawl_start (fuel : nat) (w : web) (start_url : string)
    (max_pages concurrency : nat) (ignore_robots use_sitemaps no_playwright : bool)
    (extract : string -> string -> py (list string)) : option (py started) :=
  match UrlParse.urlparse start_url with
  | None => Some (Raise ValueError)
  | Some parsed =>
      let base_host := UrlParse.netloc parsed in
      let base_root := UrlParse.scheme parsed +:+ "://" +:+ UrlParse.netloc parsed in
      let start_norm := Products.normalize_url start_url None in
      match (if use_sitemaps then seed_from_sitemaps fuel w start_url base_root
             else Some ([], [])) with
      | None => None
      | Some (extra, log) =>
          let config :=
            mkConfig ProductsVariant base_host max_pages (robots_txt w) ignore_robots
                     (negb no_playwright && playwright_ok w) extract in
          match start_norm with
          | Some s =>
              Some (Ret (mkStarted config
                           (init concurrency (Some <$> sorted (remove_dups (s :: extra))))
                           log))
          | None =>
              match remove_dups extra with
              | [] => Some (Ret (mkStarted config (init concurrency [None]) log))
              | _ => Some (Raise TypeError)     (* sorted() on None and str *)
              end
          end
      end
  end.

(** The URLs that the seeding handed to [fetch_plain] *)
Definition seed_fetches (s : started) : list string :=
  flat_map (fun r => match r with
                     | FetchPlain u => [u]
                     | _ => []
                     end) (seed_requests s).

(** Every URL requested by a run: by the seeding, then by the workers *)
Definition fetched_urls (s : started) (final : state) : list string :=
  flat_map (fun r => match r with
                     | FetchPlain u => [u]
                     | _ => []
                     end) (seed_requests s)
  ++ plain_fetches final ++ render_fetches final.

End WithHostCheck.
End RobustCrawl.

(** ** [crawl] of [ai_crawler.py]: from the start URL to the worker pool *)

Module AiCrawl.
Import PyStr Crawl.

(** [crawl(...)] up to [asyncio.gather]; [robots] is the outcome of
    [rp.read()], [browser_context] tells whether a context was started. *)
Definition crawl_start {hc : HostCheck} (robots : option (string -> bool))
    (browser_context : bool) (start_url : string) (max_pages concurrency : nat)
    (ignore_robots : bool) (extract : string -> string -> py (list string))
    : py (config * state) :=
  match UrlParse.urlparse start_url with
  | None => Raise ValueError
  | Some parsed =>
      match AiCrawler.normalize_url start_url None with
      | Raise e => Raise e
      | Ret start_norm =>
          Ret (mkConfig AiVariant (UrlParse.netloc parsed) max_pages robots
                        ignore_robots browser_context extract,
               init concurrency [start_norm])
      end
  end.

End AiCrawl.

(** Lower-casing a bracketed host that is accepted leaves it accepted (hex
    digits and the [v] of an IPvFuture literal are read in either case) *)
Definition case_insensitive (hc : HostCheck) : Prop :=
  forall h, check_bracketed_host h = true ->
            check_bracketed_host (PyStr.lower h) = true.

(** A host check that accepts no bracketed host; used where a concrete one
    is needed to evaluate the code on URLs without brackets. *)
Definition no_bracketed_hosts : HostCheck := fun _ => false.


(** ** Example sites *)

Module SitemapExamples.
Import RobotsCrawler.

Definition loc_entry (kind url : string) : xml :=
  Elem sm_ns kind None [Elem sm_ns "loc" (Some url) []].

(** A sitemap index that lists itself *)
Definition self_url : string := "http://x.com/sitemap.xml".

Definition self_index : xml :=
  Elem sm_ns "sitemapindex" None [loc_entry "sitemap" self_url].

Definition self_web : sitemap_web :=
  fun u => if String.eqb u self_url then Some self_index else None.

(** An index with two child sitemaps of three pages each, one page shared *)
Definition two_children_web : sitemap_web :=
  fun u =>
    if String.eqb u "http://x.com/sitemap.xml" then
      Some (Elem sm_ns "sitemapindex" None
              [loc_entry "sitemap" "http://x.com/s1.xml";
               loc_entry "sitemap" "http://x.com/s2.xml"])
    else if String.eqb u "http://x.com/s1.xml" then
      Some (Elem sm_ns "urlset" None
              [loc_entry "url" "http://x.com/a"; loc_entry "url" "http://x.com/b";
               loc_entry "url" "http://x.com/c"])
    else if String.eqb u "http://x.com/s2.xml" then
      Some (Elem sm_ns "urlset" None
              [loc_entry "url" "http://x.com/c"; loc_entry "url" "http://x.com/d";
               loc_entry "url" "http://x.com/e"])
    else None.

(** An index that lists the same child twice *)
Definition twice_web : sitemap_web :=
  fun u =>
    if String.eqb u "http://x.com/sitemap.xml" then
      Some (Elem sm_ns "sitemapindex" None
              [loc_entry "sitemap" "http://x.com/s1.xml";
               loc_entry "sitemap" "http://x.com/s1.xml"])
    else if String.eqb u "http://x.com/s1.xml" then
      Some (Elem sm_ns "urlset" None [loc_entry "url" "http://x.com/a"])
    else None.

End SitemapExamples.

Module PlaywrightExamples.
Import Playwright.


(** A page of two screens that loads, with one link and no script *)
Definition plain_page : page :=
  mkPage (Done tt) (Done tt) (Done tt) (Done 800%Z)
         (fun _ => Done 1600%Z) (fun _ => Done tt) (Done ["/about"]) (Done [])
         (Done "<html></html>") (Done tt).



End PlaywrightExamples.

Module CrawlExamples.
Import Crawl RobustCrawl SitemapExamples.

(** A page parser that finds no link *)
Definition no_links : string -> string -> py (list string) := fun _ _ => Ret [].

(** A site whose sitemap lists one page besides the start page; robots.txt
    allows everything *)
Definition two_page_web : web :=
  mkWeb (Some (fun _ => true))
        (fun u => if String.eqb u "http://x.com/sitemap.xml"
                  then Some (200, "<urlset></urlset>")
                  else Some (200, "<html></html>"))
        (fun _ => [])
        (fun u => if String.eqb u "http://x.com/sitemap.xml"
                  then Some (Elem RobotsCrawler.sm_ns "urlset" None
                               [loc_entry "url" "http://x.com/a"])
                  else None)
        false.

(** Two workers, each started before the fetch of the other has ended *)
Definition overlapping_run : list event :=
  [Resume 0; Resume 1;
   PlainDone 0 (Some "<html></html>"); PlainDone 1 (Some "<html></html>")].

(** A parser for a site of four pages: the start page links to [/a] and
    [/b], which link to [/page] with and without a tracking parameter *)
Definition tracking_links : string -> string -> py (list string) :=
  fun url _ =>
    let norm raw :=
      match Products.normalize_url (hc := no_bracketed_hosts) raw (Some url) with
      | Some n => [n]
      | None => []
      end in
    if String.eqb url "http://x.com/" then Ret (norm "/a" ++ norm "/b")
    else if String.eqb url "http://x.com/a" then Ret (norm "/page?utm_campaign=x")
    else if String.eqb url "http://x.com/b" then Ret (norm "/page#top")
    else Ret [].

(** One worker crawling that site to the end *)
Definition one_worker_run : list event :=
  [Resume 0; PlainDone 0 (Some "<html></html>");
   Resume 0; PlainDone 0 (Some "<html></html>");
   Resume 0; PlainDone 0 (Some "<html></html>");
   Resume 0; PlainDone 0 (Some "<html></html>");
   Resume 0].

(** A site without sitemap on which robots.txt disallows every path *)
Definition closed_web : web :=
  mkWeb (Some (fun _ => false))
        (fun u => if String.eqb u "http://x.com/"
                  then Some (200, "<html></html>") else Some (404, ""))
        (fun _ => [])
        (fun _ => None)
        false.

(** A site without sitemap, reached through a start URL with an upper-case
    host *)
Definition upper_web : web :=
  mkWeb (Some (fun _ => true))
        (fun u => if String.eqb u "http://X.com/"
                  then Some (200, "<html></html>") else Some (404, ""))
        (fun _ => [])
        (fun _ => None)
        false.

(** A site without sitemap that serves the same short page at every URL;
    robots.txt allows everything *)
Definition no_sitemap_web : web :=
  mkWeb (Some (fun _ => true))
        (fun _ => Some (200, "<html></html>"))
        (fun _ => [])
        (fun _ => None)
        false.

(** Two workers on the site of [tracking_links]: each of them finds the link
    to [/page] while the other one is at work *)
Definition two_worker_run : list event :=
  [Resume 0; PlainDone 0 (Some "<html></html>");
   Resume 0; Resume 1;
   PlainDone 0 (Some "<html></html>"); PlainDone 1 (Some "<html></html>");
   Resume 1; Resume 0; PlainDone 1 (Some "<html></html>");
   Resume 1].

(** What [robust_crawl] has built when it starts two workers on the site of
    [tracking_links], with [use_sitemaps] *)
Definition tracking_start : started :=
  mkStarted (mkConfig ProductsVariant "x.com" 10 (Some (fun _ => true)) false false
                      tracking_links)
            (init 2 [Some "http://x.com/"])
            (map Probe (sitemap_candidates "http://x.com") ++ [FetchPlain "http://x.com/"]).

End CrawlExamples.

(** ** What the worker pool keeps true, beyond the logs *)

Module CrawlInvariants.
Import PyStr Crawl.

(** The two tests a dequeued URL passes before a worker waits for its
    fetch: it is of the start host, and the robots policy does not block
    it *)
Definition gate {hc : HostCheck} (cfg : config) (u : string) : Prop :=
  netloc_of u = Some (base_host cfg) /\ blocked_by_robots cfg u = false.

(** A queue entry on which the [urlparse] of the loop head returns *)
Definition parses {hc : HostCheck} (x : option string) : Prop :=
  forall u, x = Some u -> is_Some (netloc_of u).

(** The URL of every page in the results list *)
Definition reported (st : state) : list string := map url (results st).

(** The pages reported as rendered *)
Definition reported_rendered (st : state) : list string :=
  map url (filter (fun r => rendered_with_playwright r) (results st)).

(** What a worker counts for among the workers that are in a fetch or
    over *)
Definition occupied (ws : wstate) : list unit :=
  match ws with
  | Ready | Asleep => []
  | _ => [tt]
  end.

End CrawlInvariants.

(** ** Links in the HTML of a page ([extract_links_from_html])

    The lines that the two copies of [extract_links_from_html] have in
    common: which attribute values of the parsed page are candidates. *)

Module HtmlLinks.
Import PyStr Xml.

(** What the extractor asks of the parsed page ([BeautifulSoup(html,
    'html.parser')]), each list in document order *)
Record soup := mkSoup {
  a_hrefs : list string;                   (* a['href'] for a in find_all('a', href=True) *)
  attr_values : string -> list string;     (* el.get(attr) for el in find_all(attrs={attr: True}) *)
  link_tags : list (list string * string)  (* (tag.get('rel') or [], tag['href'])
                                              for tag in find_all('link', href=True) *)
}.

Definition data_attrs : list string :=
  ["data-href"; "data-url"; "data-link"; "data-target"; "data-path"; "data-route"].

Definition rel_kinds : list string := ["canonical"; "prev"; "next"; "alternate"].

(** The two quote characters *)
Definition is_quote (c : ascii) : bool :=
  Ascii.eqb c "'" || Ascii.eqb c (ascii_of_nat 34).

(** [s] without the prefix [pre], when it starts with it *)
Fixpoint strip_prefix (pre s : string) : option string :=
  match pre with
  | EmptyString => Some s
  | String a pre' =>
      match s with
      | String b s' => if Ascii.eqb a b then strip_prefix pre' s' else None
      | EmptyString => None
      end
  end.

(** A quoted argument at the start of [s], as the three patterns end: a
    quote (single or double), one or more characters that are no quote,
    and a quote.  The result is the group: the class takes every character
    up to the next quote, and a quote has to follow. *)
Definition quoted (s : string) : option string :=
  match s with
  | String c r =>
      if is_quote c then
        match break is_quote r with
        | (String a body, String _ _) => Some (String a body)
        | _ => None
        end
      else None
  | EmptyString => None
  end.

(** White space, [=], white space and a quoted argument at the start of
    [s] *)
Definition assigned (s : string) : option string :=
  match lstrip is_space s with
  | String c r => if Ascii.eqb c "=" then quoted (lstrip is_space r) else None
  | EmptyString => None
  end.

(** The first pattern at the start of [s]: [location.href], then an
    assignment of a quoted argument *)
Definition location_href_at (s : string) : option string :=
  match strip_prefix "location.href" s with
  | Some r => assigned r
  | None => None
  end.

(** The second pattern at the start of [s]: [window.location], an optional
    [.href], then an assignment of a quoted argument; the optional group is
    tried first, then left out *)
Definition window_location_at (s : string) : option string :=
  match strip_prefix "window.location" s with
  | Some r =>
      match match strip_prefix ".href" r with
            | Some r' => assigned r'
            | None => None
            end with
      | Some g => Some g
      | None => assigned r
      end
  | None => None
  end.

(** The third pattern at the start of [s]: [window.open(], white space and
    a quoted argument *)
Definition window_open_at (s : string) : option string :=
  match strip_prefix "window.open(" s with
  | Some r => quoted (lstrip is_space r)
  | None => None
  end.

(** [re.search]: the match at the leftmost position that has one *)
Fixpoint search (match_at : string -> option string) (s : string) : option string :=
  match match_at s with
  | Some g => Some g
  | None =>
      match s with
      | String _ r => search match_at r
      | EmptyString => None
      end
  end.

(** The three searches on an [onclick] attribute, the second tried when the
    first finds nothing, the third when the second finds nothing:
    [m.group(1)] *)
Definition onclick_target (onclick : string) : option string :=
  match search location_href_at onclick with
  | Some g => Some g
  | None =>
      match search window_location_at onclick with
      | Some g => Some g
      | None => search window_open_at onclick
      end
  end.

(** The values handed to [normalize_url(…, base=base_url)], in the order of
    the four loops *)
Definition raw_candidates (s : soup) : list string :=
  filter (fun href => nonempty href) (map strip (a_hrefs s))
  ++ flat_map (fun attr => filter (fun v => nonempty v) (attr_values s attr)) data_attrs
  ++ flat_map (fun onclick => match onclick_target onclick with
                              | Some g => [g]
                              | None => []
                              end) (attr_values s "onclick")
  ++ flat_map (fun tag => if existsb (fun r => mem_str r rel_kinds) (fst tag)
                          then [snd tag] else []) (link_tags s).

(** The test of the last loop: [u] is kept *)
Definition kept (v : Crawl.variant) (u : string) : bool :=
  nonempty u &&
  negb (startswith "mailto:" (lower u) || startswith "tel:" (lower u)) &&
  negb (existsb (fun ext => endswith ext (lower u)) (Crawl.extension_skip v)).

(** [if n: found.add(n)] *)
Definition truthy (n : option string) : list string :=
  match n with
  | Some n => if nonempty n then [n] else []
  | None => []
  end.

End HtmlLinks.

(** ** [python_web_crawler_products.py]: [extract_links_from_html],
    [simple_classify] *)

Module ProductsPage.
Import PyStr HtmlLinks.

Section WithHostCheck.
Context {hc : HostCheck}.

(** The set [found], in the order of its insertions *)
Definition found (s : soup) (base_url : string) : list string :=
  flat_map (fun v => truthy (Products.normalize_url v (Some base_url)))
           (raw_candidates s).

(** [extract_links_from_html(base_url, html)]; [bs] is the HTML parser.
    The result is a set: the list is one enumeration of it. *)
Definition extract_links_from_html (bs : string -> soup) (base_url html : string)
    : list string :=
  remove_dups (filter (kept Crawl.ProductsVariant) (found (bs html) base_url)).

End WithHostCheck.

(** [simple_classify(text)] *)
Definition simple_classify (text : option string) : string :=
  let t := lower (default "" text) in
  if contains "course" t || contains "enroll" t || contains "training" t
  then "course"
  else if contains "certif" t || contains "certificate" t || contains "exam" t
  then "certification"
  else if contains "product" t || contains "buy" t || contains "price" t
  then "product"
  else if contains "press" t || contains "news" t || contains "announcement" t
  then "announcement"
  else if contains "blog" t || contains "case study" t || contains "case-study" t
  then "blog"
  else if contains "career" t || contains "job" t || contains "join us" t
  then "careers"
  else "other".

End ProductsPage.

(** ** [ai_crawler.py]: [extract_links_from_html], [simple_classify] *)

Module AiPage.
Import PyStr HtmlLinks.

Section WithHostCheck.
Context {hc : HostCheck}.

(** The four loops: [normalize_url] has no [try] in this copy, and what it
    raises leaves the extractor *)
Fixpoint collect (base_url : string) (vs : list string) (found : list string)
    : py (list string) :=
  match vs with
  | [] => Ret found
  | v :: rest =>
      match AiCrawler.normalize_url v (Some base_url) with
      | Raise e => Raise e
      | Ret n => collect base_url rest (found ++ truthy n)
      end
  end.

(** [extract_links_from_html(base_url, html)] *)
Definition extract_links_from_html (bs : string -> soup) (base_url html : string)
    : py (list string) :=
  match collect base_url (raw_candidates (bs html)) [] with
  | Raise e => Raise e
  | Ret found => Ret (remove_dups (filter (kept Crawl.AiVariant) found))
  end.

End WithHostCheck.

(** [simple_classify(text)] *)
Definition simple_classify (text : option string) : string :=
  let t := lower (default "" text) in
  if contains "course" t || contains "enroll" t || contains "training" t
  then "course"
  else if contains "certif" t || contains "certificate" t || contains "exam" t
  then "certification"
  else if contains "product" t || contains "buy" t || contains "price" t
  then "product"
  else if contains "press" t || contains "news" t || contains "announcement" t
  then "announcement"
  else if contains "blog" t || contains "case study" t || contains "case-study" t
  then "blog"
  else "other".

End AiPage.

(** ** The worker pool with the extractor of the products crawler *)

Module ProductsPool.
Import PyStr Crawl.

(** The [cfg] of a [robust_crawl] whose [extract_links_from_html] is the one
    of the file, on the HTML parser [bs]: it returns, with the links of the
    set in some order *)
Definition products_extractor {hc : HostCheck} (bs : string -> HtmlLinks.soup)
    (extract : string -> string -> py (list string)) : Prop :=
  forall base_url html,
    exists links,
      extract base_url html = Ret links /\
      forall l, l ∈ links -> l ∈ ProductsPage.extract_links_from_html bs base_url html.

End ProductsPool.

(** ** [keyword_crawler.py]: what a run has submitted *)

Module KeywordRun.
Import PyStr KeywordCrawler.

(** The URLs handed to the pool, [exe.submit(self.process_page, url)], in
    order *)
Definition submitted (l : list event) : list string :=
  flat_map (fun e => match e with
                     | Submit u => [u]
                     | Sleep _ => []
                     end) l.

(** What can happen next in [run], seen from the main thread: it runs one
    iteration of its loop, or the pool threads have changed the queue.  The
    pool threads ([process_page]) write to [self.to_visit] only, and
    [requeue] stands for whatever they have done to it, at whatever moment:
    the iteration reads the queue in its first statement only. *)
Inductive pool_action : Type :=
  | iterate
  | requeue (to_visit : list string).

Definition pool_step {hc : HostCheck} (self : crawler) (a : pool_action) : crawler :=
  match a with
  | iterate => step self Iterate
  | requeue tv => with_queue self tv
  end.

Definition pool_run {hc : HostCheck} (self : crawler) (schedule : list pool_action)
    : crawler :=
  fold_left pool_step schedule self.

End KeywordRun.

(** ** Sitemap graphs on which [fetch_sitemap_urls] ends *)

Module SitemapTree.
Import PyStr Xml ProductsSitemap.

(** The sitemaps that [fetch_sitemap_urls] descends into from a document:
    the [loc] of each [sitemap] entry of an index *)
Definition children (root : xml) : list string :=
  if endswith "sitemapindex" (lower (tag root))
  then locs_of (findall_any_ns "sitemap" root)
  else [].

(** Every index lists only sitemaps of a lower rank: the graph has no
    cycle and no infinite descent *)
Definition ranked (web : sitemap_web) (rank : string -> nat) : Prop :=
  forall u root child,
    web u = Some root -> child ∈ children root -> rank child < rank u.

(** The rank of the example with two child sitemaps *)
Definition two_children_rank (u : string) : nat :=
  if String.eqb u "http://x.com/sitemap.xml" then 1 else 0.

End SitemapTree.

(** ** Query strings without escapes *)

Module PlainQuery.
Import PyStr.

(** [k=v], as [normalize_url] writes a pair and as a query string holds it *)
Definition pair_text (kv : string * string) : string := fst kv +:+ "=" +:+ snd kv.

(** A key and a value that [parse_qsl] reads as they are written: no
    separator, no escape, no plus sign (and no [=] in the key) *)
Definition plain_pair (kv : string * string) : bool :=
  negb (has_char "&" (fst kv)) && negb (has_char "=" (fst kv)) &&
  negb (has_char "%" (fst kv)) && negb (has_char "+" (fst kv)) &&
  negb (has_char "&" (snd kv)) && negb (has_char "%" (snd kv)) &&
  negb (has_char "+" (snd kv)).

(** The query string of a list of pairs *)
Definition query_of (pairs : list (string * string)) : string :=
  join "&" (map pair_text pairs).

End PlainQuery.

(** ** [keyword_crawler.py]: [normalize_url] *)

Module KeywordLinks.
Import PyStr UrlParse.

Section WithHostCheck.
Context {hc : HostCheck}.

(** [urldefrag(url)] of [urllib.parse]: the URL without its fragment, and
    the fragment.  [None]: [urlparse] raised. *)
Definition urldefrag (url : string) : option (string * string) :=
  if has_char "#" url then
    match urlparse url with
    | None => None
    | Some r =>
        Some (urlunparse (scheme r) (netloc r) (path r) (params r) (query r) "",
              fragment r)
    end
  else Some (url, "").

(** [normalize_url(base, link)]: [urljoin] is under [try], [urldefrag] is
    not *)
Definition normalize_url (base link : string) : py (option string) :=
  if negb (nonempty link) then Ret None
  else
    match UrlJoin.urljoin base link with
    | None => Ret None
    | Some joined =>
        match urldefrag joined with
        | None => Raise ValueError
        | Some (cleaned, _) => Ret (Some cleaned)
        end
    end.

End WithHostCheck.
End KeywordLinks.

(** ** [keyword_crawler.py]: [looks_relevant] and [process_page] *)

Module KeywordPage.
Import PyStr UrlParse KeywordCrawler.

(** A word character of the regular expressions: letter, digit, underscore *)
Definition is_word (c : ascii) : bool := is_alpha c || is_digit c || Ascii.eqb c "_".

(** A word boundary after a word character, before [s] *)
Definition boundary_before (s : string) : bool :=
  match s with
  | EmptyString => true
  | String c _ => negb (is_word c)
  end.

(** The pattern of a word with an optional [s] and a word boundary, at the
    start of [s] *)
Definition plural_at (word s : string) : bool :=
  match HtmlLinks.strip_prefix word s with
  | Some r =>
      match r with
      | String c r' => Ascii.eqb c "s" && boundary_before r'
      | EmptyString => false
      end || boundary_before r
  | None => false
  end.

(** [re.search] for a word boundary, the word, an optional [s] and a word
    boundary; [after_word] tells whether the character before [s] is a word
    character *)
Fixpoint search_plural (word : string) (after_word : bool) (s : string) : bool :=
  (negb after_word && plural_at word s) ||
  match s with
  | String c r => search_plural word (is_word c) r
  | EmptyString => false
  end.

(** The endings of the third pattern *)
Definition certif_endings : list string := ["y"; "icate"; "ication"; "ications"].

(** The third pattern at the start of [s]: [certif], one of the endings and
    a word boundary *)
Definition certif_at (s : string) : bool :=
  match HtmlLinks.strip_prefix "certif" s with
  | Some r =>
      existsb (fun ending => match HtmlLinks.strip_prefix ending r with
                             | Some r' => boundary_before r'
                             | None => false
                             end) certif_endings
  | None => false
  end.

Fixpoint search_certif (s : string) : bool :=
  certif_at s ||
  match s with
  | String _ r => search_certif r
  | EmptyString => false
  end.

(** [looks_relevant(url, anchor_text)], with the three patterns of the
    file *)
Definition looks_relevant (url anchor_text : string) : bool :=
  let combined := lower (url +:+ " " +:+ anchor_text) in
  search_plural "product" false combined ||
  search_plural "course" false combined ||
  search_certif combined.

(** [link.startswith(("mailto:", "tel:", "javascript:"))] *)
Definition ignored_scheme (link : string) : bool :=
  startswith "mailto:" link || startswith "tel:" link || startswith "javascript:" link.

(** [self.found_links]: for a URL, its anchor and the page it was found on *)
Record found := mkFound {
  anchor : string;
  found_on : string
}.

Section WithHostCheck.
Context {hc : HostCheck}.

(** [self.same_domain(url)]; [None]: [urlparse] raised *)
Definition same_domain (self : crawler) (url : string) : option bool :=
  match urlparse url with
  | None => None
  | Some parsed =>
      Some (String.eqb (netloc parsed) (base_domain self) || String.eqb (netloc parsed) "")
  end.

(** The body of the loop of [process_page] on one link of the page, after
    [extract_links] has yielded it *)
Definition record_link (url : string) (self : crawler) (found_links : gmap string found)
    (link anchor_text : string) : option (crawler * gmap string found) :=
  if ignored_scheme link then Some (self, found_links)
  else
    match same_domain self link with
    | None => None
    | Some false => Some (self, found_links)
    | Some true =>
        let self := enqueue_link self link in
        if looks_relevant link anchor_text then
          match found_links !! link with
          | Some _ => Some (self, found_links)
          | None => Some (self, <[link := mkFound anchor_text url]> found_links)
          end
        else Some (self, found_links)
    end.

(** The loop of [process_page] over the [a] tags of the page, each given
    by its [href] and its stripped text.  An exception ([ValueError] from
    [urldefrag] or [urlparse]) ends the loop; what was done stays done. *)
Fixpoint record_links (url : string) (self : crawler) (found_links : gmap string found)
    (tags : list (string * string)) : crawler * gmap string found * option exn :=
  match tags with
  | [] => (self, found_links, None)
  | (href, anchor_text) :: rest =>
      match KeywordLinks.normalize_url url href with
      | Raise e => (self, found_links, Some e)
      | Ret None => record_links url self found_links rest
      | Ret (Some link) =>
          if negb (nonempty link) then record_links url self found_links rest
          else
            match record_link url self found_links link anchor_text with
            | None => (self, found_links, Some ValueError)
            | Some (self, found_links) => record_links url self found_links rest
            end
      end
  end.

(** [process_page(url)]; [fetch] is [self.fetch] and [a_tags] what
    [BeautifulSoup] finds in the HTML *)
Definition process_page (fetch : string -> option (nat * string))
    (a_tags : string -> list (string * string)) (self : crawler)
    (found_links : gmap string found) (url : string)
    : crawler * gmap string found * option exn :=
  if negb (can_fetch self url) then (self, found_links, None)
  else
    match fetch url with
    | None => (self, found_links, None)
    | Some (status, html) =>
        if 400 <=? status then (self, found_links, None)
        else record_links url self found_links (a_tags html)
    end.

End WithHostCheck.
End KeywordPage.

(** ** [notebook/robots_crawler.py]: from robots.txt to the relevant links *)

Module RobotsFast.
Import PyStr Xml UrlParse.

Definition USER_AGENT : string := "Mozilla/5.0 (compatible; sitemap-filter-bot/1.0)".

Definition DEFAULT_KEYWORDS : list string :=
  ["product"; "products"; "course"; "courses"; "cert"; "certificate";
   "certification"; "training"; "certified"].

(** The ASCII characters at which [str.splitlines] cuts *)
Definition is_linebreak (c : ascii) : bool := in_range 10 13 c || in_range 28 30 c.

(** [s.splitlines()]: a carriage return followed by a line feed is one
    boundary, and a boundary at the end opens no last line *)
Fixpoint splitlines (s : string) : list string :=
  match s with
  | EmptyString => []
  | String a r =>
      if is_linebreak a then
        EmptyString ::
        match r with
        | String b r' =>
            if (code a =? 13) && (code b =? 10) then splitlines r' else splitlines r
        | EmptyString => []
        end
      else
        match splitlines r with
        | [] => [String a EmptyString]
        | h :: t => String a h :: t
        end
  end.

(** The body of the loop of [get_sitemaps_from_robots] on one line: what is
    appended.  [None]: [line.split(":", 1)[1]] raised [IndexError]. *)
Definition sitemap_of_line (line : string) : option (list string) :=
  if startswith "sitemap:" (lower (strip line)) then
    match partition ":" line with
    | (_, Some rest) => Some [strip rest]
    | (_, None) => None
    end
  else Some [].

Fixpoint sitemaps_of_lines (lines : list string) (sitemaps : list string)
    : option (list string) :=
  match lines with
  | [] => Some sitemaps
  | line :: rest =>
      match sitemap_of_line line with
      | None => None
      | Some found => sitemaps_of_lines rest (sitemaps ++ found)
      end
  end.

(** [get_sitemaps_from_robots(robots_txt)] *)
Definition get_sitemaps_from_robots (robots_txt : string) : option (list string) :=
  sitemaps_of_lines (splitlines robots_txt) [].

(** [url_matches_keywords(url, keywords)] *)
Definition url_matches_keywords (url : string) (keywords : list string) : bool :=
  existsb (fun kw => contains kw (lower url)) keywords.

(** [rp.can_fetch(USER_AGENT, u) or rp.can_fetch("*", u)] inside
    [try: ... except Exception: continue]; [can_fetch] is the parser built
    from the text of robots.txt *)
Definition allowed (can_fetch : string -> string -> py bool) (u : string) : bool :=
  match can_fetch USER_AGENT u with
  | Ret true => true
  | Ret false =>
      match can_fetch "*" u with
      | Ret b => b
      | Raise _ => false
      end
  | Raise _ => false
  end.

(** [filter_allowed_urls_by_robots(urls, rp)] *)
Definition filter_allowed_urls_by_robots (urls : list string)
    (can_fetch : string -> string -> py bool) : list string :=
  filter (fun u => allowed can_fetch u) urls.

(** [list(dict.fromkeys(l))]: the first occurrence of each element, in
    order *)
Fixpoint fromkeys (l : list string) : list string :=
  match l with
  | [] => []
  | x :: r => x :: filter (fun y => negb (String.eqb y x)) (fromkeys r)
  end.

(** A list in ascending order: each element is at most the next one *)
Fixpoint ascending (l : list string) : bool :=
  match l with
  | x :: (y :: _) as r => String.leb x y && ascending r
  | _ => true
  end.

(** The site as the fast mode sees it *)
Record site := mkSite {
  fetch_text : string -> string;          (* the text, or the empty string on failure *)
  sitemap_docs : sitemap_web;
  robot_parser : string -> string -> string -> py bool
                                          (* robots.txt text, agent, URL *)
}.

Inductive result : Type :=
  | Links (urls : list string)
  | Raises            (* an exception leaves the function *)
  | Unfinished.       (* a sitemap recursion has not ended within the depth allowed *)

Section WithHostCheck.
Context {hc : HostCheck}.

(** [get_robots_txt(base_url)]; [None]: [urljoin] raised *)
Definition get_robots_txt (s : site) (base_url : string) : option string :=
  let base_url := if endswith "/" base_url then base_url else base_url +:+ "/" in
  fetch_text s <$> UrlJoin.urljoin base_url "robots.txt".

(** [for sm in sitemaps: candidate_urls.extend(parse_sitemap(sm))], each
    call with a [seen] set of its own *)
Fixpoint parse_all (fuel : nat) (web : sitemap_web) (sitemaps : list string)
    (candidate_urls : list string) : option (list string) :=
  match sitemaps with
  | [] => Some candidate_urls
  | sm :: rest =>
      match RobotsCrawler.parse_sitemap fuel web sm (RobotsCrawler.mkWalk ∅ []) with
      | None => None
      | Some (urls, _) => parse_all fuel web rest (candidate_urls ++ urls)
      end
  end.

(** [collect_crawlable_relevant_links_fast(site_url, keywords)] *)
Definition collect_crawlable_relevant_links_fast (fuel : nat) (s : site)
    (site_url : string) (keywords : option (list string)) : result :=
  let keywords := default DEFAULT_KEYWORDS keywords in
  match urlparse site_url with
  | None => Raises
  | Some parsed =>
      let site_url := if nonempty (scheme parsed) then site_url
                      else "https://" +:+ site_url in
      match urlparse site_url with
      | None => Raises
      | Some parsed =>
          let base_url := scheme parsed +:+ "://" +:+ netloc parsed in
          match get_robots_txt s base_url with
          | None => Raises
          | Some robots_txt =>
              if negb (nonempty robots_txt) then Links []
              else
                match get_sitemaps_from_robots robots_txt with
                | None => Raises
                | Some [] => Links []
                | Some sitemaps =>
                    match parse_all fuel (sitemap_docs s) sitemaps [] with
                    | None => Unfinished
                    | Some candidate_urls =>
                        let candidate_urls := fromkeys candidate_urls in
                        let allowed_urls :=
                          filter_allowed_urls_by_robots candidate_urls
                            (robot_parser s robots_txt) in
                        let fast_matched :=
                          filter (fun u => url_matches_keywords u keywords)
                                 allowed_urls in
                        Links (RobustCrawl.sorted fast_matched)
                    end
                end
          end
      end
  end.

End WithHostCheck.
End RobotsFast.

(** ** More example inputs *)

Module ExtraExamples.
Import Crawl HtmlLinks.

(** A page with three links, one of them an image, and a button that
    navigates *)
Definition shop_soup : soup :=
  mkSoup ["/a"; " /b#top "; "/logo.PNG"]
         (fun attr => if String.eqb attr "onclick" then ["location.href = '/cart'"]
                      else [])
         [(["canonical"], "http://X.com/")].

(** The extractor of [python_web_crawler_products.py] on a parser that
    finds that page everywhere *)
Definition shop_extract : string -> string -> py (list string) :=
  fun base_url html =>
    Ret (ProductsPage.extract_links_from_html (hc := no_bracketed_hosts)
           (fun _ => shop_soup) base_url html).

(** A page with one link that [urljoin] rejects: an opening bracket
    without its closing one *)
Definition broken_soup : soup := mkSoup ["/a"; "//[b"] (fun _ => []) [].

(** A worker of [crawl] waiting for the plain fetch of the start page *)
Definition waiting : state :=
  mkState [] {[Some "http://x.com/"]} ∅ [] [AwaitPlain "http://x.com/"]
          ["http://x.com/"] [] [] None.

(** A page that grows by a thousand pixels each time its height is read *)
Definition growing_page : Playwright.page :=
  Playwright.mkPage (Playwright.Done tt) (Playwright.Done tt) (Playwright.Done tt)
                    (Playwright.Done 800%Z)
                    (fun i => Playwright.Done (1000 * (Z.of_nat i + 1))%Z)
                    (fun _ => Playwright.Done tt)
                    (Playwright.Done []) (Playwright.Done [])
                    (Playwright.Done "<html></html>") (Playwright.Done tt).

(** The documents of the example with two child sitemaps *)
Definition two_children_known : gset string :=
  {[ "http://x.com/sitemap.xml"; "http://x.com/s1.xml"; "http://x.com/s2.xml" ]}.

(** A query with one tracking pair between two others *)
Definition tracked_query : list (string * string) :=
  [("a", "1"); ("utm_source", "mail"); ("b", "2")].

(** A site whose robots.txt names the sitemap index of the example with
    two child sitemaps, and whose robots policy blocks one page *)
Definition listed_site : RobotsFast.site :=
  RobotsFast.mkSite
    (fun u => if String.eqb u "https://x.com/robots.txt"
              then "User-agent: *" +:+ String "010" "Sitemap: http://x.com/sitemap.xml"
              else "")
    SitemapExamples.two_children_web
    (fun _ _ u => Ret (negb (String.eqb u "http://x.com/b"))).

(** A crawler of [x.com] at its start, and the [a] tags of a page with a
    link to the products, a mail link and a link to another site *)
Definition shop_crawler : KeywordCrawler.crawler :=
  KeywordCrawler.mkCrawler "x.com" "http" 9 1%Q 5%Z (fun _ => true)
                           ["http://x.com"] ∅ [].

Definition shop_tags : list (string * string) :=
  [("/products", "Shop"); ("mailto:a@x.com", "Mail"); ("http://y.com/courses", "Courses")].

End ExtraExamples.
(** * Properties *)

#[local] Set Warnings "-clear-no-such-hyp".

(** ** Strings *)

Module PyStrFacts.
Import PyStr.

Lemma nonempty_true (s : string) : nonempty s = true <-> s <> "".
Proof.
  unfold nonempty. rewrite negb_true_iff. split.
  - intros E ->. discriminate.
  - intros N. apply String.eqb_neq. exact N.
Qed.

Lemma nonempty_false (s : string) : nonempty s = false <-> s = "".
Proof.
  unfold nonempty. rewrite negb_false_iff. apply String.eqb_eq.
Qed.

Lemma app_cons (a : ascii) (s t : string) : String a s +:+ t = String a (s +:+ t).
Proof. reflexivity. Qed.

Lemma app_nil_l (s : string) : "" +:+ s = s.
Proof. reflexivity. Qed.

Lemma app_nil_r (s : string) : s +:+ "" = s.
Proof. induction s as [|a s IH]; [reflexivity|]. rewrite app_cons, IH. reflexivity. Qed.

Lemma app_assoc (s t u : string) : (s +:+ t) +:+ u = s +:+ (t +:+ u).
Proof.
  induction s as [|a s IH]; [reflexivity|]. rewrite !app_cons, IH. reflexivity.
Qed.

Lemma startswith_char (c a : ascii) (t : string) :
  startswith (String c "") (String a t) = Ascii.eqb c a.
Proof. simpl. apply andb_true_r. Qed.

Lemma lower_empty (s : string) : lower s = "" <-> s = "".
Proof. unfold lower. destruct s; simpl; split; congruence. Qed.

Lemma rstrip_slashes (n : nat) : rstrip (is_char "/") (slashes n) = "".
Proof.
  induction n as [|n IH]; simpl; [reflexivity|]. rewrite IH. reflexivity.
Qed.

Lemma rstrip_app_slashes (q : string) (n : nat) :
  rstrip (is_char "/") (q +:+ slashes n) = rstrip (is_char "/") q.
Proof.
  induction q as [|a q IH]; simpl.
  - apply rstrip_slashes.
  - rewrite IH. reflexivity.
Qed.

Lemma endswith_cons (suf : string) (a : ascii) (s : string) :
  endswith suf (String a s) = String.eqb (String a s) suf || endswith suf s.
Proof. reflexivity. Qed.

(** A string that does not end with a slash is left alone by [rstrip('/')] *)
Lemma rstrip_no_trailing_slash (q : string) :
  endswith "/" q = false -> rstrip (is_char "/") q = q.
Proof.
  induction q as [|a q IH]; [reflexivity|].
  rewrite endswith_cons. intros E. apply orb_false_iff in E as [E1 E2].
  simpl. rewrite (IH E2). destruct q as [|b q]; [|reflexivity].
  unfold is_char. destruct (Ascii.eqb_spec a "/") as [->|]; [discriminate|reflexivity].
Qed.

Lemma endswith_app_slashes (q : string) (n : nat) :
  endswith "/" (q +:+ slashes (S n)) = true.
Proof.
  induction q as [|a q IH].
  - induction n as [|n IHn]; [reflexivity|].
    change ("" +:+ slashes (S (S n))) with (String "/" ("" +:+ slashes (S n))).
    rewrite endswith_cons, IHn. apply orb_true_r.
  - change (String a q +:+ slashes (S n)) with (String a (q +:+ slashes (S n))).
    rewrite endswith_cons, IH. apply orb_true_r.
Qed.

Lemma app_slashes_not_root (q : string) (n : nat) :
  q <> "" -> endswith "/" q = false -> q +:+ slashes n <> "/".
Proof.
  intros Hq He E. destruct q as [|a q]; [congruence|].
  simpl in E. injection E as -> E. destruct q; [|discriminate].
  discriminate He.
Qed.

End PyStrFacts.

(** ** Lower-casing and the characters that delimit a URL *)

Module LowerFacts.
Import PyStr PyStrFacts.

Lemma lower_char_spec (a : ascii) :
  is_upper (lower_char a) = false /\
  (is_upper a = false -> lower_char a = a) /\
  (is_upper a = true -> is_lower (lower_char a) = true).
Proof.
  destruct a as [[] [] [] [] [] [] [] []]; vm_compute; repeat split; congruence.
Qed.

(** Lower-casing neither creates nor removes a character that is not a
    letter *)
Lemma lower_char_eqb (a c : ascii) :
  not_letter c = true -> Ascii.eqb (lower_char a) c = Ascii.eqb a c.
Proof.
  intros Hc. destruct (lower_char_spec a) as (_ & Hsame & Hup).
  destruct (is_upper a) eqn:Ha.
  - specialize (Hup eq_refl).
    assert (Hne1 : lower_char a <> c).
    { intros <-. unfold not_letter, is_alpha in Hc. rewrite Hup, orb_true_r in Hc.
      discriminate. }
    assert (Hne2 : a <> c).
    { intros <-. unfold not_letter, is_alpha in Hc. rewrite Ha in Hc. discriminate. }
    apply Ascii.eqb_neq in Hne1, Hne2. congruence.
  - rewrite (Hsame eq_refl). reflexivity.
Qed.

Lemma has_char_lower (c : ascii) (s : string) :
  not_letter c = true -> has_char c (lower s) = has_char c s.
Proof.
  intros Hc. unfold lower. induction s as [|a s IH]; [reflexivity|].
  simpl. rewrite IH, (lower_char_eqb a c Hc). reflexivity.
Qed.

Lemma has_upper_lower (s : string) : has_upper (lower s) = false.
Proof.
  unfold has_upper, lower. apply negb_false_iff.
  induction s as [|a s IH]; [reflexivity|]. simpl. rewrite IH.
  destruct (lower_char_spec a) as (-> & _). reflexivity.
Qed.

Lemma partition_lower (c : ascii) (s : string) :
  not_letter c = true ->
  partition c (lower s) = (lower (partition c s).1, lower <$> (partition c s).2).
Proof.
  intros Hc. unfold lower. induction s as [|a s IH]; [reflexivity|].
  simpl. rewrite (lower_char_eqb a c Hc).
  destruct (Ascii.eqb a c); [reflexivity|].
  rewrite IH. destruct (partition c s) as [h t]. reflexivity.
Qed.

Lemma rpartition_tail_lower (c : ascii) (s : string) :
  not_letter c = true ->
  rpartition_tail c (lower s) = lower (rpartition_tail c s).
Proof.
  intros Hc. induction s as [|a s IH]; [reflexivity|].
  change (lower (String a s)) with (String (lower_char a) (lower s)).
  simpl. rewrite (has_char_lower c s Hc), (lower_char_eqb a c Hc).
  destruct (has_char c s); [exact IH|].
  destruct (Ascii.eqb a c); reflexivity.
Qed.

Lemma nonempty_lower (s : string) : nonempty (lower s) = nonempty s.
Proof. destruct s; reflexivity. Qed.

Lemma startswith_char_lower (c : ascii) (s : string) :
  not_letter c = true ->
  startswith (String c "") (lower s) = startswith (String c "") s.
Proof.
  intros Hc. destruct s as [|a s]; [reflexivity|].
  change (lower (String a s)) with (String (lower_char a) (lower s)).
  rewrite !startswith_char, !(Ascii.eqb_sym c), (lower_char_eqb a c Hc).
  reflexivity.
Qed.

Lemma all_chars_lower (p : ascii -> bool) (s : string) :
  lower_stable p -> all_chars p s = true -> all_chars p (lower s) = true.
Proof.
  intros Hp. unfold lower. induction s as [|a s IH]; [reflexivity|]. simpl.
  intros H. apply andb_true_iff in H as [Ha Hs].
  rewrite (Hp a Ha), (IH Hs). reflexivity.
Qed.

Lemma lower_lower (s : string) : lower (lower s) = lower s.
Proof.
  unfold lower. induction s as [|a s IH]; [reflexivity|]. simpl. rewrite IH.
  f_equal. destruct (lower_char_spec a) as (Hu & _).
  destruct (lower_char_spec (lower_char a)) as (_ & Hsame & _). auto.
Qed.

End LowerFacts.

(** ** Splitting strings *)

Module SplitFacts.
Import PyStr PyStrFacts.

Lemma all_chars_app (p : ascii -> bool) (s t : string) :
  all_chars p (s +:+ t) = all_chars p s && all_chars p t.
Proof.
  induction s as [|a s IH]; [reflexivity|].
  rewrite app_cons. simpl. rewrite IH, andb_assoc. reflexivity.
Qed.

Lemma all_chars_impl (p q : ascii -> bool) (s : string) :
  (forall a, p a = true -> q a = true) ->
  all_chars p s = true -> all_chars q s = true.
Proof.
  intros Hpq. induction s as [|a s IH]; [reflexivity|]. simpl.
  intros H. apply andb_true_iff in H as [Ha Hs]. rewrite (Hpq a Ha), (IH Hs).
  reflexivity.
Qed.

Lemma has_char_all_chars (p : ascii -> bool) (c : ascii) (s : string) :
  all_chars p s = true -> p c = false -> has_char c s = false.
Proof.
  intros Hs Hc. induction s as [|a s IH]; [reflexivity|]. simpl in *.
  apply andb_true_iff in Hs as [Ha Hs]. rewrite (IH Hs), orb_false_r.
  apply Ascii.eqb_neq. intros ->. congruence.
Qed.

Lemma has_char_app (c : ascii) (s t : string) :
  has_char c (s +:+ t) = has_char c s || has_char c t.
Proof.
  induction s as [|a s IH]; [reflexivity|].
  rewrite app_cons. simpl. rewrite IH, orb_assoc. reflexivity.
Qed.

Lemma filter_str_app (p : ascii -> bool) (s t : string) :
  filter_str p (s +:+ t) = filter_str p s +:+ filter_str p t.
Proof.
  induction s as [|a s IH]; [reflexivity|].
  rewrite app_cons. simpl. rewrite IH. destruct (p a); reflexivity.
Qed.

Lemma filter_str_all (p : ascii -> bool) (s : string) :
  all_chars p s = true -> filter_str p s = s.
Proof.
  induction s as [|a s IH]; [reflexivity|]. simpl.
  intros H. apply andb_true_iff in H as [-> Hs]. rewrite (IH Hs). reflexivity.
Qed.

Lemma all_chars_filter (p : ascii -> bool) (s : string) :
  all_chars p (filter_str p s) = true.
Proof.
  induction s as [|a s IH]; [reflexivity|]. simpl.
  destruct (p a) eqn:Ha; [simpl; rewrite Ha, IH; reflexivity|exact IH].
Qed.

(** [partition] cuts at the first occurrence *)
Lemma partition_found (c : ascii) (s h t : string) :
  partition c s = (h, Some t) -> s = h +:+ String c t /\ has_char c h = false.
Proof.
  revert h. induction s as [|a s IH]; intros h; simpl; [discriminate|].
  destruct (Ascii.eqb_spec a c) as [->|Hne].
  - intros E. injection E as <- <-. split; reflexivity.
  - destruct (partition c s) as [h' t'] eqn:Hp. intros E. injection E as <- ->.
    destruct (IH h' eq_refl) as [-> Hh]. split; [reflexivity|].
    simpl. rewrite Hh. apply Ascii.eqb_neq in Hne. rewrite Hne. reflexivity.
Qed.

Lemma partition_missing (c : ascii) (s h : string) :
  partition c s = (h, None) -> h = s /\ has_char c s = false.
Proof.
  revert h. induction s as [|a s IH]; intros h; simpl.
  - intros E. injection E as <-. split; reflexivity.
  - destruct (Ascii.eqb a c); [discriminate|].
    destruct (partition c s) as [h' t'] eqn:Hp. intros E. injection E as <- ->.
    destruct (IH h' eq_refl) as [-> Hh]. split; [reflexivity|exact Hh].
Qed.

Lemma partition_app (c : ascii) (s t : string) :
  has_char c s = false ->
  partition c (s +:+ t) = (s +:+ (partition c t).1, (partition c t).2).
Proof.
  induction s as [|a s IH]; simpl.
  - intros _. rewrite !app_nil_l. destruct (partition c t); reflexivity.
  - intros H. apply orb_false_iff in H as [Ha Hs].
    rewrite app_cons. simpl. rewrite Ha, (IH Hs). reflexivity.
Qed.

(** [break] on a prefix free of the breaking characters *)
Lemma break_app (p : ascii -> bool) (s t : string) :
  all_chars (fun a => negb (p a)) s = true ->
  match t with
  | EmptyString => true
  | String a _ => p a
  end = true ->
  break p (s +:+ t) = (s, t).
Proof.
  intros Hs Ht. induction s as [|a s IH].
  - rewrite app_nil_l. destruct t as [|a t]; [reflexivity|]. simpl. rewrite Ht.
    reflexivity.
  - simpl in Hs. apply andb_true_iff in Hs as [Ha Hs]. apply negb_true_iff in Ha.
    rewrite app_cons. simpl. rewrite Ha, (IH Hs). reflexivity.
Qed.

Lemma break_spec (p : ascii -> bool) (s h t : string) :
  break p s = (h, t) ->
  s = h +:+ t /\ all_chars (fun a => negb (p a)) h = true /\
  match t with
  | EmptyString => true
  | String a _ => p a
  end = true.
Proof.
  revert h. induction s as [|a s IH]; intros h; simpl.
  - intros E. injection E as <- <-. auto.
  - destruct (p a) eqn:Ha.
    + intros E. injection E as <- <-. rewrite app_nil_l. auto.
    + destruct (break p s) as [h' t'] eqn:Hb. intros E. injection E as <- <-.
      destruct (IH h' eq_refl) as (-> & Hh & Ht). rewrite app_cons. simpl.
      rewrite Ha, Hh. auto.
Qed.

Lemma lstrip_keep (p : ascii -> bool) (a : ascii) (s : string) :
  p a = false -> lstrip p (String a s) = String a s.
Proof. intros H. simpl. rewrite H. reflexivity. Qed.

(** Cutting at the first [c] commutes with dropping other characters *)
Lemma partition_lstrip (p : ascii -> bool) (c : ascii) (s : string) :
  p c = false ->
  (partition c (lstrip p s)).1 = lstrip p (partition c s).1.
Proof.
  intros Hc. induction s as [|a s IH]; [reflexivity|]. simpl.
  destruct (Ascii.eqb_spec a c) as [->|Hne].
  - rewrite Hc. simpl. rewrite Ascii.eqb_refl. reflexivity.
  - destruct (partition c s) as [h t] eqn:Hp. simpl in *.
    destruct (p a) eqn:Ha; [exact IH|].
    simpl. apply Ascii.eqb_neq in Hne. rewrite Hne, Hp. reflexivity.
Qed.

Lemma partition_filter (q : ascii -> bool) (c : ascii) (s : string) :
  q c = true ->
  (partition c (filter_str q s)).1 = filter_str q (partition c s).1.
Proof.
  intros Hc. induction s as [|a s IH]; [reflexivity|]. simpl.
  destruct (Ascii.eqb_spec a c) as [->|Hne].
  - rewrite Hc. simpl. rewrite Ascii.eqb_refl. reflexivity.
  - destruct (partition c s) as [h t] eqn:Hp. simpl in *.
    destruct (q a) eqn:Ha; simpl; [|exact IH].
    apply Ascii.eqb_neq in Hne. rewrite Hne.
    destruct (partition c (filter_str q s)) as [h' t']. simpl in *.
    rewrite IH. reflexivity.
Qed.

End SplitFacts.

(** ** The shape of a URL that has a network location *)

Module UrlParseFacts.
Import PyStr PyStrFacts SplitFacts LowerFacts UrlParse.

Lemma scheme_char_facts (a : ascii) :
  scheme_char a = true ->
  Ascii.eqb a ":" = false /\ Ascii.eqb a "#" = false /\
  unsafe_url_byte a = false /\ netloc_delim a = false /\
  scheme_char (lower_char a) = true.
Proof.
  destruct a as [[] [] [] [] [] [] [] []]; vm_compute; intros; repeat split; congruence.
Qed.

Lemma is_alpha_facts (a : ascii) :
  is_alpha a = true ->
  c0_control_or_space a = false /\ is_alpha (lower_char a) = true.
Proof.
  destruct a as [[] [] [] [] [] [] [] []]; vm_compute; intros; repeat split; congruence.
Qed.

Lemma netloc_delim_facts (a : ascii) :
  netloc_delim a = true -> unsafe_url_byte a = false.
Proof.
  destruct a as [[] [] [] [] [] [] [] []]; vm_compute; intros; congruence.
Qed.

Lemma netloc_char_lower : lower_stable (fun c => negb (netloc_delim c) && negb (unsafe_url_byte c)).
Proof.
  intros a. destruct a as [[] [] [] [] [] [] [] []]; vm_compute; intros; congruence.
Qed.

Lemma valid_scheme_facts (s : string) :
  valid_scheme s = true ->
  s <> "" /\ has_char ":" s = false /\ has_char "#" s = false /\
  all_chars (fun c => negb (unsafe_url_byte c)) s = true /\
  lstrip c0_control_or_space s = s /\
  valid_scheme (lower s) = true.
Proof.
  destruct s as [|c0 s]; [discriminate|]. unfold valid_scheme.
  intros H. apply andb_true_iff in H as [Ha Hs].
  destruct (is_alpha_facts c0 Ha) as [Hc0 Hal].
  split; [discriminate|].
  split; [eapply has_char_all_chars; [exact Hs|reflexivity]|].
  split; [eapply has_char_all_chars; [exact Hs|reflexivity]|].
  split.
  { eapply all_chars_impl; [|exact Hs]. intros a Hsc.
    destruct (scheme_char_facts a Hsc) as (_ & _ & -> & _). reflexivity. }
  split; [apply lstrip_keep, Hc0|].
  change (lower (String c0 s)) with (String (lower_char c0) (lower s)).
  cbv iota. rewrite Hal.
  change (String (lower_char c0) (lower s)) with (lower (String c0 s)).
  rewrite andb_true_l. apply all_chars_lower; [|exact Hs].
  intros a Hsc. apply (scheme_char_facts a Hsc).
Qed.

(** What precedes the network location has no [#], and none of the removed
    characters *)
Lemma scheme_prefix_facts (pre : string) :
  scheme_prefix pre ->
  has_char "#" pre = false /\
  all_chars (fun c => negb (unsafe_url_byte c)) pre = true /\
  forall rest, lstrip c0_control_or_space (pre +:+ "//" +:+ rest)
               = pre +:+ "//" +:+ rest.
Proof.
  intros [->|(s & -> & Hs)]; [repeat split; reflexivity|].
  destruct (valid_scheme_facts s Hs) as (Hne & _ & Hh & Hsafe & Hl & _).
  rewrite has_char_app, all_chars_app, Hh, Hsafe.
  split; [reflexivity|]. split; [reflexivity|]. intros rest.
  destruct s as [|c0 s]; [congruence|]. rewrite !app_cons.
  unfold valid_scheme in Hs. apply andb_true_iff in Hs as [Ha _].
  apply lstrip_keep. apply (is_alpha_facts c0 Ha).
Qed.

Lemma split_scheme_scheme (d url sch url2 : string) :
  split_scheme d url = (sch, url2) -> sch = d \/ valid_scheme sch = true.
Proof.
  unfold split_scheme.
  destruct (partition ":" url) as [h [t|]].
  2:{ destruct h; intros E; injection E as <- <-; left; reflexivity. }
  destruct h as [|c0 h]; [intros E; injection E as <- <-; left; reflexivity|].
  destruct (is_alpha c0 && all_chars scheme_char (String c0 h)) eqn:Hv;
    intros E; injection E as <- <-; [right|left; reflexivity].
  apply (valid_scheme_facts (String c0 h) Hv).
Qed.

Lemma after_netloc_remove_unsafe (rest : string) :
  after_netloc rest = true -> after_netloc (remove_unsafe rest) = true.
Proof.
  destruct rest as [|a rest]; [reflexivity|]. simpl. intros Ha.
  unfold remove_unsafe. simpl. rewrite (netloc_delim_facts a Ha). exact Ha.
Qed.

(** The scheme block of [urlsplit] on a URL of that shape *)
Lemma split_scheme_shape (d pre rest : string) :
  scheme_prefix pre ->
  exists sch, split_scheme d (pre +:+ "//" +:+ rest) = (sch, "//" +:+ rest).
Proof.
  intros [->|(s & -> & Hs)].
  - exists d. rewrite app_nil_l. unfold split_scheme.
    change ("//" +:+ rest) with (String "/" (String "/" rest)). simpl.
    destruct (partition ":" rest) as [h [t|]]; reflexivity.
  - exists (lower s). unfold split_scheme.
    destruct (valid_scheme_facts s Hs) as (Hne & Hcolon & _).
    rewrite app_assoc, (partition_app ":" s _ Hcolon).
    change (":" +:+ "//" +:+ rest) with (String ":" ("//" +:+ rest)). simpl.
    rewrite app_nil_r.
    destruct s as [|c0 s]; [congruence|].
    unfold valid_scheme in Hs. simpl in Hs. rewrite Hs. reflexivity.
Qed.

(** Conversely: what the scheme block leaves is the URL without its scheme
    prefix *)
Lemma split_scheme_spec (d url sch url2 : string) :
  split_scheme d url = (sch, url2) ->
  exists pre, url = pre +:+ url2 /\ scheme_prefix pre.
Proof.
  unfold split_scheme.
  destruct (partition ":" url) as [h [t|]] eqn:Hp.
  2:{ destruct h; intros E; injection E as <- <-; exists "";
      (split; [reflexivity|left; reflexivity]). }
  destruct h as [|c0 h].
  { intros E. injection E as <- <-. exists "". split; [reflexivity|left; reflexivity]. }
  destruct (is_alpha c0 && all_chars scheme_char (String c0 h)) eqn:Hv.
  2:{ intros E. injection E as <- <-. exists "". split; [reflexivity|left; reflexivity]. }
  intros E. injection E as <- <-.
  destruct (partition_found _ _ _ _ Hp) as [-> _].
  exists (String c0 h +:+ ":"). split.
  - rewrite app_assoc. reflexivity.
  - right. exists (String c0 h). split; [reflexivity|exact Hv].
Qed.

Section WithHostCheck.
Context {hc : HostCheck}.

Lemma netloc_ok_spec (nl : string) :
  netloc_ok nl = true <->
  all_chars (fun a => negb (netloc_delim a)) nl = true /\
  all_chars (fun a => negb (unsafe_url_byte a)) nl = true /\
  brackets_ok nl = true.
Proof.
  unfold netloc_ok. rewrite andb_true_iff. split.
  - intros [Hc Hb]. split; [|split; [|exact Hb]].
    + eapply all_chars_impl; [|exact Hc]. intros a Ha.
      apply andb_true_iff in Ha as [Ha _]. exact Ha.
    + eapply all_chars_impl; [|exact Hc]. intros a Ha.
      apply andb_true_iff in Ha as [_ Ha]. exact Ha.
  - intros (Hd & Hs & Hb). split; [|exact Hb].
    clear Hb. induction nl as [|a nl IH]; [reflexivity|]. simpl in *.
    apply andb_true_iff in Hd as [-> Hd]. apply andb_true_iff in Hs as [-> Hs].
    rewrite (IH Hd Hs). reflexivity.
Qed.

(** The netloc block of [urlsplit] on a URL of that shape *)
Lemma split_netloc_shape (nl rest : string) :
  netloc_ok nl = true -> after_netloc rest = true ->
  split_netloc_checked ("//" +:+ nl +:+ rest) = Some (nl, rest).
Proof.
  intros Hnl Hrest. apply netloc_ok_spec in Hnl as (Hd & _ & Hb).
  unfold split_netloc_checked.
  change ("//" +:+ nl +:+ rest) with (String "/" (String "/" (nl +:+ rest))).
  cbn [Ascii.eqb Bool.eqb andb]. unfold splitnetloc.
  rewrite (break_app netloc_delim nl rest Hd)
    by (destruct rest; [reflexivity|exact Hrest]).
  unfold brackets_ok in Hb. cbv zeta in Hb.
  apply andb_true_iff in Hb as [Hb1 Hb2].
  apply negb_true_iff in Hb1, Hb2. rewrite Hb1, Hb2. reflexivity.
Qed.

Lemma split_netloc_spec (url nl rest : string) :
  split_netloc_checked url = Some (nl, rest) -> nl <> "" ->
  url = "//" +:+ nl +:+ rest /\
  all_chars (fun a => negb (netloc_delim a)) nl = true /\
  brackets_ok nl = true /\ after_netloc rest = true.
Proof.
  unfold split_netloc_checked.
  destruct url as [|a [|b r]]; try (intros E; injection E as <- <-; congruence).
  destruct (Ascii.eqb_spec a "/") as [->|Ha];
    [|intros E; injection E as <- <-; congruence].
  destruct (Ascii.eqb_spec b "/") as [->|Hb];
    [|intros E; injection E as <- <-; congruence].
  unfold splitnetloc. destruct (break netloc_delim r) as [h t] eqn:Hbr.
  destruct (break_spec _ _ _ _ Hbr) as (-> & Hd & Ht).
  change (true && true) with true. cbv iota.
  destruct (has_char "[" h && negb (has_char "]" h)
            || has_char "]" h && negb (has_char "[" h)) eqn:H1; [discriminate|].
  destruct (has_char "[" h && has_char "]" h && negb (check_bracketed_netloc h)) eqn:H2;
    [discriminate|].
  intros E. injection E as <- <-. intros _.
  split; [reflexivity|]. split; [exact Hd|]. split.
  - unfold brackets_ok. cbv zeta. rewrite H1, H2. reflexivity.
  - destruct t; [reflexivity|exact Ht].
Qed.

(** [urlsplit] finds the network location of every URL of that shape *)
Lemma urlsplit_of_shape (u d pre nl rest : string) :
  remove_unsafe (lstrip c0_control_or_space u) = pre +:+ "//" +:+ nl +:+ rest ->
  scheme_prefix pre -> netloc_ok nl = true -> after_netloc rest = true ->
  exists r, urlsplit u d = Some r /\ netloc r = nl.
Proof.
  intros Hu Hpre Hnl Hrest. unfold urlsplit. rewrite Hu.
  destruct (split_scheme_shape d pre (nl +:+ rest) Hpre) as [sch ->].
  rewrite (split_netloc_shape nl rest Hnl Hrest).
  destruct (partition "#" rest) as [url1 frag].
  destruct (partition "?" url1) as [url2 qry].
  eexists. split; reflexivity.
Qed.

(** and every URL in which it finds one has that shape *)
Lemma shape_of_urlsplit (u d : string) (r : ParseResult) :
  urlsplit u d = Some r -> netloc r <> "" ->
  exists pre rest,
    remove_unsafe (lstrip c0_control_or_space u) = pre +:+ "//" +:+ netloc r +:+ rest /\
    scheme_prefix pre /\ netloc_ok (netloc r) = true /\ after_netloc rest = true.
Proof.
  unfold urlsplit.
  pose proof (all_chars_filter (fun c => negb (unsafe_url_byte c))
                (lstrip c0_control_or_space u)) as Hsafe.
  fold (remove_unsafe (lstrip c0_control_or_space u)) in Hsafe.
  destruct (split_scheme d (remove_unsafe (lstrip c0_control_or_space u)))
    as [sch url2] eqn:Hs.
  destruct (split_scheme_spec _ _ _ _ Hs) as (pre & Hurl & Hpre).
  destruct (split_netloc_checked url2) as [[nl url3]|] eqn:Hn; [|discriminate].
  destruct (partition "#" url3) as [url4 frag].
  destruct (partition "?" url4) as [url5 qry].
  intros E. injection E as <-. simpl. intros Hne.
  destruct (split_netloc_spec _ _ _ Hn Hne) as (-> & Hd & Hb & Hrest).
  exists pre, url3. split; [exact Hurl|]. split; [exact Hpre|]. split; [|exact Hrest].
  apply netloc_ok_spec. split; [exact Hd|]. split; [|exact Hb].
  rewrite Hurl in Hsafe. rewrite !all_chars_app in Hsafe.
  apply andb_true_iff in Hsafe as [_ Hsafe].
  apply andb_true_iff in Hsafe as [_ Hsafe].
  apply andb_true_iff in Hsafe as [Hsafe _]. exact Hsafe.
Qed.

Lemma urlsplit_scheme (u : string) (r : ParseResult) :
  urlsplit u "" = Some r -> scheme r = "" \/ valid_scheme (scheme r) = true.
Proof.
  unfold urlsplit.
  destruct (split_scheme "" _) as [sch url2] eqn:Hs.
  destruct (split_netloc_checked url2) as [[nl url3]|]; [|discriminate].
  destruct (partition "#" url3) as [url4 frag].
  destruct (partition "?" url4) as [url5 qry].
  intros E. injection E as <-. simpl. apply (split_scheme_scheme _ _ _ _ Hs).
Qed.

(** [urlparse] adds the split of the parameters and keeps scheme and
    network location *)
Lemma urlparse_with_urlsplit (u d : string) :
  match urlsplit u d with
  | Some r => exists p, urlparse_with u d = Some p /\ netloc p = netloc r /\
                        scheme p = scheme r
  | None => urlparse_with u d = None
  end.
Proof.
  unfold urlparse_with. destruct (urlsplit u d) as [r|]; [|reflexivity].
  destruct (_ && _).
  - destruct (splitparams (path r)) as [p prm]. eexists. repeat split.
  - eexists. repeat split.
Qed.

(** *** Lower-casing a network location *)

Lemma check_bracketed_netloc_lower (nl : string) :
  case_insensitive hc ->
  check_bracketed_netloc nl = true -> check_bracketed_netloc (lower nl) = true.
Proof.
  intros Hci. unfold check_bracketed_netloc.
  rewrite (rpartition_tail_lower "@" nl eq_refl).
  set (hp := rpartition_tail "@" nl).
  rewrite (partition_lower "[" hp eq_refl), (partition_lower ":" hp eq_refl).
  destruct (partition "[" hp) as [before [bracketed|]];
    cbn -[startswith lower nonempty partition].
  - rewrite nonempty_lower. destruct (nonempty before); [discriminate|].
    rewrite (partition_lower "]" bracketed eq_refl).
    destruct (partition "]" bracketed) as [hostname port].
    cbn -[startswith lower nonempty partition].
    assert (Hport : default "" (lower <$> port) = lower (default "" port))
      by (destruct port; reflexivity).
    rewrite Hport, nonempty_lower, (startswith_char_lower ":" _ eq_refl).
    destruct (_ && _); [discriminate|]. apply Hci.
  - apply Hci.
Qed.

Lemma netloc_ok_lower (nl : string) :
  case_insensitive hc -> netloc_ok nl = true -> netloc_ok (lower nl) = true.
Proof.
  intros Hci. unfold netloc_ok. rewrite !andb_true_iff. intros [Hc Hb]. split.
  - apply all_chars_lower; [apply netloc_char_lower|exact Hc].
  - unfold brackets_ok in *. cbv zeta in *.
    rewrite (has_char_lower "[" nl eq_refl), (has_char_lower "]" nl eq_refl).
    apply andb_true_iff in Hb as [Hb1 Hb2]. rewrite Hb1. simpl.
    destruct (has_char "[" nl && has_char "]" nl); [|reflexivity]. simpl in *.
    apply negb_true_iff, negb_false_iff in Hb2.
    rewrite (check_bracketed_netloc_lower nl Hci Hb2). reflexivity.
Qed.

(** *** Cutting the fragment off *)

Lemma after_netloc_strip (rest : string) :
  after_netloc rest = true -> after_netloc (partition "#" rest).1 = true.
Proof.
  destruct rest as [|a rest]; [reflexivity|]. simpl.
  destruct (Ascii.eqb a "#"); [reflexivity|].
  destruct (partition "#" rest). simpl. auto.
Qed.

(** [u.split('#', 1)[0]] keeps the network location that [urlsplit] finds *)
Lemma urlsplit_strip_fragment (u d : string) (r : ParseResult) :
  urlsplit u d = Some r -> netloc r <> "" ->
  exists r', urlsplit (partition "#" u).1 d = Some r' /\ netloc r' = netloc r.
Proof.
  intros Hr Hne.
  destruct (shape_of_urlsplit u d r Hr Hne) as (pre & rest & Hu & Hpre & Hnl & Hrest).
  apply (urlsplit_of_shape _ d pre (netloc r) (partition "#" rest).1);
    [|exact Hpre|exact Hnl|apply after_netloc_strip, Hrest].
  unfold remove_unsafe in *.
  rewrite <- partition_lstrip by reflexivity.
  rewrite <- partition_filter by reflexivity.
  rewrite Hu.
  destruct (scheme_prefix_facts pre Hpre) as (Hh & _).
  apply netloc_ok_spec in Hnl as (Hd & _).
  assert (Hhn : has_char "#" (netloc r) = false)
    by (eapply has_char_all_chars; [exact Hd|reflexivity]).
  rewrite (partition_app "#" pre _ Hh). cbn [fst].
  rewrite (partition_app "#" "//" _ eq_refl). cbn [fst].
  rewrite (partition_app "#" (netloc r) _ Hhn). reflexivity.
Qed.

End WithHostCheck.
End UrlParseFacts.

(** ** The normalizer *)

Module NormalizerFacts.
Import PyStr UrlParse Normalizer PyStrFacts SplitFacts.

(** Every trailing slash goes: [rstrip('/')] is not limited to one *)
Lemma normalize_path_strips_all (q : string) (n : nat) :
  q <> "" -> endswith "/" q = false -> normalize_path (q +:+ slashes n) = q.
Proof.
  intros Hq He. unfold normalize_path.
  assert (Hne : nonempty (q +:+ slashes n) = true).
  { apply nonempty_true. destruct q; [congruence|discriminate]. }
  rewrite Hne.
  assert (Hroot : String.eqb (q +:+ slashes n) "/" = false).
  { apply String.eqb_neq. apply app_slashes_not_root; assumption. }
  rewrite Hroot. simpl negb. cbv iota. rewrite andb_true_l.
  destruct n as [|n].
  - change (slashes 0) with "". rewrite app_nil_r, He. reflexivity.
  - rewrite endswith_app_slashes, rstrip_app_slashes.
    apply rstrip_no_trailing_slash. exact He.
Qed.

Lemma normalize_path_empty : normalize_path "" = "/".
Proof. reflexivity. Qed.

Lemma normalize_path_root : normalize_path "/" = "/".
Proof. reflexivity. Qed.

Section WithHostCheck.
Context {hc : HostCheck}.

(** What both copies of [normalize_url] compute when the URL parses *)
Lemma products_normalize_url_parsed (u : string) (parsed : ParseResult) :
  u <> "" -> urlparse (strip_fragment u) = Some parsed -> netloc parsed <> "" ->
  Products.normalize_url u None = Some (reassemble parsed).
Proof.
  intros Hu Hp Hn. unfold Products.normalize_url.
  apply nonempty_true in Hu. rewrite Hu. simpl. rewrite Hp.
  unfold normalized_netloc.
  destruct (String.eqb_spec (lower (netloc parsed)) "") as [E|_]; [|reflexivity].
  exfalso. apply Hn. apply lower_empty. exact E.
Qed.

Lemma ai_normalize_url_parsed (u : string) (parsed : ParseResult) :
  u <> "" -> urlparse (strip_fragment u) = Some parsed ->
  AiCrawler.normalize_url u None = Ret (Some (reassemble parsed)).
Proof.
  intros Hu Hp. unfold AiCrawler.normalize_url.
  apply nonempty_true in Hu. rewrite Hu. simpl. rewrite Hp. reflexivity.
Qed.

(** The products copy answers [None] for every URL without a host, with or
    without a base *)
Lemma products_normalize_url_no_host (u : string) (base : option string)
    (resolved : string) (parsed : ParseResult) :
  resolve u base = Some resolved -> urlparse resolved = Some parsed ->
  netloc parsed = "" -> Products.normalize_url u base = None.
Proof.
  intros Hr Hp Hn. unfold Products.normalize_url.
  destruct (nonempty u); [|reflexivity]. simpl.
  rewrite Hr, Hp. unfold normalized_netloc. rewrite Hn. reflexivity.
Qed.

(** *** Parsing a normalized URL again *)

Lemma normalized_scheme_valid (parsed : ParseResult) :
  scheme parsed = "" \/ valid_scheme (scheme parsed) = true ->
  valid_scheme (normalized_scheme parsed) = true.
Proof.
  unfold normalized_scheme. intros [->|Hv]; [reflexivity|].
  destruct (UrlParseFacts.valid_scheme_facts _ Hv) as (Hne & _ & _ & _ & _ & Hl).
  apply nonempty_true in Hne. rewrite Hne. exact Hl.
Qed.

(** A normalized URL with a host is its scheme, [://], its host in lower
    case, and then nothing or something that starts with [/] or [?] *)
Lemma reassemble_shape (parsed : ParseResult) :
  netloc parsed <> "" -> valid_scheme (normalized_scheme parsed) = true ->
  exists rest,
    reassemble parsed
    = (normalized_scheme parsed +:+ ":") +:+ "//" +:+ normalized_netloc parsed +:+ rest /\
    after_netloc rest = true.
Proof.
  intros Hn Hs. unfold reassemble, urlunparse, urlunsplit.
  assert (Hnl : nonempty (normalized_netloc parsed) = true).
  { apply nonempty_true. unfold normalized_netloc. intros E. apply Hn.
    apply lower_empty. exact E. }
  assert (Hsch : nonempty (normalized_scheme parsed) = true).
  { apply nonempty_true. apply (UrlParseFacts.valid_scheme_facts _ Hs). }
  change (nonempty "") with false. cbv iota. rewrite Hnl, Hsch. simpl orb. cbv iota.
  set (p := normalize_path (path parsed)).
  set (p' := if nonempty p && negb (startswith "/" p) then "/" +:+ p else p).
  assert (Hp' : p' = "" \/ exists t, p' = String "/" t).
  { subst p'. destruct p as [|a t]; [left; reflexivity|]. right.
    change (nonempty (String a t)) with true.
    rewrite startswith_char, andb_true_l.
    destruct (Ascii.eqb_spec "/" a) as [<-|Ha].
    - exists t. reflexivity.
    - exists (String a t). reflexivity. }
  destruct (nonempty (normalize_query (query parsed))).
  - exists (p' +:+ "?" +:+ normalize_query (query parsed)). split.
    + rewrite !app_assoc. reflexivity.
    + destruct Hp' as [->|[t ->]]; reflexivity.
  - exists p'. split.
    + rewrite !app_assoc. reflexivity.
    + destruct Hp' as [->|[t ->]]; reflexivity.
Qed.

(** Parsing a normalized URL gives back its host, in lower case *)
Lemma urlparse_reassemble (u : string) (parsed : ParseResult) :
  case_insensitive hc ->
  urlparse u = Some parsed -> netloc parsed <> "" ->
  exists p', urlparse (reassemble parsed) = Some p' /\
             netloc p' = lower (netloc parsed).
Proof.
  intros Hci Hp Hn. unfold urlparse in *.
  pose proof (UrlParseFacts.urlparse_with_urlsplit u "") as Hu.
  destruct (urlsplit u "") as [r|] eqn:Hr; [|congruence].
  destruct Hu as (p0 & Hp0 & Hnl0 & Hs0). rewrite Hp in Hp0. injection Hp0 as <-.
  rewrite Hnl0 in Hn.
  destruct (UrlParseFacts.shape_of_urlsplit u "" r Hr Hn) as (_ & _ & _ & _ & Hok & _).
  pose proof (UrlParseFacts.urlsplit_scheme u r Hr) as Hsch. rewrite <- Hs0 in Hsch.
  apply normalized_scheme_valid in Hsch.
  rewrite <- Hnl0 in Hn, Hok.
  destruct (reassemble_shape parsed Hn Hsch) as (rest & Hshape & Hrest).
  assert (Hpre : scheme_prefix (normalized_scheme parsed +:+ ":"))
    by (right; eexists; split; [reflexivity|exact Hsch]).
  destruct (UrlParseFacts.scheme_prefix_facts _ Hpre) as (_ & Hsafe & Hl).
  pose proof (UrlParseFacts.netloc_ok_lower _ Hci Hok) as Hok'.
  destruct (UrlParseFacts.urlsplit_of_shape (reassemble parsed) ""
              (normalized_scheme parsed +:+ ":") (lower (netloc parsed))
              (remove_unsafe rest)) as (r' & Hr' & Hnl');
    [|exact Hpre|exact Hok'|apply UrlParseFacts.after_netloc_remove_unsafe, Hrest|].
  { rewrite Hshape. unfold normalized_netloc. rewrite Hl. unfold remove_unsafe.
    apply UrlParseFacts.netloc_ok_spec in Hok' as (_ & Hsafe' & _).
    rewrite (filter_str_app _ (_ +:+ ":")), (filter_str_app _ "//"),
      (filter_str_app _ (lower _)).
    rewrite (filter_str_all _ _ Hsafe), (filter_str_all _ _ Hsafe'). reflexivity. }
  pose proof (UrlParseFacts.urlparse_with_urlsplit (reassemble parsed) "") as Hu'.
  rewrite Hr' in Hu'. destruct Hu' as (p' & Hp' & Hn' & _).
  exists p'. split; [exact Hp'|]. rewrite Hn'. exact Hnl'.
Qed.

Lemma urlparse_strip_fragment (u : string) (parsed : ParseResult) :
  urlparse u = Some parsed -> netloc parsed <> "" ->
  exists p', urlparse (strip_fragment u) = Some p' /\ netloc p' = netloc parsed.
Proof.
  intros Hp Hn. unfold urlparse, strip_fragment in *.
  pose proof (UrlParseFacts.urlparse_with_urlsplit u "") as Hu.
  destruct (urlsplit u "") as [r|] eqn:Hr; [|congruence].
  destruct Hu as (p0 & Hp0 & Hnl0 & _). rewrite Hp in Hp0. injection Hp0 as <-.
  rewrite Hnl0 in Hn.
  destruct (UrlParseFacts.urlsplit_strip_fragment u "" r Hr Hn) as (r' & Hr' & Hn').
  pose proof (UrlParseFacts.urlparse_with_urlsplit (partition "#" u).1 "") as Hu'.
  rewrite Hr' in Hu'. destruct Hu' as (p' & Hp' & Hnp' & _).
  exists p'. split; [exact Hp'|]. congruence.
Qed.

(** Every URL returned by the products copy of [normalize_url] parses again,
    to a host without upper-case letter *)
Lemma products_normalize_url_lower_host (u : string) (base : option string)
    (n : string) :
  case_insensitive hc ->
  Products.normalize_url u base = Some n ->
  exists nl, netloc <$> urlparse n = Some nl /\ has_upper nl = false.
Proof.
  intros Hci. unfold Products.normalize_url.
  destruct (nonempty u); [|discriminate]. simpl.
  destruct (resolve u base) as [resolved|]; [|discriminate].
  destruct (urlparse resolved) as [parsed|] eqn:Hp; [|discriminate].
  destruct (String.eqb_spec (normalized_netloc parsed) "") as [|Hne]; [discriminate|].
  intros E. injection E as <-.
  assert (Hn : netloc parsed <> "").
  { intros E. apply Hne. unfold normalized_netloc. rewrite E. reflexivity. }
  destruct (urlparse_reassemble resolved parsed Hci Hp Hn) as (p' & -> & Hn').
  exists (lower (netloc parsed)). simpl. rewrite Hn'.
  split; [reflexivity|apply LowerFacts.has_upper_lower].
Qed.

(** A start URL whose host has an upper-case letter is normalized, by both
    copies, to a URL that parses to another host than the start host *)
Lemma normalize_url_upper_host (start_url : string) (parsed : ParseResult) :
  case_insensitive hc ->
  urlparse start_url = Some parsed -> has_upper (netloc parsed) = true ->
  exists n nl,
    Products.normalize_url start_url None = Some n /\
    AiCrawler.normalize_url start_url None = Ret (Some n) /\
    netloc <$> urlparse n = Some nl /\ nl <> netloc parsed.
Proof.
  intros Hci Hp Hup.
  assert (Hn : netloc parsed <> "") by (intros E; rewrite E in Hup; discriminate).
  assert (Hu : start_url <> "").
  { intros ->. vm_compute in Hp. injection Hp as <-. apply Hn. reflexivity. }
  destruct (urlparse_strip_fragment start_url parsed Hp Hn) as (p1 & Hp1 & Hn1).
  assert (Hn1' : netloc p1 <> "") by congruence.
  destruct (urlparse_reassemble _ p1 Hci Hp1 Hn1') as (p2 & Hp2 & Hn2).
  exists (reassemble p1), (lower (netloc parsed)).
  split; [apply (products_normalize_url_parsed _ _ Hu Hp1 Hn1')|].
  split; [apply (ai_normalize_url_parsed _ _ Hu Hp1)|].
  rewrite Hp2. simpl. rewrite Hn2, Hn1. split; [reflexivity|].
  intros E. rewrite <- E, LowerFacts.has_upper_lower in Hup. discriminate.
Qed.

End WithHostCheck.
End NormalizerFacts.

Module NormalizerClaims.
Import PyStr UrlParse Normalizer PyStrFacts NormalizerFacts.

(** C3.  [normalize_url] is not idempotent through the query step:
    [parse_qsl] decodes [%2B] to [+], the pair is rejoined as [a=+] without
    being encoded again, and a second pass reads that [+] as a space.  The two
    passes on ["http://x.com/?a=%2B"] give different strings, in both crawler
    variants; a path made of slashes only shows the same through the path
    rule, where the first pass leaves no path and the second puts ["/"] back. *)
Theorem normalize_url_not_idempotent :
  Products.normalize_url (hc := no_bracketed_hosts) "http://x.com/?a=%2B" None
    = Some "http://x.com/?a=+" /\
  Products.normalize_url (hc := no_bracketed_hosts) "http://x.com/?a=+" None
    = Some "http://x.com/?a= " /\
  AiCrawler.normalize_url (hc := no_bracketed_hosts) "http://x.com/?a=%2B" None
    = Ret (Some "http://x.com/?a=+") /\
  AiCrawler.normalize_url (hc := no_bracketed_hosts) "http://x.com/?a=+" None
    = Ret (Some "http://x.com/?a= ") /\
  Products.normalize_url (hc := no_bracketed_hosts) "http://x.com//" None
    = Some "http://x.com" /\
  Products.normalize_url (hc := no_bracketed_hosts) "http://x.com" None
    = Some "http://x.com/".
Proof. repeat split; vm_compute; reflexivity. Qed.

(** C4.  The copy of [normalize_url] in [ai_crawler.py] has no test on the
    host: for ["mailto:a@b.c"], whose parse has an empty netloc, it returns
    the string instead of [None] (and a relative URL without a base comes
    back as ["http:///about"]). The copy in
    [python_web_crawler_products.py] returns [None] on both. *)
Theorem ai_normalize_url_returns_hostless :
  netloc <$> urlparse (hc := no_bracketed_hosts) "mailto:a@b.c" = Some "" /\
  AiCrawler.normalize_url (hc := no_bracketed_hosts) "mailto:a@b.c" None
    = Ret (Some "mailto:a@b.c") /\
  netloc <$> urlparse (hc := no_bracketed_hosts) "/about" = Some "" /\
  AiCrawler.normalize_url (hc := no_bracketed_hosts) "/about" None
    = Ret (Some "http:///about") /\
  Products.normalize_url (hc := no_bracketed_hosts) "mailto:a@b.c" None = None /\
  Products.normalize_url (hc := no_bracketed_hosts) "/about" None = None.
Proof. repeat split; vm_compute; reflexivity. Qed.

(** C5, as the claim states it, fails: the path ["/foo//"] does not lose one
    slash only (which would leave ["/foo/"]), it loses both. *)
Lemma normalize_url_strips_more_than_one_slash :
  normalize_path "/foo//" = "/foo" /\
  Products.normalize_url (hc := no_bracketed_hosts) "http://x.com/foo//" None
    = Some "http://x.com/foo" /\
  Products.normalize_url (hc := no_bracketed_hosts) "http://x.com/foo//" None
    <> Some "http://x.com/foo/" /\
  AiCrawler.normalize_url (hc := no_bracketed_hosts) "http://x.com/foo//" None
    <> Ret (Some "http://x.com/foo/").
Proof. repeat split; vm_compute; congruence. Qed.

Section WithHostCheck.
Context {hc : HostCheck}.

(** C5 (amended).  For every URL with a host, in both copies of
    [normalize_url]: an empty parsed path becomes ["/"]; the path ["/"]
    stays; and a path [q] followed by any number of slashes, where [q] is not
    empty and does not end with a slash, becomes [q]: every trailing slash is
    removed, not one.  So ["http://x.com/a/"] and ["http://x.com/a"]
    normalize identically, and ["http://x.com/"] stays. *)
Theorem normalize_url_trailing_slashes (u : string) (parsed : ParseResult) :
  u <> "" -> urlparse (strip_fragment u) = Some parsed -> netloc parsed <> "" ->
  (path parsed = "" \/ path parsed = "/" ->
     Products.normalize_url u None = Some (rebuilt parsed "/") /\
     AiCrawler.normalize_url u None = Ret (Some (rebuilt parsed "/"))) /\
  (forall (q : string) (n : nat),
     path parsed = q +:+ slashes n -> q <> "" -> endswith "/" q = false ->
     Products.normalize_url u None = Some (rebuilt parsed q) /\
     AiCrawler.normalize_url u None = Ret (Some (rebuilt parsed q))) /\
  Products.normalize_url "http://x.com/a/" None
    = Products.normalize_url "http://x.com/a" None /\
  AiCrawler.normalize_url "http://x.com/a/" None
    = AiCrawler.normalize_url "http://x.com/a" None /\
  Products.normalize_url "http://x.com/" None = Some "http://x.com/" /\
  AiCrawler.normalize_url "http://x.com/" None = Ret (Some "http://x.com/").
Proof.
  intros Hu Hp Hn.
  rewrite (products_normalize_url_parsed u parsed Hu Hp Hn).
  rewrite (ai_normalize_url_parsed u parsed Hu Hp).
  unfold reassemble, rebuilt.
  split; [|split].
  - intros [E|E]; rewrite E; split; reflexivity.
  - intros q n E Hq He. rewrite E, (normalize_path_strips_all q n Hq He).
    split; reflexivity.
  - repeat split; vm_compute; reflexivity.
Qed.

End WithHostCheck.

Lemma normalize_url_trailing_slashes_witness :
  "http://x.com/foo//" <> "" /\
  urlparse (hc := no_bracketed_hosts) (strip_fragment "http://x.com/foo//")
    = Some (mkParseResult "http" "x.com" "/foo//" "" "" "") /\
  "x.com" <> "" /\
  Products.normalize_url (hc := no_bracketed_hosts) "http://x.com/foo//" None
    = Some "http://x.com/foo" /\
  AiCrawler.normalize_url (hc := no_bracketed_hosts) "http://x.com/foo//" None
    = Ret (Some "http://x.com/foo").
Proof.
  assert (H1 : "http://x.com/foo//" <> "") by discriminate.
  assert (H2 : urlparse (hc := no_bracketed_hosts) (strip_fragment "http://x.com/foo//")
               = Some (mkParseResult "http" "x.com" "/foo//" "" "" ""))
    by (vm_compute; reflexivity).
  assert (H3 : "x.com" <> "") by discriminate.
  split; [exact H1|]. split; [exact H2|]. split; [exact H3|].
  exact (proj1 (proj2 (normalize_url_trailing_slashes (hc := no_bracketed_hosts)
                         "http://x.com/foo//" _ H1 H2 H3))
               "/foo" 2 eq_refl ltac:(discriminate) eq_refl).
Defined.

End NormalizerClaims.

(** ** Sitemap resolution *)

Module SitemapFacts.
Import PyStr Xml SitemapExamples.

(** The resolver of [python_web_crawler_products.py] on the index that lists
    itself: whatever the depth allowed, it has fetched the same URL once per
    level and has not returned. *)
Lemma fetch_sitemap_urls_self (fuel : nat) (fetched : list string) :
  ProductsSitemap.fetch_sitemap_urls fuel self_web self_url fetched
  = (None, fetched ++ replicate fuel self_url).
Proof.
  revert fetched. induction fuel as [|fuel IH]; intros fetched.
  - simpl. rewrite app_nil_r. reflexivity.
  - cbn [ProductsSitemap.fetch_sitemap_urls].
    change (self_web self_url) with (Some self_index). cbv iota beta.
    replace (endswith "sitemapindex" (lower (tag self_index))) with true
      by (vm_compute; reflexivity).
    replace (ProductsSitemap.locs_of (findall_any_ns "sitemap" self_index))
      with [self_url] by (vm_compute; reflexivity).
    rewrite IH. rewrite <- app_assoc. reflexivity.
Qed.

(** *** [parse_sitemap] ends on every finite sitemap graph *)

Section ParseSitemap.
Import RobotsCrawler.
Variable web : sitemap_web.
Variable known : gset string.
Hypothesis web_finite : forall u, web u <> None -> u ∈ known.

Lemma log_ok_visit (w : walk) (u : string) :
  log_ok w -> u ∉ seen w ->
  log_ok (mkWalk ({[u]} ∪ seen w) (fetched w ++ [u])).
Proof.
  intros [Hnd Hin] Hu. split; simpl.
  - apply NoDup_app. split; [exact Hnd|]. split.
    + intros x Hx Hx'. apply list_elem_of_singleton in Hx'. subst x.
      apply Hu, Hin, Hx.
    + apply NoDup_singleton.
  - intros x Hx. apply elem_of_app in Hx as [Hx|Hx].
    + apply elem_of_union_r, Hin, Hx.
    + apply list_elem_of_singleton in Hx. subst x. set_solver.
Qed.

Lemma parse_sitemap_returns (fuel : nat) :
  forall (url : string) (w : walk),
    size (known ∖ seen w) < fuel -> log_ok w ->
    exists urls w',
      parse_sitemap fuel web url w = Some (urls, w') /\
      seen w ⊆ seen w' /\ log_ok w'.
Proof.
  induction fuel as [|fuel IH]; intros url w Hsize Hlog; [lia|].
  cbn [parse_sitemap].
  destruct (bool_decide (url ∈ seen w)) eqn:Hseen.
  { exists [], w. split; [reflexivity|]. split; [set_solver|exact Hlog]. }
  apply bool_decide_eq_false in Hseen.
  pose proof (log_ok_visit w url Hlog Hseen) as Hlog1.
  set (w1 := mkWalk ({[url]} ∪ seen w) (fetched w ++ [url])) in *.
  assert (Hsub1 : seen w ⊆ seen w1) by (subst w1; simpl; set_solver).
  destruct (web url) as [root|] eqn:Hweb.
  2:{ exists [], w1. split; [reflexivity|]. split; [exact Hsub1|exact Hlog1]. }
  assert (Hknown : url ∈ known) by (apply web_finite; rewrite Hweb; discriminate).
  assert (Hless : size (known ∖ seen w1) < size (known ∖ seen w)).
  { apply subset_size. subst w1. simpl. set_solver. }
  match goal with
  | |- exists urls w', ?loop ?l ?u w1 = _ /\ _ =>
      enough (Hloop : forall locs urls wk,
                 seen w1 ⊆ seen wk -> log_ok wk ->
                 exists urls' w', loop locs urls wk = Some (urls', w') /\
                                  seen wk ⊆ seen w' /\ log_ok w')
  end.
  { destruct (Hloop (stripped_texts (findall_path sm_ns "sitemap" "loc" root))
                    (stripped_texts (findall_path sm_ns "url" "loc" root)) w1)
      as (us & w' & Hrun & Hsub & Hlog'); [set_solver|exact Hlog1|].
    exists us, w'. split; [exact Hrun|]. split; [set_solver|exact Hlog']. }
  induction locs as [|nested rest IHl]; intros urls wk Hinv Hlogk.
  - exists urls, wk. split; [reflexivity|]. split; [set_solver|exact Hlogk].
  - assert (Hk : size (known ∖ seen wk) < fuel).
    { assert (size (known ∖ seen wk) <= size (known ∖ seen w1))
        by (apply subseteq_size; set_solver). lia. }
    destruct (IH nested wk Hk Hlogk) as (more & w' & Hcall & Hsub & Hlog').
    rewrite Hcall.
    destruct (IHl (urls ++ more) w' ltac:(set_solver) Hlog')
      as (us & w'' & Hrest & Hsub' & Hlog'').
    exists us, w''. split; [exact Hrest|]. split; [set_solver|exact Hlog''].
Qed.

(** [parse_sitemap] returns on every sitemap graph with finitely many
    documents, and has then requested no URL twice. *)
Lemma parse_sitemap_terminates_once (url : string) :
  exists urls w',
    parse_sitemap (S (size known)) web url (mkWalk ∅ []) = Some (urls, w') /\
    NoDup (fetched w').
Proof.
  destruct (parse_sitemap_returns (S (size known)) url (mkWalk ∅ []))
    as (urls & w' & Hcall & _ & Hnd & _).
  - simpl. assert (size (known ∖ ∅) <= size known) by (apply subseteq_size; set_solver). lia.
  - split; simpl; [apply NoDup_nil_2|]. intros x Hx. apply elem_of_nil in Hx. contradiction.
  - exists urls, w'. split; [exact Hcall|exact Hnd].
Qed.

End ParseSitemap.

(** C9.  [fetch_sitemap_urls] keeps no record of the sitemaps it has
    processed.  On a sitemap index that lists itself it requests the same URL
    once per level of recursion and never returns, whatever depth is allowed;
    on an index that lists one child twice it returns, having requested the
    child twice.  [parse_sitemap], with its [seen] set, requests each URL
    once on both. *)
Theorem fetch_sitemap_urls_refetches (fuel : nat) :
  ProductsSitemap.fetch_sitemap_urls fuel self_web self_url []
    = (None, replicate fuel self_url) /\
  ProductsSitemap.fetch_sitemap_urls 3 twice_web "http://x.com/sitemap.xml" []
    = (Some ["http://x.com/a"; "http://x.com/a"],
       ["http://x.com/sitemap.xml"; "http://x.com/s1.xml"; "http://x.com/s1.xml"]) /\
  (fun r => (r.1, RobotsCrawler.fetched r.2))
     <$> RobotsCrawler.parse_sitemap 2 self_web self_url (RobotsCrawler.mkWalk ∅ [])
    = Some ([], [self_url]) /\
  (fun r => (r.1, RobotsCrawler.fetched r.2))
     <$> RobotsCrawler.parse_sitemap 3 twice_web "http://x.com/sitemap.xml"
           (RobotsCrawler.mkWalk ∅ [])
    = Some (["http://x.com/a"], ["http://x.com/sitemap.xml"; "http://x.com/s1.xml"]).
Proof.
  split; [apply (fetch_sitemap_urls_self fuel [])|].
  repeat split; vm_compute; reflexivity.
Qed.

(** The scenario of an index with two children of three pages each: both
    resolvers return the six entries. *)
Example sitemap_expansion_scenario :
  (ProductsSitemap.fetch_sitemap_urls 2 two_children_web "http://x.com/sitemap.xml" []).1
    = Some ["http://x.com/a"; "http://x.com/b"; "http://x.com/c";
            "http://x.com/c"; "http://x.com/d"; "http://x.com/e"] /\
  fst <$> RobotsCrawler.parse_sitemap 2 two_children_web "http://x.com/sitemap.xml"
            (RobotsCrawler.mkWalk ∅ [])
    = Some ["http://x.com/a"; "http://x.com/b"; "http://x.com/c";
            "http://x.com/c"; "http://x.com/d"; "http://x.com/e"].
Proof. split; vm_compute; reflexivity. Qed.

End SitemapFacts.

(** ** The politeness delay of [KeywordCrawler] *)

Module KeywordCrawlerFacts.
Import PyStr KeywordCrawler.



Section WithHostCheck.
Context {hc : HostCheck}.




End WithHostCheck.



End KeywordCrawlerFacts.

(** ** The render fetch *)

Module PlaywrightFacts.
Import Playwright PlaywrightExamples.












(** A page that loads is returned with its content and candidates, and is
    closed. *)
Example fetch_with_playwright_success :
  fetch_with_playwright 5 (fun _ => []) plain_page
    = mkRun (Returned (Some "<html></html>") ["/about"]) [NewPage; Goto; Content; Close].
Proof. vm_compute. reflexivity. Qed.

End PlaywrightFacts.

(** ** The frontier and the worker pool *)

Module CrawlFacts.
Import PyStr Crawl.

(** Replacing the state of one worker replaces its share of the URLs in
    flight and leaves the share of the others *)
Lemma workers_insert (ws : list wstate) (i : nat) (old : wstate) :
  ws !! i = Some old ->
  exists R R',
    (forall u, u ∈ R' -> u ∈ R) /\
    length R < length ws /\
    flat_map inflight_url ws ≡ₚ inflight_url old ++ R /\
    flat_map render_url ws ≡ₚ render_url old ++ R' /\
    forall new,
      flat_map inflight_url (<[i := new]> ws) ≡ₚ inflight_url new ++ R /\
      flat_map render_url (<[i := new]> ws) ≡ₚ render_url new ++ R'.
Proof.
  intros Hl.
  exists (flat_map inflight_url (take i ws) ++ flat_map inflight_url (drop (S i) ws)).
  exists (flat_map render_url (take i ws) ++ flat_map render_url (drop (S i) ws)).
  assert (Hsub : forall l u, u ∈ flat_map render_url l -> u ∈ flat_map inflight_url l).
  { intros l u. rewrite !list_elem_of_In, !in_flat_map.
    intros (x & Hx & Hu). exists x. split; [exact Hx|].
    destruct x; simpl in *; tauto. }
  assert (Hlen : forall l, length (flat_map inflight_url l) <= length l).
  { induction l as [|x l IH]; simpl; [lia|]. rewrite length_app.
    destruct x; simpl; lia. }
  split; [|split; [|split; [|split]]].
  - intros u. rewrite !elem_of_app. intros [Hu|Hu]; [left|right]; apply Hsub, Hu.
  - rewrite length_app.
    pose proof (Hlen (take i ws)). pose proof (Hlen (drop (S i) ws)).
    pose proof (lookup_lt_Some _ _ _ Hl). rewrite length_take, length_drop in *. lia.
  - rewrite <- (take_drop_middle ws i old Hl) at 1.
    rewrite flat_map_app. simpl. rewrite Permutation_app_swap_app. reflexivity.
  - rewrite <- (take_drop_middle ws i old Hl) at 1.
    rewrite flat_map_app. simpl. rewrite Permutation_app_swap_app. reflexivity.
  - intros new. rewrite insert_take_drop by (eapply lookup_lt_Some; eauto).
    rewrite !flat_map_app. simpl.
    split; rewrite Permutation_app_swap_app; reflexivity.
Qed.

Lemma inflight_replicate_ready (n : nat) :
  flat_map inflight_url (replicate n Ready) = [] /\
  flat_map render_url (replicate n Ready) = [].
Proof. induction n as [|n [IH1 IH2]]; simpl; auto. Qed.

Section WithHostCheck.
Context {hc : HostCheck}.

(** What one pass of the loop head does: it pops a prefix of the queue,
    adds some of the popped URLs to [visited], and stops either at a URL of
    the start host that robots.txt does not block, or at the end of the
    loop. *)
Lemma loop_head_spec (cfg : config) (q : list (option string)) :
  forall (visited : gset string) (log : list string) q' visited' log' out,
    loop_head cfg q visited log = (q', visited', log', out) ->
    exists skipped,
      log' = log ++ skipped /\
      visited' = list_to_set skipped ∪ visited /\
      match out with
      | StartFetch url =>
          fmap Some skipped ++ Some url :: q' ⊆+ q /\
          blocked_by_robots cfg url = false /\
          netloc_of url = Some (base_host cfg)
      | _ => fmap Some skipped ++ q' ⊆+ q
      end.
Proof.
  induction q as [|x q IH]; intros visited log q' visited' log' out Hrun.
  - simpl in Hrun. injection Hrun as <- <- <- <-.
    exists []. rewrite app_nil_r. split; [reflexivity|]. split; [set_solver|]. reflexivity.
  - simpl in Hrun.
    assert (Hskip : forall v l,
               loop_head cfg q v l = (q', visited', log', out) ->
               forall sk0, l = log ++ sk0 -> v = list_to_set sk0 ∪ visited ->
               (fmap Some sk0 ⊆+ [x]) ->
               exists skipped,
                 log' = log ++ skipped /\ visited' = list_to_set skipped ∪ visited /\
                 match out with
                 | StartFetch url =>
                     fmap Some skipped ++ Some url :: q' ⊆+ x :: q /\
                     blocked_by_robots cfg url = false /\
                     netloc_of url = Some (base_host cfg)
                 | _ => fmap Some skipped ++ q' ⊆+ x :: q
                 end).
    { clear Hrun. intros v l Hl sk0 -> -> Hsk0.
      destruct (IH _ _ _ _ _ _ Hl) as (sk & -> & -> & Hout).
      exists (sk0 ++ sk). split; [symmetry; apply app_assoc|].
      split; [rewrite list_to_set_app_L; set_solver|].
      change (x :: q) with ([x] ++ q).
      destruct out as [url| |e]; rewrite fmap_app, <- app_assoc.
      - destruct Hout as (Hsub & Hb & Hn). split; [|split; assumption].
        apply submseteq_app; assumption.
      - apply submseteq_app; assumption.
      - apply submseteq_app; assumption. }
    destruct (size visited <? max_pages cfg).
    2:{ injection Hrun as <- <- <- <-. exists []. rewrite app_nil_r.
        split; [reflexivity|]. split; [set_solver|]. reflexivity. }
    destruct x as [url|].
    2:{ apply (Hskip _ _ Hrun []); [symmetry; apply app_nil_r|set_solver|].
        apply submseteq_nil_l. }
    destruct (negb (nonempty url)).
    { apply (Hskip _ _ Hrun []); [symmetry; apply app_nil_r|set_solver|].
      apply submseteq_nil_l. }
    destruct (bool_decide (url ∈ visited)).
    { apply (Hskip _ _ Hrun []); [symmetry; apply app_nil_r|set_solver|].
      apply submseteq_nil_l. }
    destruct (netloc_of url) as [nl|] eqn:Hnl.
    2:{ injection Hrun as <- <- <- <-. exists []. rewrite app_nil_r.
        split; [reflexivity|]. split; [set_solver|]. simpl. apply submseteq_cons.
        reflexivity. }
    destruct (String.eqb_spec nl (base_host cfg)) as [->|Hne]; simpl in Hrun.
    2:{ apply (Hskip _ _ Hrun [url]); [reflexivity|simpl; set_solver|reflexivity]. }
    destruct (blocked_by_robots cfg url) eqn:Hb.
    { apply (Hskip _ _ Hrun [url]); [reflexivity|simpl; set_solver|reflexivity]. }
    injection Hrun as <- <- <- <-. exists []. rewrite app_nil_r.
    split; [reflexivity|]. split; [set_solver|]. simpl. auto.
Qed.

(** What the loop that feeds the frontier does: it appends to the queue,
    without repetition, links that were not yet in the discovered set, and
    adds them to it. *)
Lemma enqueue_spec (cfg : config) (links : list string) :
  forall (q : list (option string)) (disc : gset (option string)) q' disc' err,
    enqueue cfg links q disc = (q', disc', err) ->
    exists added,
      q' = q ++ fmap Some added /\
      disc' = list_to_set (fmap Some added) ∪ disc /\
      NoDup added /\
      forall l, l ∈ added -> Some l ∉ disc.
Proof.
  induction links as [|l links IH]; intros q disc q' disc' err Hrun; simpl in Hrun.
  - injection Hrun as <- <- <-. exists []. simpl. rewrite app_nil_r.
    split; [reflexivity|]. split; [set_solver|]. split; [constructor|].
    intros l Hl. apply elem_of_nil in Hl. contradiction.
  - destruct (negb (nonempty l)); [eapply IH; eauto|].
    destruct (skipped_extension cfg l); [eapply IH; eauto|].
    destruct (netloc_of l) as [nl|].
    2:{ injection Hrun as <- <- <-. exists []. simpl. rewrite app_nil_r.
        split; [reflexivity|]. split; [set_solver|]. split; [constructor|].
        intros l' Hl. apply elem_of_nil in Hl. contradiction. }
    destruct (String.eqb nl (base_host cfg) && negb (bool_decide (Some l ∈ disc))) eqn:Hc;
      [|eapply IH; eauto].
    apply andb_true_iff in Hc as [_ Hc]. apply negb_true_iff in Hc.
    apply bool_decide_eq_false in Hc.
    destruct (IH _ _ _ _ _ Hrun) as (added & -> & -> & Hnd & Hfresh).
    exists (l :: added). simpl. rewrite <- app_assoc. simpl.
    split; [reflexivity|]. split; [set_solver|]. split.
    + constructor; [|exact Hnd]. intros Hin. apply (Hfresh l Hin). set_solver.
    + intros l' Hl'. apply elem_of_cons in Hl' as [->|Hl']; [exact Hc|].
      intros Hin. apply (Hfresh l' Hl'). set_solver.
Qed.

Ltac unfold_elems :=
  repeat (rewrite ?fmap_app, ?fmap_cons, ?elem_of_app, ?elem_of_cons).

Lemma submseteq_NoDup {A} (l k : list A) : l ⊆+ k -> NoDup k -> NoDup l.
Proof.
  induction 1 as [|x l k Hlk IH|x y l|x l k Hlk IH|l1 l2 l3 _ IH1 _ IH2]; intros Hk.
  - constructor.
  - apply NoDup_cons in Hk as [Hx Hk]. apply NoDup_cons. split; [|auto].
    intros Hin. apply Hx. eapply elem_of_submseteq; eauto.
  - rewrite (Permutation_swap x y l). exact Hk.
  - apply NoDup_cons in Hk as [_ Hk]. auto.
  - auto.
Qed.

(** From the loop head to the next [await] *)
Lemma resume_ok (cfg : config) (st : state) (w : nat) (ws : wstate) :
  workers st !! w = Some ws -> inflight_url ws = [] ->
  logs_ok cfg st -> frontier_ok st ->
  logs_ok cfg (resume cfg st w) /\ frontier_ok (resume cfg st w).
Proof.
  intros Hw Hidle [Lp Lr Lv Lvis Lal Lrp] [Fnd Fdisc Fpl Frd Fin].
  destruct (workers_insert _ _ _ Hw) as (R & R' & HR & HRlen & HI & HRd & Hnew).
  assert (Hrd0 : render_url ws = []) by (destruct ws; simpl in *; congruence).
  rewrite Hidle in HI. rewrite Hrd0 in HRd. simpl in HI, HRd.
  unfold resume.
  destruct (loop_head cfg (q st) (visited st) (visit_log st)) as [[[q' v'] log'] out] eqn:Hlh.
  destruct (loop_head_spec _ _ _ _ _ _ _ _ Hlh) as (sk & -> & -> & Hout).
  unfold inflight, rendering in *.
  assert (Hbase : forall front, front ⊆+ q st ->
             NoDup (front ++ (Some <$> R ++ visit_log st)) /\
             forall x, x ∈ front ++ (Some <$> R ++ visit_log st) -> x ∈ discovered st).
  { intros front Hfront.
    assert (Hsub : front ++ (Some <$> R ++ visit_log st)
                   ⊆+ q st ++ (Some <$> flat_map inflight_url (workers st) ++ visit_log st)).
    { rewrite HI. apply submseteq_skips_r. exact Hfront. }
    split; [eapply submseteq_NoDup; eauto|].
    intros x Hx. apply Fdisc. eapply elem_of_submseteq; eauto. }
  assert (Hlog : forall front rest, front ++ rest ⊆+ q st ->
             front = Some <$> sk ->
             NoDup (visit_log st ++ sk)).
  { intros front rest Hfront ->.
    destruct (Hbase _ Hfront) as [Hnd _].
    rewrite !fmap_app in Hnd.
    assert (Hp : ((Some <$> sk) ++ rest) ++ (Some <$> R) ++ (Some <$> visit_log st)
                 ≡ₚ (Some <$> visit_log st ++ sk) ++ rest ++ (Some <$> R))
      by (rewrite fmap_app; solve_Permutation).
    rewrite Hp in Hnd. apply NoDup_app in Hnd as [Hnd _].
    eapply NoDup_fmap_1. exact Hnd. }
  assert (Hvis : list_to_set sk ∪ visited st = list_to_set (C := gset string) (visit_log st ++ sk)).
  { rewrite list_to_set_app_L, Lvis. set_solver. }
  (* a worker that leaves the loop, by its end or by an exception *)
  assert (Hleave : forall crashed', (Some <$> sk) ++ q' ⊆+ q st ->
             let st' := mkState q' (discovered st) (list_to_set sk ∪ visited st) (results st)
                                (<[w := Finished]> (workers st))
                                (plain_fetches st) (render_fetches st)
                                (visit_log st ++ sk) crashed' in
             logs_ok cfg st' /\ frontier_ok st').
  { intros crashed' Hsub. cbv zeta.
    destruct (Hbase _ Hsub) as [Hnd Hdisc].
    destruct (Hnew Finished) as [HI' HRd']. simpl in HI', HRd'.
    split.
    + split; simpl; eauto.
    + split; simpl.
      * rewrite HI'.
        assert (Hp : q' ++ (Some <$> R ++ visit_log st ++ sk)
                     ≡ₚ ((Some <$> sk) ++ q') ++ (Some <$> R ++ visit_log st)).
        { rewrite !fmap_app. solve_Permutation. }
        rewrite Hp. exact Hnd.
      * intros x Hx. apply Hdisc. rewrite HI' in Hx.
        revert Hx. unfold_elems. tauto.
      * intros u Hu. destruct (Fpl u Hu) as [Hd Hq]. split; [exact Hd|].
        intros Hin. apply Hq. eapply elem_of_submseteq; [|exact Hsub].
        apply elem_of_app. right. exact Hin.
      * intros u Hu Hin. rewrite HRd'. rewrite HI' in Hin.
        rewrite <- HRd. apply Frd; [exact Hu|]. rewrite HI. exact Hin.
      * intros u Hu. rewrite HI' in Hu. apply Fin. rewrite HI. exact Hu. }
  destruct out as [url| |e]; simpl.
  - destruct Hout as (Hsub & Hb & Hn).
    destruct (Hbase _ Hsub) as [Hnd Hdisc].
    destruct (Hnew (AwaitPlain url)) as [HI' HRd'].
    simpl in HI', HRd'.
    assert (Hqueued : Some url ∈ q st).
    { eapply elem_of_submseteq; [|exact Hsub]. apply elem_of_app. right. left. }
    assert (Hnew_fetch : url ∉ plain_fetches st).
    { intros Hin. destruct (Fpl url Hin) as [_ Hq]. contradiction. }
    assert (Hgone : Some url ∉ q').
    { intros Hin. rewrite <- app_assoc in Hnd.
      apply NoDup_app in Hnd as (_ & _ & Hnd). simpl in Hnd.
      apply NoDup_cons in Hnd as [Hnd _]. apply Hnd. apply elem_of_app. left. exact Hin. }
    split.
    + split; simpl.
      * apply NoDup_app. split; [exact Lp|]. split; [|apply NoDup_singleton].
        intros x Hx Hx'. apply list_elem_of_singleton in Hx'. subst x. contradiction.
      * exact Lr.
      * eapply Hlog; eauto.
      * exact Hvis.
      * intros u Hu. apply elem_of_app in Hu as [Hu|Hu]; [auto|].
        apply list_elem_of_singleton in Hu. subst u. exact Hb.
      * intros u Hu. apply elem_of_app. left. auto.
    + split; simpl.
      * rewrite HI'.
        assert (Hp : q' ++ (Some <$> (url :: R) ++ visit_log st ++ sk)
                     ≡ₚ ((Some <$> sk) ++ Some url :: q') ++ (Some <$> R ++ visit_log st)).
        { rewrite !fmap_app, !fmap_cons. solve_Permutation. }
        rewrite Hp. exact Hnd.
      * intros x Hx. apply Hdisc. rewrite HI' in Hx.
        revert Hx. unfold_elems. tauto.
      * intros u Hu. apply elem_of_app in Hu as [Hu|Hu].
        -- destruct (Fpl u Hu) as [Hd Hq]. split; [exact Hd|].
           intros Hin. apply Hq. eapply elem_of_submseteq; [|exact Hsub].
           apply elem_of_app. right. right. exact Hin.
        -- apply list_elem_of_singleton in Hu. subst u. split; [|exact Hgone].
           apply Fdisc. apply elem_of_app. left. exact Hqueued.
      * intros u Hu Hin. rewrite HRd'. rewrite HI' in Hin.
        apply elem_of_cons in Hin as [->|Hin].
        -- destruct Hnew_fetch. apply Lrp, Hu.
        -- rewrite <- HRd. apply Frd; [exact Hu|]. rewrite HI. exact Hin.
      * intros u Hu. rewrite HI' in Hu. apply elem_of_cons in Hu as [->|Hu]; [set_solver|].
        apply elem_of_app. left. apply Fin. rewrite HI. exact Hu.
  - apply (Hleave (crashed st) Hout).
  - apply (Hleave (first_raised (crashed st) e) Hout).
Qed.

(** A worker whose plain fetch came back short asks for the rendered page *)
Lemma render_start_ok (cfg : config) (st : state) (w : nat) (url : string)
    (html : option string) :
  workers st !! w = Some (AwaitPlain url) ->
  logs_ok cfg st -> frontier_ok st ->
  let st' := mkState (q st) (discovered st) (visited st) (results st)
                     (<[w := AwaitRender url html]> (workers st))
                     (plain_fetches st) (render_fetches st ++ [url])
                     (visit_log st) (crashed st) in
  logs_ok cfg st' /\ frontier_ok st'.
Proof.
  intros Hw [Lp Lr Lv Lvis Lal Lrp] [Fnd Fdisc Fpl Frd Fin].
  destruct (workers_insert _ _ _ Hw) as (R & R' & HR & HRlen & HI & HRd & Hnew).
  destruct (Hnew (AwaitRender url html)) as [HI' HRd'].
  simpl in HI, HRd, HI', HRd'. unfold inflight, rendering in *.
  assert (Hfresh : url ∉ R).
  { intros Hin. rewrite HI in Fnd. apply NoDup_app in Fnd as (_ & _ & Fnd).
    apply NoDup_fmap_1 in Fnd. simpl in Fnd.
    apply NoDup_cons in Fnd as [Fnd _]. apply Fnd. apply elem_of_app. left. exact Hin. }
  assert (Hflight : url ∈ flat_map inflight_url (workers st)).
  { rewrite HI. left. }
  cbv zeta. split; split; simpl; auto.
  - apply NoDup_app. split; [exact Lr|]. split; [|apply NoDup_singleton].
    intros x Hx Hx'. apply list_elem_of_singleton in Hx'. subst x.
    apply Hfresh, HR. rewrite <- HRd. apply Frd; assumption.
  - intros u Hu. apply elem_of_app in Hu as [Hu|Hu]; [auto|].
    apply list_elem_of_singleton in Hu. subst u. apply Fin. exact Hflight.
  - rewrite HI'. rewrite HI in Fnd. exact Fnd.
  - intros x Hx. apply Fdisc. rewrite HI. rewrite HI' in Hx. exact Hx.
  - intros u Hu Hin. rewrite HRd'. rewrite HI' in Hin.
    apply elem_of_cons in Hin as [->|Hin]; [left|]. right.
    apply elem_of_app in Hu as [Hu|Hu].
    + rewrite <- HRd. apply Frd; [exact Hu|]. rewrite HI. right. exact Hin.
    + apply list_elem_of_singleton in Hu. subst u. contradiction.
  - intros u Hu. apply Fin. rewrite HI. rewrite HI' in Hu. exact Hu.
Qed.

(** A worker that leaves a fetch without a new link: the URL in flight may
    or may not have been added to the visit log *)
Lemma leave_fetch_ok (cfg : config) (st : state) (w : nat) (ws new : wstate)
    (url : string) (logged : list string) (res : list PageResult) (c : option exn) :
  workers st !! w = Some ws -> inflight_url ws = [url] -> inflight_url new = [] ->
  logged = [] \/ logged = [url] ->
  logs_ok cfg st -> frontier_ok st ->
  let st' := mkState (q st) (discovered st) (list_to_set logged ∪ visited st) res
                     (<[w := new]> (workers st))
                     (plain_fetches st) (render_fetches st)
                     (visit_log st ++ logged) c in
  logs_ok cfg st' /\ frontier_ok st'.
Proof.
  intros Hw Hfl Hn Hlogged [Lp Lr Lv Lvis Lal Lrp] [Fnd Fdisc Fpl Frd Fin].
  destruct (workers_insert _ _ _ Hw) as (R & R' & HR & HRlen & HI & HRd & Hnew).
  rewrite Hfl in HI. simpl in HI.
  assert (Hrd : forall u, u ∈ render_url ws -> u = url).
  { destruct ws; simpl in *; intros u Hu; try (apply elem_of_nil in Hu; contradiction).
    apply list_elem_of_singleton in Hu. congruence. }
  destruct (Hnew new) as [HI' HRd'].
  assert (Hrn : render_url new = []) by (destruct new; simpl in *; congruence).
  rewrite Hn in HI'. rewrite Hrn in HRd'. simpl in HI', HRd'.
  unfold inflight, rendering in *.
  assert (Hfresh : url ∉ R ++ visit_log st).
  { intros Hin. rewrite HI in Fnd. apply NoDup_app in Fnd as (_ & _ & Fnd).
    apply NoDup_fmap_1 in Fnd. simpl in Fnd.
    apply NoDup_cons in Fnd as [Fnd _]. contradiction. }
  assert (Hsub : q st ++ (Some <$> R ++ visit_log st ++ logged)
                 ⊆+ q st ++ (Some <$> flat_map inflight_url (workers st) ++ visit_log st)).
  { rewrite HI. apply submseteq_skips_l. apply fmap_submseteq.
    destruct Hlogged as [->| ->].
    - rewrite app_nil_r. apply submseteq_cons. reflexivity.
    - assert (Hp : R ++ visit_log st ++ [url] ≡ₚ url :: R ++ visit_log st)
        by solve_Permutation.
      rewrite Hp. reflexivity. }
  cbv zeta. split; split; simpl; auto.
  - destruct Hlogged as [->| ->]; [rewrite app_nil_r; exact Lv|].
    apply NoDup_app. split; [exact Lv|]. split; [|apply NoDup_singleton].
    intros x Hx Hx'. apply list_elem_of_singleton in Hx'. subst x.
    apply Hfresh. apply elem_of_app. right. exact Hx.
  - rewrite list_to_set_app_L, Lvis. set_solver.
  - rewrite HI'. eapply submseteq_NoDup; eauto.
  - intros x Hx. rewrite HI' in Hx. apply Fdisc. eapply elem_of_submseteq; eauto.
  - intros u Hu Hin. rewrite HRd'. rewrite HI' in Hin.
    assert (Hr : u ∈ render_url ws ++ R').
    { rewrite <- HRd. apply Frd; [exact Hu|]. rewrite HI. right. exact Hin. }
    apply elem_of_app in Hr as [Hr|Hr]; [|exact Hr].
    apply Hrd in Hr. subst u. destruct Hfresh. apply elem_of_app. left. exact Hin.
  - intros u Hu. apply Fin. rewrite HI. rewrite HI' in Hu. right. exact Hu.
Qed.

(** From [visited.add(url)] to the sleep that ends the iteration *)
Lemma finish_page_ok (cfg : config) (st : state) (w : nat) (ws : wstate)
    (url : string) (html : option string) (cands : list string) (used : bool) :
  workers st !! w = Some ws -> inflight_url ws = [url] ->
  logs_ok cfg st -> frontier_ok st ->
  logs_ok cfg (finish_page cfg st w url html cands used) /\
  frontier_ok (finish_page cfg st w url html cands used).
Proof.
  intros Hw Hfl L F.
  assert (Hset : {[url]} ∪ visited st = list_to_set [url] ∪ visited st) by set_solver.
  unfold finish_page. rewrite Hset.
  destruct (falsy html).
  { apply (leave_fetch_ok cfg st w ws Asleep url [url] (results st) (crashed st));
      auto. }
  destruct (extract_links_from_html cfg url (default "" html)) as [found|e].
  2:{ apply (leave_fetch_ok cfg st w ws Finished url [url] (results st)
               (first_raised (crashed st) e)); auto. }
  destruct (enqueue cfg _ (q st) (discovered st)) as [[q' disc'] err] eqn:Henq.
  destruct (enqueue_spec _ _ _ _ _ _ _ Henq) as (added & -> & -> & Hadd & Hnew_links).
  set (new := match err with None => Asleep | Some _ => Finished end).
  set (c := match err with None => crashed st | Some e => first_raised (crashed st) e end).
  set (res := results st ++ _).
  assert (Hn : inflight_url new = []) by (unfold new; destruct err; reflexivity).
  destruct (leave_fetch_ok cfg st w ws new url [url] res c Hw Hfl Hn (or_intror eq_refl) L F)
    as [[Lp Lr Lv Lvis Lal Lrp] [Fnd Fdisc Fpl Frd Fin]].
  unfold inflight, rendering in *. simpl in *.
  split; split; simpl; auto.
  - assert (Hp : (q st ++ (Some <$> added))
                 ++ (Some <$> flat_map inflight_url (<[w := new]> (workers st))
                              ++ visit_log st ++ [url])
                 ≡ₚ (Some <$> added)
                    ++ q st ++ (Some <$> flat_map inflight_url (<[w := new]> (workers st))
                                         ++ visit_log st ++ [url]))
      by solve_Permutation.
    rewrite Hp. apply NoDup_app. split; [apply NoDup_fmap_2; [apply _|exact Hadd]|].
    split; [|exact Fnd].
    intros x Hx Hx'. apply list_elem_of_fmap in Hx as (l & -> & Hl).
    apply (Hnew_links l Hl). apply Fdisc. exact Hx'.
  - intros x Hx.
    rewrite <- app_assoc in Hx. apply elem_of_app in Hx as [Hx|Hx].
    + apply elem_of_union_r, Fdisc. apply elem_of_app. left. exact Hx.
    + apply elem_of_app in Hx as [Hx|Hx].
      * apply elem_of_union_l, elem_of_list_to_set, Hx.
      * apply elem_of_union_r, Fdisc. apply elem_of_app. right. exact Hx.
  - intros u Hu. destruct (Fpl u Hu) as [Hd Hq]. split; [apply elem_of_union_r, Hd|].
    intros Hin. apply elem_of_app in Hin as [Hin|Hin]; [contradiction|].
    apply list_elem_of_fmap in Hin as (l & E & Hl). injection E as <-.
    apply (Hnew_links u Hl), Hd.
Qed.

(** An exception of the render fetch leaves a worker of [crawl] *)
Lemma crash_ok (cfg : config) (st : state) (w : nat) (url : string)
    (html : option string) (e : exn) :
  workers st !! w = Some (AwaitRender url html) ->
  logs_ok cfg st -> frontier_ok st ->
  logs_ok cfg (crash st w e) /\ frontier_ok (crash st w e).
Proof.
  intros Hw L F.
  pose proof (leave_fetch_ok cfg st w _ Finished url [] (results st)
                (first_raised (crashed st) e) Hw eq_refl eq_refl (or_introl eq_refl) L F)
    as H.
  cbv zeta in H. rewrite app_nil_r in H.
  assert (Hv : list_to_set [] ∪ visited st = visited st) by set_solver.
  rewrite Hv in H. exact H.
Qed.

Lemma step_ok (cfg : config) (st : state) (ev : event) :
  logs_ok cfg st -> frontier_ok st ->
  logs_ok cfg (step cfg st ev) /\ frontier_ok (step cfg st ev).
Proof.
  intros L F. unfold step.
  assert (Hsame : logs_ok cfg st /\ frontier_ok st) by auto.
  destruct ev as [w|w html|w content cands|w e];
    destruct (workers st !! w) as [ws|] eqn:Hw; try exact Hsame;
    destruct ws as [|url|url html0| |]; try exact Hsame.
  - apply (resume_ok cfg st w Ready Hw eq_refl L F).
  - apply (resume_ok cfg st w Asleep Hw eq_refl L F).
  - destruct (wants_render cfg html).
    + apply (render_start_ok cfg st w url html Hw L F).
    + apply (finish_page_ok cfg st w _ url html [] false Hw eq_refl L F).
  - destruct (which cfg);
      apply (finish_page_ok cfg st w _ url _ cands true Hw eq_refl L F).
  - destruct (which cfg).
    + apply (finish_page_ok cfg st w _ url _ [] false Hw eq_refl L F).
    + apply (crash_ok cfg st w url html0 e Hw L F).
Qed.

Lemma run_ok (cfg : config) (evs : list event) (st : state) :
  logs_ok cfg st -> frontier_ok st ->
  logs_ok cfg (run cfg st evs) /\ frontier_ok (run cfg st evs).
Proof.
  revert st. induction evs as [|ev evs IH]; intros st L F; [auto|].
  simpl. destruct (step_ok cfg st ev L F) as [L' F']. apply IH; assumption.
Qed.

Lemma init_ok (cfg : config) (n : nat) (seeds : list (option string)) :
  NoDup seeds -> logs_ok cfg (init n seeds) /\ frontier_ok (init n seeds).
Proof.
  intros Hnd. destruct (inflight_replicate_ready n) as [Hi Hr].
  split; split; unfold inflight, rendering; simpl; rewrite ?Hi, ?Hr; simpl;
    try apply NoDup_nil_2; try (intros u Hu; apply elem_of_nil in Hu; contradiction).
  - set_solver.
  - rewrite app_nil_r. exact Hnd.
  - intros x Hx. rewrite app_nil_r in Hx. apply elem_of_list_to_set. exact Hx.
Qed.

(** In every run from a queue without repetition, whatever the number of
    workers and the order of the events, and whether or not exceptions left
    workers, no URL is fetched twice, rendered twice or added to [visited]
    twice by the workers. *)
Lemma run_fetched_once (cfg : config) (n : nat) (seeds : list (option string))
    (evs : list event) :
  NoDup seeds -> fetched_once (run cfg (init n seeds) evs).
Proof.
  intros Hnd. destruct (init_ok cfg n seeds Hnd) as [L F].
  destruct (run_ok cfg evs _ L F) as [[Lp Lr Lv _ _ _] _].
  split; [|split]; assumption.
Qed.

(** The loop head adds to [visited] only below the budget, and starts a
    fetch only below the budget *)
Lemma loop_head_budget (cfg : config) (q : list (option string)) :
  forall (visited : gset string) (log : list string) q' visited' log' out,
    loop_head cfg q visited log = (q', visited', log', out) ->
    (size visited' <= size visited \/ size visited' <= max_pages cfg) /\
    (forall url, out = StartFetch url -> size visited' < max_pages cfg).
Proof.
  induction q as [|x q IH]; intros visited log q' visited' log' out Hrun; simpl in Hrun.
  - injection Hrun as <- <- <- <-. split; [left; lia|discriminate].
  - destruct (Nat.ltb_spec (size visited) (max_pages cfg)) as [Hlt|Hge].
    2:{ injection Hrun as <- <- <- <-. split; [left; lia|discriminate]. }
    assert (Hadd : forall url l,
               loop_head cfg q ({[url]} ∪ visited) l = (q', visited', log', out) ->
               (size visited' <= size visited \/ size visited' <= max_pages cfg) /\
               (forall url, out = StartFetch url -> size visited' < max_pages cfg)).
    { intros url l Hl. destruct (IH _ _ _ _ _ _ Hl) as [Hs Hf]. split; [|exact Hf].
      right. assert (size ({[url]} ∪ visited) <= 1 + size visited).
      { rewrite size_union_alt, size_singleton.
        assert (size (visited ∖ {[url]}) <= size visited)
          by (apply subseteq_size; set_solver). lia. }
      lia. }
    destruct x as [url|]; [|eapply IH; eauto].
    destruct (negb (nonempty url)); [eapply IH; eauto|].
    destruct (bool_decide (url ∈ visited)); [eapply IH; eauto|].
    destruct (netloc_of url) as [nl|].
    2:{ injection Hrun as <- <- <- <-. split; [left; lia|discriminate]. }
    destruct (negb (String.eqb nl (base_host cfg))); [eapply Hadd; eauto|].
    destruct (blocked_by_robots cfg url); [eapply Hadd; eauto|].
    injection Hrun as <- <- <- <-. split; [left; lia|]. intros _ _. exact Hlt.
Qed.

Lemma finish_page_budget (cfg : config) (st : state) (w : nat) (ws : wstate)
    (url : string) (html : option string) (cands : list string) (used : bool) :
  workers st !! w = Some ws -> inflight_url ws = [url] ->
  within_budget cfg st ->
  within_budget cfg (finish_page cfg st w url html cands used).
Proof.
  intros Hw Hfl Hb. unfold within_budget in *.
  destruct (workers_insert _ _ _ Hw) as (R & R' & HR & HRlen & HI & HRd & Hnew).
  rewrite Hfl in HI. unfold inflight in *.
  apply Permutation_length in HI. simpl in HI.
  assert (Hv : size ({[url]} ∪ visited st) <= 1 + size (visited st)).
  { rewrite size_union_alt, size_singleton.
    assert (size (visited st ∖ {[url]}) <= size (visited st))
      by (apply subseteq_size; set_solver). lia. }
  assert (Hidle : forall new, inflight_url new = [] ->
             length (flat_map inflight_url (<[w := new]> (workers st))) = length R).
  { intros new Hn. destruct (Hnew new) as [HI' _]. rewrite Hn in HI'.
    apply Permutation_length in HI'. exact HI'. }
  unfold finish_page.
  destruct (falsy html); simpl.
  { rewrite length_insert, (Hidle Asleep eq_refl). lia. }
  destruct (extract_links_from_html cfg url (default "" html)) as [found|e]; simpl.
  2:{ rewrite length_insert, (Hidle Finished eq_refl). lia. }
  destruct (enqueue cfg _ (q st) (discovered st)) as [[q' disc'] err]. simpl.
  rewrite length_insert. destruct err; rewrite Hidle by reflexivity; lia.
Qed.

Lemma step_budget (cfg : config) (st : state) (ev : event) :
  within_budget cfg st -> within_budget cfg (step cfg st ev).
Proof.
  intros Hb. unfold step.
  destruct ev as [w|w html|w content cands|w e];
    destruct (workers st !! w) as [ws|] eqn:Hw; try exact Hb;
    destruct ws as [|url|url html0| |]; try exact Hb.
  1,2: unfold resume;
    destruct (loop_head cfg (q st) (visited st) (visit_log st)) as [[[q' v'] log'] out] eqn:Hlh;
    destruct (loop_head_budget _ _ _ _ _ _ _ _ Hlh) as [Hs Hf];
    destruct (workers_insert _ _ _ Hw) as (R & R' & HR & HRlen & HI & HRd & Hnew);
    unfold within_budget, inflight in *;
    apply Permutation_length in HI; simpl in HI;
    destruct out as [url| |e]; simpl; rewrite length_insert;
    [ destruct (Hnew (AwaitPlain url)) as [HI' _]; apply Permutation_length in HI';
      simpl in HI'; specialize (Hf url eq_refl); lia
    | destruct (Hnew Finished) as [HI' _]; apply Permutation_length in HI';
      simpl in HI'; lia
    | destruct (Hnew Finished) as [HI' _]; apply Permutation_length in HI';
      simpl in HI'; lia ].
  - destruct (wants_render cfg html).
    + destruct (workers_insert _ _ _ Hw) as (R & R' & HR & HRlen & HI & HRd & Hnew).
      destruct (Hnew (AwaitRender url html)) as [HI' _].
      unfold within_budget, inflight in *. simpl. rewrite length_insert.
      apply Permutation_length in HI, HI'. simpl in HI, HI'. lia.
    + apply (finish_page_budget cfg st w _ url html [] false Hw eq_refl Hb).
  - destruct (which cfg);
      apply (finish_page_budget cfg st w _ url _ cands true Hw eq_refl Hb).
  - destruct (which cfg).
    + apply (finish_page_budget cfg st w _ url _ [] false Hw eq_refl Hb).
    + destruct (workers_insert _ _ _ Hw) as (R & R' & HR & HRlen & HI & HRd & Hnew).
      destruct (Hnew Finished) as [HI' _].
      unfold within_budget, inflight in *. simpl. rewrite length_insert.
      apply Permutation_length in HI, HI'. simpl in HI, HI'. lia.
Qed.

(** In every run with [n] workers the visited set holds at most
    [max_pages + (n - 1)] URLs: the budget can be passed by one page for each
    worker but one, and a single worker keeps to it. *)
Lemma visited_within_budget_plus_workers (cfg : config) (n : nat)
    (seeds : list (option string)) (evs : list event) :
  size (visited (run cfg (init n seeds) evs)) <= max_pages cfg + (n - 1) /\
  (n = 1 -> size (visited (run cfg (init n seeds) evs)) <= max_pages cfg).
Proof.
  assert (Hrun : forall evs st, within_budget cfg st ->
             within_budget cfg (run cfg st evs) /\
             length (workers (run cfg st evs)) = length (workers st)).
  { clear. induction evs as [|ev evs IH]; intros st Hb; [auto|]. simpl.
    destruct (IH (step cfg st ev) (step_budget cfg st ev Hb)) as [Hb' Hl].
    split; [exact Hb'|]. unfold run in *. rewrite Hl. clear.
    unfold step.
    destruct ev as [w|w html|w content cands|w e];
      destruct (workers st !! w) as [[|url|url html0| |]|]; try reflexivity;
      unfold resume, finish_page, crash;
      repeat (match goal with
              | |- context [let '(_, _) := ?x in _] => destruct x
              | |- context [match ?x with _ => _ end] => destruct x
              end; simpl); rewrite ?length_insert; reflexivity. }
  assert (Hinit : within_budget cfg (init n seeds)).
  { unfold within_budget, inflight, init. cbn [visited workers].
    rewrite (proj1 (inflight_replicate_ready n)), size_empty. simpl. lia. }
  destruct (Hrun evs _ Hinit) as [Hb Hl].
  unfold within_budget in Hb. simpl in Hl. rewrite Hl, length_replicate in Hb.
  split; [lia|]. intros ->. simpl in Hb. lia.
Qed.

(** The loop head drops a queue of off-domain entries to its end, or stops
    at the budget, without starting a fetch and without raising *)
Lemma loop_head_off_domain (cfg : config) (q : list (option string)) :
  Forall (off_domain cfg) q ->
  forall visited log, exists q' visited' log',
    loop_head cfg q visited log = (q', visited', log', LoopEnds) /\
    Forall (off_domain cfg) q'.
Proof.
  induction 1 as [|x q Hx Hq IH]; intros visited log.
  - exists [], visited, log. split; [reflexivity|constructor].
  - cbn [loop_head]. destruct (size visited <? max_pages cfg).
    2:{ exists (x :: q), visited, log. split; [reflexivity|]. constructor; assumption. }
    destruct Hx as [Hf|(u & nl & -> & Hnl & Hne)].
    + destruct x as [u|]; [|apply IH]. cbn [falsy] in Hf. rewrite Hf. apply IH.
    + destruct (negb (nonempty u)); [apply IH|].
      destruct (bool_decide (u ∈ visited)); [apply IH|].
      rewrite Hnl. destruct (String.eqb_spec nl (base_host cfg)) as [|_]; [contradiction|].
      apply IH.
Qed.

Lemma quiet_worker (ws : list wstate) (w : nat) (s : wstate) :
  Forall (fun ws => inflight_url ws = []) ws ->
  ws !! w = Some s -> s = Ready \/ s = Asleep \/ s = Finished.
Proof.
  intros Hall Hw. rewrite Forall_lookup in Hall. specialize (Hall _ _ Hw).
  destruct s; try discriminate; auto.
Qed.

Lemma quiet_step (cfg : config) (st : state) (ev : event) :
  quiet cfg st -> quiet cfg (step cfg st ev).
Proof.
  intros Hq. unfold step.
  destruct ev as [w|w html|w content cands|w e];
    destruct (workers st !! w) as [s|] eqn:Hw; try exact Hq;
    destruct (quiet_worker _ _ _ (quiet_workers _ _ Hq) Hw) as [->|[->| ->]];
    try exact Hq.
  all: unfold resume;
    destruct (loop_head_off_domain cfg (q st) (quiet_queue _ _ Hq)
                (visited st) (visit_log st)) as (q' & v' & l' & -> & Hq');
    destruct Hq as [H1 H2 H3 H4 H5 H6]; split; cbn; try assumption; try reflexivity;
    apply Forall_insert; [assumption|reflexivity].
Qed.

Lemma quiet_run (cfg : config) (evs : list event) (st : state) :
  quiet cfg st -> quiet cfg (run cfg st evs).
Proof.
  revert st. induction evs as [|ev evs IH]; intros st Hq; [exact Hq|].
  apply IH, quiet_step, Hq.
Qed.

Lemma quiet_init (cfg : config) (n : nat) (seeds : list (option string)) :
  Forall (off_domain cfg) seeds -> quiet cfg (init n seeds).
Proof.
  intros Hs. split; cbn; try reflexivity; [exact Hs|].
  apply Forall_replicate. reflexivity.
Qed.

End WithHostCheck.

Lemma insert_sorted_perm (s : string) (l : list string) :
  RobustCrawl.insert_sorted s l ≡ₚ s :: l.
Proof.
  induction l as [|x l IH]; simpl; [reflexivity|].
  destruct (String.leb s x); [reflexivity|].
  rewrite IH. apply Permutation_swap.
Qed.

Lemma sorted_perm (l : list string) : RobustCrawl.sorted l ≡ₚ l.
Proof.
  induction l as [|x l IH]; simpl; [reflexivity|].
  rewrite insert_sorted_perm, IH. reflexivity.
Qed.

Section WithHostCheck.
Context {hc : HostCheck}.

(** [robust_crawl] starts its workers on a queue without repetition *)
Lemma robust_crawl_start_seeds (fuel : nat) (w : RobustCrawl.web) (start_url : string)
    (max_pages concurrency : nat) (ignore_robots use_sitemaps no_playwright : bool)
    (extract : string -> string -> py (list string)) (s : RobustCrawl.started) :
  RobustCrawl.robust_crawl_start fuel w start_url max_pages concurrency ignore_robots
    use_sitemaps no_playwright extract = Some (Ret s) ->
  exists seeds, RobustCrawl.st0 s = init concurrency seeds /\ NoDup seeds.
Proof.
  unfold RobustCrawl.robust_crawl_start.
  destruct (UrlParse.urlparse start_url) as [parsed|]; [|discriminate].
  destruct (if use_sitemaps then _ else _) as [[extra log]|]; [|discriminate].
  destruct (Products.normalize_url start_url None) as [sn|].
  - intros E. injection E as <-. eexists. split; [reflexivity|].
    apply NoDup_fmap_2; [apply _|]. rewrite sorted_perm.
    apply (NoDup_remove_dups (sn :: extra)).
  - destruct (remove_dups extra); [|discriminate].
    intros E. injection E as <-. eexists. split; [reflexivity|].
    apply NoDup_singleton.
Qed.

(** [crawl] starts its workers on the normalized start URL alone *)
Lemma crawl_start_seeds (robots : option (string -> bool)) (browser_context : bool)
    (start_url : string) (max_pages concurrency : nat) (ignore_robots : bool)
    (extract : string -> string -> py (list string)) (cfg : config) (st : state) :
  AiCrawl.crawl_start robots browser_context start_url max_pages concurrency
    ignore_robots extract = Ret (cfg, st) ->
  exists seeds, st = init concurrency seeds /\ NoDup seeds.
Proof.
  unfold AiCrawl.crawl_start.
  destruct (UrlParse.urlparse start_url) as [parsed|]; [|discriminate].
  destruct (AiCrawler.normalize_url start_url None) as [sn|]; [|discriminate].
  intros E. injection E as <- <-. eexists. split; [reflexivity|].
  apply NoDup_singleton.
Qed.

(** The sitemap loop logs sitemap requests only *)
Lemma load_sitemaps_log (fuel : nat) (w : RobustCrawl.web) (found : list string) :
  forall urls log urls' log',
    RobustCrawl.load_sitemaps fuel w found urls log = Some (urls', log') ->
    exists fetched, log' = log ++ map RobustCrawl.FetchSitemap fetched.
Proof.
  induction found as [|sm found IH]; intros urls log urls' log' H.
  - injection H as <- <-. exists []. symmetry. apply List.app_nil_r.
  - cbn [RobustCrawl.load_sitemaps] in H.
    destruct (ProductsSitemap.fetch_sitemap_urls fuel _ sm []) as [[us|] fetched];
      [|discriminate].
    destruct (IH _ _ _ _ H) as (fetched' & ->).
    exists (fetched ++ fetched'). rewrite map_app, List.app_assoc. reflexivity.
Qed.

(** Before the workers start, [robust_crawl] hands nothing to [fetch_plain]
    but the start URL, once, and only with [use_sitemaps] *)
Lemma robust_crawl_start_seed_fetches (fuel : nat) (w : RobustCrawl.web)
    (start_url : string) (max_pages concurrency : nat)
    (ignore_robots use_sitemaps no_playwright : bool)
    (extract : string -> string -> py (list string)) (s : RobustCrawl.started) :
  RobustCrawl.robust_crawl_start fuel w start_url max_pages concurrency ignore_robots
    use_sitemaps no_playwright extract = Some (Ret s) ->
  RobustCrawl.seed_fetches s = [] \/
  (use_sitemaps = true /\ RobustCrawl.seed_fetches s = [start_url]).
Proof.
  unfold RobustCrawl.robust_crawl_start.
  destruct (UrlParse.urlparse start_url) as [parsed|]; [|discriminate].
  destruct (if use_sitemaps then _ else _) as [[extra log]|] eqn:Hseed; [|discriminate].
  assert (Hlog : RobustCrawl.seed_fetches (RobustCrawl.mkStarted
                   (mkConfig ProductsVariant "" 0 None false false extract)
                   (init 0 []) log) = [] \/
                 (use_sitemaps = true /\
                  RobustCrawl.seed_fetches (RobustCrawl.mkStarted
                   (mkConfig ProductsVariant "" 0 None false false extract)
                   (init 0 []) log) = [start_url])).
  { unfold RobustCrawl.seed_fetches. cbn [RobustCrawl.seed_requests].
    assert (Hprobe : forall l, flat_map (fun r => match r with
                                                  | RobustCrawl.FetchPlain u => [u]
                                                  | _ => []
                                                  end) (map RobustCrawl.Probe l) = []).
    { induction l as [|x l IH]; [reflexivity|exact IH]. }
    assert (Hsm : forall l, flat_map (fun r => match r with
                                               | RobustCrawl.FetchPlain u => [u]
                                               | _ => []
                                               end) (map RobustCrawl.FetchSitemap l) = []).
    { induction l as [|x l IH]; [reflexivity|exact IH]. }
    destruct use_sitemaps; [|injection Hseed as <- <-; left; reflexivity].
    unfold RobustCrawl.seed_from_sitemaps in Hseed.
    destruct (filter _ _);
      destruct (load_sitemaps_log _ _ _ _ _ _ _ Hseed) as (fetched & ->);
      rewrite !flat_map_app, Hprobe, Hsm.
    - right. split; reflexivity.
    - left. reflexivity. }
  destruct (Products.normalize_url start_url None) as [sn|].
  - intros E. injection E as <-. exact Hlog.
  - destruct (remove_dups extra); [|discriminate].
    intros E. injection E as <-. exact Hlog.
Qed.

(** C2 (amended).  In every run of the workers of [robust_crawl] and of
    [crawl], for every number of workers and every interleaving of their
    steps, and whether or not an exception has left a worker, the workers
    hand no URL twice to the plain fetch, none twice to the renderer, and
    execute [visited.add] at most once for each URL; the queue, the URLs in
    flight and the visited URLs never share a URL nor hold one twice, and a
    URL whose fetch was started is never queued again: a link enters the
    queue only if it is new to the discovered set.  A URL handed to the
    renderer was handed to the plain fetch before.  Before its workers
    start, [robust_crawl] hands at most the start URL to the plain fetch,
    and only with [use_sitemaps]; so in a whole run a URL is fetched at most
    once, but for the start URL, which can be fetched twice. *)
Theorem workers_fetch_each_url_once :
  (forall fuel w start_url max_pages concurrency ignore_robots use_sitemaps
          no_playwright extract s evs,
     RobustCrawl.robust_crawl_start fuel w start_url max_pages concurrency
       ignore_robots use_sitemaps no_playwright extract = Some (Ret s) ->
     let final := run (RobustCrawl.cfg s) (RobustCrawl.st0 s) evs in
     fetched_once final /\ frontier_ok final /\
     (forall u, u ∈ render_fetches final -> u ∈ plain_fetches final) /\
     (RobustCrawl.seed_fetches s = [] \/
      (use_sitemaps = true /\ RobustCrawl.seed_fetches s = [start_url])) /\
     (use_sitemaps = false ->
      NoDup (RobustCrawl.seed_fetches s ++ plain_fetches final)) /\
     (forall u, u ∈ RobustCrawl.seed_fetches s -> u = start_url)) /\
  (forall robots browser_context start_url max_pages concurrency ignore_robots
          extract cfg st evs,
     AiCrawl.crawl_start robots browser_context start_url max_pages concurrency
       ignore_robots extract = Ret (cfg, st) ->
     fetched_once (run cfg st evs) /\ frontier_ok (run cfg st evs) /\
     (forall u, u ∈ render_fetches (run cfg st evs) ->
                u ∈ plain_fetches (run cfg st evs))).
Proof.
  assert (Hrun : forall cfg n seeds evs, NoDup seeds ->
            fetched_once (run cfg (init n seeds) evs) /\
            frontier_ok (run cfg (init n seeds) evs) /\
            (forall u, u ∈ render_fetches (run cfg (init n seeds) evs) ->
                       u ∈ plain_fetches (run cfg (init n seeds) evs))).
  { intros cfg n seeds evs Hnd. split; [apply run_fetched_once, Hnd|].
    destruct (init_ok cfg n seeds Hnd) as [L F].
    destruct (run_ok cfg evs _ L F) as [[_ _ _ _ _ Lrp] F']. auto. }
  split.
  - intros fuel w start_url max_pages concurrency ignore_robots use_sitemaps
           no_playwright extract s evs Hs.
    destruct (robust_crawl_start_seeds _ _ _ _ _ _ _ _ _ _ Hs) as (seeds & Hst & Hnd).
    pose proof (robust_crawl_start_seed_fetches _ _ _ _ _ _ _ _ _ _ Hs) as Hseed.
    cbv zeta. rewrite Hst.
    destruct (Hrun (RobustCrawl.cfg s) concurrency seeds evs Hnd) as (Honce & Hfr & Hrp).
    split; [exact Honce|]. split; [exact Hfr|]. split; [exact Hrp|].
    split; [exact Hseed|]. split.
    + intros Hno. destruct Hseed as [->|[Hyes _]]; [|congruence].
      apply Honce.
    + intros u Hin. destruct Hseed as [E|[_ E]]; rewrite E in Hin.
      * inversion Hin.
      * apply list_elem_of_singleton in Hin. exact Hin.
  - intros robots bc start_url max_pages concurrency ignore_robots extract cfg st evs Hs.
    destruct (crawl_start_seeds _ _ _ _ _ _ _ _ _ Hs) as (seeds & -> & Hnd).
    apply Hrun, Hnd.
Qed.

(** No worker fetches or renders a URL that the loaded robots policy blocks:
    a dequeued URL that fails the check is added to [visited] and skipped. *)
Lemma workers_respect_robots (cfg : config) (n : nat) (seeds : list (option string))
    (evs : list event) (can_fetch : string -> bool) (u : string) :
  NoDup seeds ->
  rp cfg = Some can_fetch -> ignore_robots cfg = false -> can_fetch u = false ->
  (u ∉ plain_fetches (run cfg (init n seeds) evs)) /\
  (u ∉ render_fetches (run cfg (init n seeds) evs)).
Proof.
  intros Hnd Hrp Hig Hcf. destruct (init_ok cfg n seeds Hnd) as [L F].
  destruct (run_ok cfg evs _ L F) as [[_ _ _ _ Lal Lrp] _].
  assert (Hb : blocked_by_robots cfg u = true).
  { unfold blocked_by_robots. rewrite Hrp, Hig, Hcf. reflexivity. }
  assert (Hp : u ∉ plain_fetches (run cfg (init n seeds) evs)).
  { intros Hin. apply Lal in Hin. congruence. }
  split; [exact Hp|]. intros Hin. apply Hp, Lrp, Hin.
Qed.

(** Every URL that the sitemaps add to the seeds went through
    [normalize_url] *)
Lemma load_sitemaps_normalized (fuel : nat) (w : RobustCrawl.web) (found : list string) :
  forall urls log urls' log',
    RobustCrawl.load_sitemaps fuel w found urls log = Some (urls', log') ->
    forall x, x ∈ urls' ->
      x ∈ urls \/ exists u, Products.normalize_url u None = Some x.
Proof.
  induction found as [|sm found IH]; intros urls log urls' log' H x Hx.
  - injection H as <- <-. left. exact Hx.
  - cbn [RobustCrawl.load_sitemaps] in H.
    destruct (ProductsSitemap.fetch_sitemap_urls fuel _ sm []) as [[us|] fetched];
      [|discriminate].
    destruct (IH _ _ _ _ H x Hx) as [Hin|Hn]; [|right; exact Hn].
    apply elem_of_app in Hin as [Hin|Hin]; [left; exact Hin|right].
    apply list_elem_of_In, in_flat_map in Hin as (u & _ & Hu).
    exists u. destruct (Products.normalize_url u None) as [nu|]; [|destruct Hu].
    destruct (nonempty nu); [|destruct Hu].
    destruct Hu as [->|[]]. reflexivity.
Qed.

Lemma seed_from_sitemaps_normalized (fuel : nat) (w : RobustCrawl.web)
    (start_url base_root : string) (urls : list string) (log : list RobustCrawl.request) :
  RobustCrawl.seed_from_sitemaps fuel w start_url base_root = Some (urls, log) ->
  forall x, x ∈ urls -> exists u, Products.normalize_url u None = Some x.
Proof.
  unfold RobustCrawl.seed_from_sitemaps. intros H x Hx.
  destruct (filter _ _);
    destruct (load_sitemaps_normalized _ _ _ _ _ _ _ H x Hx) as [Hin|Hn];
    solve [exact Hn | inversion Hin].
Qed.

(** C10 (amended).  When the host of the start URL contains an upper-case
    letter, both crawlers start their workers (no exception), and in every
    run of the workers no page is fetched by the plain fetch, none is
    rendered, the results list stays empty and no exception leaves a
    worker: every seed is a normalized URL, its host is lower-cased, and the
    worker compares it with the host of the start URL as it was written.
    Without [use_sitemaps] (the default) [robust_crawl] makes no request
    before the workers either. *)
Theorem uppercase_host_workers_fetch_nothing (start_url : string)
    (parsed : UrlParse.ParseResult) :
  case_insensitive hc ->
  UrlParse.urlparse start_url = Some parsed ->
  has_upper (UrlParse.netloc parsed) = true ->
  (forall fuel w max_pages concurrency ignore_robots use_sitemaps no_playwright
          extract r,
     RobustCrawl.robust_crawl_start fuel w start_url max_pages concurrency
       ignore_robots use_sitemaps no_playwright extract = Some r ->
     exists s, r = Ret s /\
       forall evs,
         plain_fetches (run (RobustCrawl.cfg s) (RobustCrawl.st0 s) evs) = [] /\
         render_fetches (run (RobustCrawl.cfg s) (RobustCrawl.st0 s) evs) = [] /\
         results (run (RobustCrawl.cfg s) (RobustCrawl.st0 s) evs) = [] /\
         crashed (run (RobustCrawl.cfg s) (RobustCrawl.st0 s) evs) = None) /\
  (forall fuel w max_pages concurrency ignore_robots no_playwright extract,
     exists s,
       RobustCrawl.robust_crawl_start fuel w start_url max_pages concurrency
         ignore_robots false no_playwright extract = Some (Ret s) /\
       RobustCrawl.seed_requests s = []) /\
  (forall robots browser_context max_pages concurrency ignore_robots extract,
     exists cfg st,
       AiCrawl.crawl_start robots browser_context start_url max_pages concurrency
         ignore_robots extract = Ret (cfg, st) /\
       forall evs,
         plain_fetches (run cfg st evs) = [] /\
         render_fetches (run cfg st evs) = [] /\
         results (run cfg st evs) = [] /\
         crashed (run cfg st evs) = None).
Proof.
  intros Hci Hp Hup.
  destruct (NormalizerFacts.normalize_url_upper_host start_url parsed Hci Hp Hup)
    as (sn & nl & Hprod & Hai & Hnl & Hne).
  assert (Hquiet : forall cfg st evs, quiet cfg st ->
            plain_fetches (run cfg st evs) = [] /\
            render_fetches (run cfg st evs) = [] /\
            results (run cfg st evs) = [] /\
            crashed (run cfg st evs) = None).
  { intros cfg st evs Hq. destruct (quiet_run cfg evs st Hq) as [_ _ H1 H2 H3 H4].
    auto. }
  split; [|split].
  - intros fuel w max_pages concurrency ignore_robots use_sitemaps no_playwright
           extract r.
    unfold RobustCrawl.robust_crawl_start. rewrite Hp, Hprod.
    destruct (if use_sitemaps then _ else _) as [[extra log]|] eqn:Hseed;
      [|discriminate].
    intros E. injection E as <-. eexists. split; [reflexivity|].
    intros evs. apply Hquiet. cbn [RobustCrawl.cfg RobustCrawl.st0].
    apply quiet_init, Forall_fmap, Forall_forall. intros x Hx.
    rewrite sorted_perm in Hx. apply (proj1 (elem_of_remove_dups (sn :: extra) x)) in Hx.
    right. cbn [base_host].
    apply elem_of_cons in Hx as [->|Hx].
    + exists sn, nl. auto.
    + destruct use_sitemaps; [|injection Hseed as <- <-; inversion Hx].
      destruct (seed_from_sitemaps_normalized _ _ _ _ _ _ Hseed x Hx) as (u & Hu).
      destruct (NormalizerFacts.products_normalize_url_lower_host u None x Hci Hu)
        as (nl' & Hnl' & Hlow).
      exists x, nl'. split; [reflexivity|]. split; [exact Hnl'|].
      intros ->. congruence.
  - intros fuel w max_pages concurrency ignore_robots no_playwright extract.
    unfold RobustCrawl.robust_crawl_start. rewrite Hp, Hprod.
    eexists. split; reflexivity.
  - intros robots bc max_pages concurrency ignore_robots extract.
    unfold AiCrawl.crawl_start. rewrite Hp, Hai.
    eexists _, _. split; [reflexivity|].
    intros evs. apply Hquiet, quiet_init. constructor; [|constructor].
    right. exists sn, nl. auto.
Qed.

End WithHostCheck.

Import RobustCrawl CrawlExamples.

(** With [use_sitemaps], on a site without sitemap, the seeding fetches the
    start page to look for sitemap links, and the first worker fetches it
    again: the run hands the same URL twice to [fetch_plain]. *)
Lemma start_url_fetched_twice :
  exists s,
    robust_crawl_start (hc := no_bracketed_hosts) 2 no_sitemap_web "http://x.com/" 10 1
      false true true no_links = Some (Ret s) /\
    seed_fetches s = ["http://x.com/"] /\
    plain_fetches (run (hc := no_bracketed_hosts) (cfg s) (st0 s) [Resume 0])
      = ["http://x.com/"] /\
    fetched_urls s (run (hc := no_bracketed_hosts) (cfg s) (st0 s) [Resume 0])
      = ["http://x.com/"; "http://x.com/"] /\
    ~ NoDup (fetched_urls s (run (hc := no_bracketed_hosts) (cfg s) (st0 s) [Resume 0])).
Proof.
  eexists. split; [vm_compute; reflexivity|].
  split; [reflexivity|]. split; [reflexivity|]. split; [reflexivity|].
  intros Hnd. change (NoDup ["http://x.com/"; "http://x.com/"]) in Hnd.
  apply NoDup_cons in Hnd as [Hnd _]. apply Hnd. left.
Qed.

(** The start of [robust_crawl] on the site without sitemap *)
Lemma no_sitemap_web_start (n : nat) (extract : string -> string -> py (list string)) :
  robust_crawl_start (hc := no_bracketed_hosts) 2 no_sitemap_web "http://x.com/" 10 n
    false true true extract
  = Some (Ret (mkStarted
                 (mkConfig ProductsVariant "x.com" 10 (Some (fun _ => true)) false false
                           extract)
                 (init n [Some "http://x.com/"])
                 (map Probe (sitemap_candidates "http://x.com")
                  ++ [FetchPlain "http://x.com/"]))).
Proof. vm_compute. reflexivity. Defined.

(** The start of [crawl] on the same start URL *)
Lemma ai_crawl_start (n : nat) (extract : string -> string -> py (list string)) :
  AiCrawl.crawl_start (hc := no_bracketed_hosts) None false "http://x.com/" 10 n
    false extract
  = Ret (mkConfig AiVariant "x.com" 10 None false false extract,
         init n [Some "http://x.com/"]).
Proof. vm_compute. reflexivity. Defined.

Lemma workers_fetch_each_url_once_witness :
  (robust_crawl_start (hc := no_bracketed_hosts) 2 no_sitemap_web "http://x.com/" 10 2
     false true true tracking_links = Some (Ret tracking_start) /\
   seed_fetches tracking_start = ["http://x.com/"] /\
   plain_fetches (run (hc := no_bracketed_hosts) (cfg tracking_start) (st0 tracking_start)
                      two_worker_run)
     = ["http://x.com/"; "http://x.com/a"; "http://x.com/b"; "http://x.com/page"] /\
   fetched_once (run (hc := no_bracketed_hosts) (cfg tracking_start) (st0 tracking_start)
                     two_worker_run) /\
   frontier_ok (run (hc := no_bracketed_hosts) (cfg tracking_start) (st0 tracking_start)
                    two_worker_run)) /\
  (visit_log (run (hc := no_bracketed_hosts)
                  (mkConfig AiVariant "x.com" 10 None false false tracking_links)
                  (init 2 [Some "http://x.com/"]) two_worker_run)
     = ["http://x.com/"; "http://x.com/a"; "http://x.com/b"; "http://x.com/page"] /\
   fetched_once (run (hc := no_bracketed_hosts)
                     (mkConfig AiVariant "x.com" 10 None false false tracking_links)
                     (init 2 [Some "http://x.com/"]) two_worker_run) /\
   frontier_ok (run (hc := no_bracketed_hosts)
                    (mkConfig AiVariant "x.com" 10 None false false tracking_links)
                    (init 2 [Some "http://x.com/"]) two_worker_run)).
Proof.
  split.
  - split; [exact (no_sitemap_web_start 2 tracking_links)|].
    split; [reflexivity|]. split; [vm_compute; reflexivity|].
    pose proof (proj1 (workers_fetch_each_url_once (hc := no_bracketed_hosts))
                  2 no_sitemap_web "http://x.com/" 10 2 false true true tracking_links
                  tracking_start two_worker_run (no_sitemap_web_start 2 tracking_links))
      as (H1 & H2 & _).
    split; [exact H1|exact H2].
  - split; [vm_compute; reflexivity|].
    pose proof (proj2 (workers_fetch_each_url_once (hc := no_bracketed_hosts))
                  None false "http://x.com/" 10 2 false tracking_links
                  _ _ two_worker_run (ai_crawl_start 2 tracking_links))
      as (H1 & H2 & _).
    split; [exact H1|exact H2].
Defined.

(** The scenario of a page reached through a link with a tracking parameter
    and through a link without: it is fetched once. *)
Example duplicate_via_tracking_params :
  plain_fetches
    (run (hc := no_bracketed_hosts)
         (mkConfig ProductsVariant "x.com" 10 None false false tracking_links)
         (init 1 [Some "http://x.com/"]) one_worker_run)
  = ["http://x.com/"; "http://x.com/a"; "http://x.com/b"; "http://x.com/page"].
Proof. vm_compute. reflexivity. Qed.

(** C1.  The budget test and [visited.add] are separated by the [await] of
    the fetch.  With a budget of one page, two workers and a sitemap that
    gives the queue a second URL, each worker passes the test while
    [visited] is empty and starts its fetch; when both fetches have ended
    [visited] holds two URLs. *)
Theorem visited_exceeds_max_pages :
  exists s,
    robust_crawl_start (hc := no_bracketed_hosts) 2 two_page_web "http://x.com/" 1 2
      false true true no_links = Some (Ret s) /\
    max_pages (cfg s) = 1 /\
    q (st0 s) = [Some "http://x.com/"; Some "http://x.com/a"] /\
    workers (run (hc := no_bracketed_hosts) (cfg s) (st0 s) [Resume 0; Resume 1])
      = [AwaitPlain "http://x.com/"; AwaitPlain "http://x.com/a"] /\
    visit_log (run (hc := no_bracketed_hosts) (cfg s) (st0 s) overlapping_run)
      = ["http://x.com/"; "http://x.com/a"] /\
    size (visited (run (hc := no_bracketed_hosts) (cfg s) (st0 s) overlapping_run)) = 2.
Proof.
  eexists. split; [vm_compute; reflexivity|].
  repeat split; vm_compute; reflexivity.
Qed.

(** C6.  With [use_sitemaps] and no sitemap at the usual places,
    [robust_crawl] fetches the start page to look for sitemap links before
    any worker runs, and does not ask the robots policy: on a site whose
    robots.txt disallows every path the start URL is fetched by
    [fetch_plain].  The workers then skip it: in no run do they fetch it. *)
Theorem seeding_fetches_blocked_start_url :
  exists s,
    robust_crawl_start (hc := no_bracketed_hosts) 2 closed_web "http://x.com/" 10 2
      false true true no_links = Some (Ret s) /\
    ignore_robots (cfg s) = false /\
    (exists can_fetch, rp (cfg s) = Some can_fetch /\ can_fetch "http://x.com/" = false) /\
    FetchPlain "http://x.com/" ∈ seed_requests s /\
    forall evs,
      ("http://x.com/" ∉ plain_fetches (run (hc := no_bracketed_hosts) (cfg s) (st0 s) evs)) /\
      ("http://x.com/" ∉ render_fetches (run (hc := no_bracketed_hosts) (cfg s) (st0 s) evs)).
Proof.
  eexists. split; [vm_compute; reflexivity|].
  split; [reflexivity|]. split; [eexists; split; reflexivity|].
  split.
  - simpl. rewrite !elem_of_cons. auto 10.
  - intros evs.
    apply (workers_respect_robots (hc := no_bracketed_hosts) _ 2
             [Some "http://x.com/"] evs (fun _ => false));
      [apply NoDup_singleton|reflexivity..].
Qed.

(** With [use_sitemaps] and no sitemap at the usual places, [robust_crawl]
    fetches the start page with the upper-case host before any worker
    runs: a page is fetched. *)
Lemma seeding_fetches_upper_case_start_url :
  exists s,
    robust_crawl_start (hc := no_bracketed_hosts) 2 upper_web "http://X.com/" 10 2
      false true true no_links = Some (Ret s) /\
    base_host (cfg s) = "X.com" /\
    has_upper (base_host (cfg s)) = true /\
    FetchPlain "http://X.com/" ∈ seed_requests s /\
    forall evs,
      "http://X.com/"
      ∈ fetched_urls s (run (hc := no_bracketed_hosts) (cfg s) (st0 s) evs).
Proof.
  eexists. split; [vm_compute; reflexivity|].
  split; [reflexivity|]. split; [reflexivity|]. split.
  - simpl. rewrite !elem_of_cons. auto 10.
  - intros evs. unfold fetched_urls. apply elem_of_app. left.
    simpl. apply list_elem_of_here.
Qed.

Lemma uppercase_host_workers_fetch_nothing_witness :
  has_upper "X.com" = true /\
  exists cfg st,
    AiCrawl.crawl_start (hc := no_bracketed_hosts) None false "http://X.com/" 10 2
      false no_links = Ret (cfg, st) /\
    forall evs,
      plain_fetches (run (hc := no_bracketed_hosts) cfg st evs) = [] /\
      render_fetches (run (hc := no_bracketed_hosts) cfg st evs) = [] /\
      results (run (hc := no_bracketed_hosts) cfg st evs) = [] /\
      crashed (run (hc := no_bracketed_hosts) cfg st evs) = None.
Proof.
  split; [reflexivity|].
  refine (proj2 (proj2 (uppercase_host_workers_fetch_nothing (hc := no_bracketed_hosts)
            "http://X.com/"
            (UrlParse.mkParseResult "http" "X.com" "/" "" "" "") _ _ _))
            None false 10 2 false no_links).
  - intros h Hh. discriminate Hh.
  - vm_compute. reflexivity.
  - reflexivity.
Defined.

End CrawlFacts.

(** * More properties of the code *)

(** ** The worker pool *)

Module CrawlShape.
Import PyStr Crawl CrawlInvariants.

Section WithHostCheck.
Context {hc : HostCheck}.

(** What one event can do to the shared state *)
Lemma step_cases (cfg : config) (st : state) (ev : event) :
  step cfg st ev = st \/
  (exists w ws, workers st !! w = Some ws /\ inflight_url ws = [] /\
                ws <> Finished /\ step cfg st ev = resume cfg st w) \/
  (exists w url html, workers st !! w = Some (AwaitPlain url) /\
                wants_render cfg html = true /\
                step cfg st ev =
                mkState (q st) (discovered st) (visited st) (results st)
                        (<[w := AwaitRender url html]> (workers st))
                        (plain_fetches st) (render_fetches st ++ [url])
                        (visit_log st) (crashed st)) \/
  (exists w url html, workers st !! w = Some (AwaitPlain url) /\
                wants_render cfg html = false /\
                step cfg st ev = finish_page cfg st w url html [] false) \/
  (exists w url html0 html cands used,
                workers st !! w = Some (AwaitRender url html0) /\
                (used = false -> which cfg = ProductsVariant) /\
                step cfg st ev = finish_page cfg st w url html cands used) \/
  (exists w url html0 e, workers st !! w = Some (AwaitRender url html0) /\
                which cfg = AiVariant /\
                step cfg st ev = crash st w e).
Proof.
  unfold step.
  destruct ev as [w|w html|w content cands|w e];
    destruct (workers st !! w) as [[|url|url html0| |]|] eqn:Hw; auto.
  - right. left. exists w, Ready. repeat split; auto; discriminate.
  - right. left. exists w, Asleep. repeat split; auto; discriminate.
  - destruct (wants_render cfg html) eqn:Hr.
    + right. right. left. exists w, url, html. auto.
    + right. right. right. left. exists w, url, html. auto.
  - do 4 right. left. destruct (which cfg) eqn:Hv.
    + exists w, url, html0, (content_or content html0), cands, true.
      repeat split; auto; discriminate.
    + exists w, url, html0, content, cands, true. repeat split; auto; discriminate.
  - destruct (which cfg) eqn:Hv.
    + do 4 right. left. exists w, url, html0, html0, [], false. auto.
    + do 5 right. exists w, url, html0, e. auto.
Qed.

(** What [resume] does to the logs and to the workers *)
Lemma resume_cases (cfg : config) (st : state) (w : nat) :
  exists skipped ws,
    workers (resume cfg st w) = <[w := ws]> (workers st) /\
    visit_log (resume cfg st w) = visit_log st ++ skipped /\
    visited (resume cfg st w) = list_to_set skipped ∪ visited st /\
    render_fetches (resume cfg st w) = render_fetches st /\
    results (resume cfg st w) = results st /\
    discovered (resume cfg st w) = discovered st /\
    ((exists url, ws = AwaitPlain url /\ gate cfg url /\
                  size (visited (resume cfg st w)) < max_pages cfg /\
                  plain_fetches (resume cfg st w) = plain_fetches st ++ [url] /\
                  crashed (resume cfg st w) = crashed st /\
                  (Some <$> skipped) ++ Some url :: q (resume cfg st w) ⊆+ q st) \/
     (ws = Finished /\ plain_fetches (resume cfg st w) = plain_fetches st /\
      (Some <$> skipped) ++ q (resume cfg st w) ⊆+ q st)).
Proof.
  unfold resume.
  destruct (loop_head cfg (q st) (visited st) (visit_log st))
    as [[[q' v'] log'] out] eqn:Hlh.
  destruct (CrawlFacts.loop_head_spec _ _ _ _ _ _ _ _ Hlh) as (sk & -> & -> & Hout).
  destruct (CrawlFacts.loop_head_budget _ _ _ _ _ _ _ _ Hlh) as [_ Hb].
  destruct out as [url| |e]; cbn.
  - exists sk, (AwaitPlain url). repeat (split; [reflexivity|]). left.
    destruct Hout as (Hsub & Hrob & Hnl).
    exists url. repeat split; eauto.
  - exists sk, Finished. repeat (split; [reflexivity|]). right. auto.
  - exists sk, Finished. repeat (split; [reflexivity|]). right. auto.
Qed.

(** What [finish_page] does: the page is marked as visited and the worker
    leaves the fetch; when the page has content and parses, it is reported
    and its new links of the start host join the queue. *)
Lemma finish_page_cases (cfg : config) (st : state) (w : nat) (url : string)
    (html : option string) (cands : list string) (used : bool) :
  let st' := finish_page cfg st w url html cands used in
  exists ws added,
    inflight_url ws = [] /\
    workers st' = <[w := ws]> (workers st) /\
    visit_log st' = visit_log st ++ [url] /\
    visited st' = {[url]} ∪ visited st /\
    plain_fetches st' = plain_fetches st /\
    render_fetches st' = render_fetches st /\
    q st' = q st ++ (Some <$> added) /\
    discovered st' = list_to_set (Some <$> added) ∪ discovered st /\
    Forall (fun l => netloc_of l = Some (base_host cfg)) added /\
    (results st' = results st \/
     exists links, results st' = results st ++ [mkPageResult url used links]).
Proof.
  cbv zeta. unfold finish_page.
  destruct (falsy html).
  { exists Asleep, []. cbn. rewrite app_nil_r.
    repeat (split; [first [reflexivity | set_solver | constructor]|]). auto. }
  destruct (extract_links_from_html cfg url (default "" html)) as [found|e].
  2:{ exists Finished, []. cbn. rewrite app_nil_r.
      repeat (split; [first [reflexivity | set_solver | constructor]|]). auto. }
  destruct (enqueue cfg _ (q st) (discovered st)) as [[q' disc'] err] eqn:Henq.
  assert (Hon : forall links q0 d0 q1 d1 err1,
             enqueue cfg links q0 d0 = (q1, d1, err1) ->
             exists added, q1 = q0 ++ (Some <$> added) /\
                           d1 = list_to_set (Some <$> added) ∪ d0 /\
                           Forall (fun l => netloc_of l = Some (base_host cfg)) added).
  { clear. induction links as [|l links IH]; intros q0 d0 q1 d1 err1 H; cbn in H.
    - injection H as <- <- <-. exists []. cbn. rewrite app_nil_r.
      split; [reflexivity|]. split; [set_solver|constructor].
    - destruct (negb (nonempty l)); [eauto|].
      destruct (skipped_extension cfg l); [eauto|].
      destruct (netloc_of l) as [nl|] eqn:Hnl.
      2:{ injection H as <- <- <-. exists []. cbn. rewrite app_nil_r.
          split; [reflexivity|]. split; [set_solver|constructor]. }
      destruct (String.eqb_spec nl (base_host cfg)) as [->|Hne]; cbn in H; [|eauto].
      destruct (negb (bool_decide (Some l ∈ d0))); [|eauto].
      destruct (IH _ _ _ _ _ H) as (added & -> & -> & Hall).
      exists (l :: added). cbn. rewrite <- app_assoc. cbn.
      split; [reflexivity|]. split; [set_solver|]. constructor; assumption. }
  destruct (Hon _ _ _ _ _ _ Henq) as (added & -> & -> & Hall).
  exists (match err with None => Asleep | Some _ => Finished end), added. cbn.
  split; [destruct err; reflexivity|].
  repeat (split; [first [reflexivity | assumption]|]). right. eauto.
Qed.

End WithHostCheck.
End CrawlShape.

Module CrawlExtras.
Import PyStr Crawl CrawlInvariants CrawlShape.

Section WithHostCheck.
Context {hc : HostCheck}.

Lemma run_invariant (cfg : config) (P : state -> Prop) :
  (forall st ev, P st -> P (step cfg st ev)) ->
  forall evs st, P st -> P (run cfg st evs).
Proof.
  intros Hstep. induction evs as [|ev evs IH]; intros st H; [exact H|].
  apply IH, Hstep, H.
Qed.

Lemma workers_init (n : nat) (P : wstate -> Prop) :
  P Ready -> Forall P (replicate n Ready).
Proof. intros H. apply Forall_replicate, H. Qed.

(** Every fetch a worker has started or is waiting for passed the gate *)
Lemma gate_step (cfg : config) (st : state) (ev : event) :
  Forall (gate cfg) (plain_fetches st) /\ Forall (gate cfg) (render_fetches st) /\
  Forall (fun ws => Forall (gate cfg) (inflight_url ws)) (workers st) ->
  Forall (gate cfg) (plain_fetches (step cfg st ev)) /\
  Forall (gate cfg) (render_fetches (step cfg st ev)) /\
  Forall (fun ws => Forall (gate cfg) (inflight_url ws)) (workers (step cfg st ev)).
Proof.
  intros (Hp & Hr & Hw).
  destruct (step_cases cfg st ev)
    as [->|[(w & ws & Hl & Hi & _ & ->)|[(w & url & html & Hl & _ & ->)|
       [(w & url & html & Hl & _ & ->)|[(w & url & h0 & html & cands & used & Hl & _ & ->)|
        (w & url & h0 & e & Hl & _ & ->)]]]]]; [auto| | | | |].
  - destruct (resume_cases cfg st w)
      as (sk & ws' & -> & _ & _ & -> & _ & _ & [(url & -> & Hg & _ & -> & _)|(-> & -> & _)]).
    + split; [apply Forall_app; auto|]. split; [exact Hr|].
      apply Forall_insert; [exact Hw|]. cbn. auto.
    + split; [exact Hp|]. split; [exact Hr|].
      apply Forall_insert; [exact Hw|]. constructor.
  - pose proof (Forall_lookup_1 _ _ _ _ Hw Hl) as Hg. cbn in Hg.
    cbn. split; [exact Hp|]. split; [apply Forall_app; auto|].
    apply Forall_insert; [exact Hw|]. exact Hg.
  - destruct (finish_page_cases cfg st w url html [] false)
      as (ws' & added & Hi & -> & _ & _ & -> & -> & _).
    split; [exact Hp|]. split; [exact Hr|].
    apply Forall_insert; [exact Hw|]. rewrite Hi. constructor.
  - destruct (finish_page_cases cfg st w url html cands used)
      as (ws' & added & Hi & -> & _ & _ & -> & -> & _).
    split; [exact Hp|]. split; [exact Hr|].
    apply Forall_insert; [exact Hw|]. rewrite Hi. constructor.
  - cbn. split; [exact Hp|]. split; [exact Hr|].
    apply Forall_insert; [exact Hw|]. constructor.
Qed.

(** X1.  In every run of the worker pool, of either crawler, for every
    number of workers, every seed list and every interleaving, each URL
    handed to the plain fetch or to the renderer is a URL of the start host
    ([urlparse(url).netloc == base_host]) that the robots policy, when one
    is loaded and not ignored, allows. *)
Theorem workers_fetch_only_allowed_urls_of_start_host (cfg : config) (n : nat)
    (seeds : list (option string)) (evs : list event) :
  Forall (gate cfg)
         (plain_fetches (run cfg (init n seeds) evs)
          ++ render_fetches (run cfg (init n seeds) evs)).
Proof.
  assert (H : Forall (gate cfg) (plain_fetches (run cfg (init n seeds) evs)) /\
              Forall (gate cfg) (render_fetches (run cfg (init n seeds) evs)) /\
              Forall (fun ws => Forall (gate cfg) (inflight_url ws))
                     (workers (run cfg (init n seeds) evs))).
  { apply (run_invariant cfg
             (fun st => Forall (gate cfg) (plain_fetches st) /\
                        Forall (gate cfg) (render_fetches st) /\
                        Forall (fun ws => Forall (gate cfg) (inflight_url ws))
                               (workers st))).
    - apply gate_step.
    - cbn. split; [constructor|]. split; [constructor|].
      apply workers_init. constructor. }
  destruct H as (Hp & Hr & _). apply Forall_app. auto.
Qed.

(** X2.  The number of visited URLs never exceeds the page budget by more
    than the number of workers less one, whatever the interleaving; with a
    single worker it never exceeds the budget. *)
Theorem visited_overshoot_at_most_workers_less_one (cfg : config) (n : nat)
    (seeds : list (option string)) (evs : list event) :
  size (visited (run cfg (init n seeds) evs)) <= max_pages cfg + (n - 1) /\
  size (visited (run cfg (init 1 seeds) evs)) <= max_pages cfg.
Proof.
  split.
  - apply (CrawlFacts.visited_within_budget_plus_workers cfg n seeds evs).
  - apply (CrawlFacts.visited_within_budget_plus_workers cfg 1 seeds evs). reflexivity.
Qed.

Lemma no_render_step (cfg : config) (st : state) (ev : event) :
  use_pw cfg = false ->
  render_fetches st = [] /\
  Forall (fun ws => render_url ws = []) (workers st) /\
  Forall (fun r => rendered_with_playwright r = false) (results st) ->
  render_fetches (step cfg st ev) = [] /\
  Forall (fun ws => render_url ws = []) (workers (step cfg st ev)) /\
  Forall (fun r => rendered_with_playwright r = false) (results (step cfg st ev)).
Proof.
  intros Hpw (Hr & Hw & Hres).
  assert (Hidle : forall ws, inflight_url ws = [] -> render_url ws = [])
    by (intros []; cbn; congruence).
  destruct (step_cases cfg st ev)
    as [->|[(w & ws & Hl & Hi & _ & ->)|[(w & url & html & Hl & Hwr & ->)|
       [(w & url & html & Hl & _ & ->)|[(w & url & h0 & html & cands & used & Hl & _ & ->)|
        (w & url & h0 & e & Hl & _ & ->)]]]]]; [auto| | | | |].
  - destruct (resume_cases cfg st w)
      as (sk & ws' & -> & _ & _ & -> & -> & _ & Hcase).
    split; [exact Hr|]. split; [|exact Hres].
    apply Forall_insert; [exact Hw|].
    destruct Hcase as [(url & -> & _)|(-> & _)]; reflexivity.
  - unfold wants_render in Hwr. rewrite Hpw in Hwr. discriminate.
  - destruct (finish_page_cases cfg st w url html [] false)
      as (ws' & added & Hi & -> & _ & _ & _ & -> & _ & _ & _ & Hcase).
    split; [exact Hr|]. split; [apply Forall_insert; auto|].
    destruct Hcase as [->|(links & ->)]; [exact Hres|].
    apply Forall_app. split; [exact Hres|]. constructor; [reflexivity|constructor].
  - pose proof (Forall_lookup_1 _ _ _ _ Hw Hl) as Hn. discriminate Hn.
  - pose proof (Forall_lookup_1 _ _ _ _ Hw Hl) as Hn. discriminate Hn.
Qed.

(** X3.  Without a browser context ([no_playwright], Playwright not
    installed, or its start failed) no page is ever handed to the renderer,
    and every reported page has [rendered_with_playwright] false. *)
Theorem no_browser_no_render (cfg : config) (n : nat) (seeds : list (option string))
    (evs : list event) :
  use_pw cfg = false ->
  render_fetches (run cfg (init n seeds) evs) = [] /\
  Forall (fun r => rendered_with_playwright r = false)
         (results (run cfg (init n seeds) evs)).
Proof.
  intros Hpw.
  assert (H : render_fetches (run cfg (init n seeds) evs) = [] /\
              Forall (fun ws => render_url ws = []) (workers (run cfg (init n seeds) evs)) /\
              Forall (fun r => rendered_with_playwright r = false)
                     (results (run cfg (init n seeds) evs))).
  { apply (run_invariant cfg
             (fun st => render_fetches st = [] /\
                        Forall (fun ws => render_url ws = []) (workers st) /\
                        Forall (fun r => rendered_with_playwright r = false) (results st))).
    - intros st ev. apply no_render_step, Hpw.
    - cbn. split; [reflexivity|]. split; [|constructor].
      apply workers_init. reflexivity. }
  destruct H as (Hr & _ & Hres). auto.
Qed.

Lemma reported_step (cfg : config) (st : state) (ev : event) :
  reported st `sublist_of` visit_log st /\
  (forall u, u ∈ reported st -> u ∈ plain_fetches st) /\
  Forall (fun ws => forall u, u ∈ inflight_url ws -> u ∈ plain_fetches st) (workers st) ->
  reported (step cfg st ev) `sublist_of` visit_log (step cfg st ev) /\
  (forall u, u ∈ reported (step cfg st ev) -> u ∈ plain_fetches (step cfg st ev)) /\
  Forall (fun ws => forall u, u ∈ inflight_url ws -> u ∈ plain_fetches (step cfg st ev))
         (workers (step cfg st ev)).
Proof.
  intros (Hs & Hp & Hw).
  assert (Hfin : forall w ws url html cands used,
             workers st !! w = Some ws -> inflight_url ws = [url] ->
             let st' := finish_page cfg st w url html cands used in
             reported st' `sublist_of` visit_log st' /\
             (forall u, u ∈ reported st' -> u ∈ plain_fetches st') /\
             Forall (fun ws => forall u, u ∈ inflight_url ws -> u ∈ plain_fetches st')
                    (workers st')).
  { intros w ws url html cands used Hl Hi. cbv zeta.
    destruct (finish_page_cases cfg st w url html cands used)
      as (ws' & added & Hi' & Hws & Hlog & _ & Hpl & _ & _ & _ & _ & Hcase).
    rewrite Hws, Hlog, Hpl. unfold reported in *.
    assert (Hurl : url ∈ plain_fetches st).
    { apply (Forall_lookup_1 _ _ _ _ Hw Hl). rewrite Hi. left. }
    split; [|split].
    - destruct Hcase as [->|(links & ->)].
      + apply sublist_inserts_r, Hs.
      + rewrite map_app. cbn. apply sublist_app; [exact Hs|reflexivity].
    - destruct Hcase as [->|(links & ->)]; [exact Hp|].
      intros u. rewrite map_app, elem_of_app. cbn. intros [Hu|Hu]; [auto|].
      apply list_elem_of_singleton in Hu. subst u. exact Hurl.
    - apply Forall_insert; [exact Hw|]. rewrite Hi'. intros u Hu. inversion Hu. }
  destruct (step_cases cfg st ev)
    as [->|[(w & ws & Hl & Hi & _ & ->)|[(w & url & html & Hl & Hwr & ->)|
       [(w & url & html & Hl & _ & ->)|[(w & url & h0 & html & cands & used & Hl & _ & ->)|
        (w & url & h0 & e & Hl & _ & ->)]]]]]; [auto| | | | |].
  - destruct (resume_cases cfg st w)
      as (sk & ws' & -> & -> & _ & _ & Hres & _ & Hcase).
    unfold reported in *. rewrite Hres.
    split; [apply sublist_inserts_r, Hs|].
    destruct Hcase as [(url & -> & _ & _ & -> & _)|(-> & -> & _)].
    + split; [intros u Hu; apply elem_of_app; auto|].
      apply Forall_insert.
      * eapply Forall_impl; [exact Hw|]. intros x Hx u Hu. apply elem_of_app. auto.
      * cbn. intros u Hu. apply elem_of_app. right. exact Hu.
    + split; [exact Hp|]. apply Forall_insert; [exact Hw|].
      intros u Hu. inversion Hu.
  - cbn. split; [exact Hs|]. split; [exact Hp|].
    apply Forall_insert; [exact Hw|].
    exact (Forall_lookup_1 _ _ _ _ Hw Hl).
  - apply (Hfin w _ url html [] false Hl eq_refl).
  - apply (Hfin w _ url html cands used Hl eq_refl).
  - cbn. split; [exact Hs|]. split; [exact Hp|].
    apply Forall_insert; [exact Hw|]. intros u Hu. inversion Hu.
Qed.

(** X4.  The results list reports no page twice, reports only pages that
    were handed to the plain fetch and then added to [visited], and is never
    longer than [visited]. *)
Theorem reported_pages_fetched_and_visited_once (cfg : config) (n : nat)
    (seeds : list (option string)) (evs : list event) :
  NoDup seeds ->
  NoDup (reported (run cfg (init n seeds) evs)) /\
  (forall u, u ∈ reported (run cfg (init n seeds) evs) ->
     u ∈ plain_fetches (run cfg (init n seeds) evs) /\
     u ∈ visited (run cfg (init n seeds) evs)) /\
  length (results (run cfg (init n seeds) evs))
    <= size (visited (run cfg (init n seeds) evs)).
Proof.
  intros Hnd.
  destruct (CrawlFacts.init_ok cfg n seeds Hnd) as [L F].
  destruct (CrawlFacts.run_ok cfg evs _ L F) as [[_ _ Lv Lvis _ _] _].
  assert (H : reported (run cfg (init n seeds) evs)
                `sublist_of` visit_log (run cfg (init n seeds) evs) /\
              (forall u, u ∈ reported (run cfg (init n seeds) evs) ->
                 u ∈ plain_fetches (run cfg (init n seeds) evs)) /\
              Forall (fun ws => forall u, u ∈ inflight_url ws ->
                        u ∈ plain_fetches (run cfg (init n seeds) evs))
                     (workers (run cfg (init n seeds) evs))).
  { apply (run_invariant cfg
             (fun st => reported st `sublist_of` visit_log st /\
                        (forall u, u ∈ reported st -> u ∈ plain_fetches st) /\
                        Forall (fun ws => forall u, u ∈ inflight_url ws ->
                                  u ∈ plain_fetches st) (workers st))).
    - apply reported_step.
    - cbn. split; [constructor|]. split; [intros u Hu; inversion Hu|].
      apply workers_init. intros u Hu. inversion Hu. }
  destruct H as (Hs & Hp & _).
  split; [eapply sublist_NoDup; eauto|]. split.
  - intros u Hu. split; [auto|]. rewrite Lvis. apply elem_of_list_to_set.
    eapply elem_of_sublist; eauto.
  - rewrite Lvis, size_list_to_set by exact Lv.
    apply sublist_length in Hs. unfold reported in Hs. rewrite length_map in Hs.
    exact Hs.
Qed.

(** Replacing the state of one worker changes the count of a kind of
    workers by what that worker counts for *)
Lemma flat_map_insert_length {A} (f : wstate -> list A) (ws : list wstate) (w : nat)
    (old new : wstate) :
  ws !! w = Some old ->
  length (flat_map f (<[w := new]> ws)) + length (f old)
  = length (flat_map f ws) + length (f new).
Proof.
  intros Hl. rewrite <- (take_drop_middle ws w old Hl) at 2.
  rewrite insert_take_drop by (eapply lookup_lt_Some; eauto).
  rewrite !flat_map_app. cbn [flat_map]. rewrite !length_app. lia.
Qed.

Lemma occupied_bound (ws : list wstate) :
  length (flat_map occupied ws) <= length ws.
Proof.
  induction ws as [|x ws IH]; cbn; [lia|]. rewrite length_app.
  destruct x; cbn; lia.
Qed.

(** A worker at its loop head occupies no place *)
Lemma occupied_idle (ws : list wstate) (w : nat) (old : wstate) :
  ws !! w = Some old -> inflight_url old = [] -> old <> Finished ->
  length (flat_map occupied ws) < length ws.
Proof.
  intros Hl Hi Hf.
  pose proof (flat_map_insert_length occupied ws w old Finished Hl) as H.
  pose proof (occupied_bound (<[w := Finished]> ws)) as Hb.
  rewrite length_insert in Hb.
  assert (Ho : occupied old = []) by (destruct old; cbn in *; congruence).
  rewrite Ho in H. cbn in H. lia.
Qed.

(** The fetches started are at most the pages logged as visited plus the
    workers that are in a fetch or over *)
Lemma fetch_count_step (cfg : config) (st : state) (ev : event) :
  length (plain_fetches st)
  <= length (visit_log st) + length (flat_map occupied (workers st)) ->
  length (plain_fetches (step cfg st ev))
  <= length (visit_log (step cfg st ev))
     + length (flat_map occupied (workers (step cfg st ev))).
Proof.
  intros H.
  assert (Hocc : forall ws, inflight_url ws <> [] -> length (occupied ws) = 1).
  { intros []; cbn; congruence. }
  assert (Hle : forall ws, length (occupied ws) <= 1).
  { intros []; cbn; lia. }
  destruct (step_cases cfg st ev)
    as [E|[(w & ws & Hl & Hi & Hf & ->)|[(w & url & html & Hl & Hwr & ->)|
       [(w & url & html & Hl & _ & ->)|[(w & url & h0 & html & cands & used & Hl & _ & ->)|
        (w & url & h0 & e & Hl & _ & ->)]]]]].
  - rewrite E. exact H.
  - assert (Ho : occupied ws = []) by (destruct ws; cbn in *; congruence).
    destruct (resume_cases cfg st w)
      as (sk & ws' & Hws & Hlog & _ & _ & _ & _ & [(url & -> & _ & _ & Hpl & _)|(-> & Hpl & _)]);
      rewrite Hws, Hlog, Hpl;
      pose proof (fun new => flat_map_insert_length occupied _ w ws new Hl) as Hlen;
      rewrite Ho in Hlen; rewrite ?length_app; cbn in *.
    + specialize (Hlen (AwaitPlain url)). cbn in Hlen. lia.
    + specialize (Hlen Finished). cbn in Hlen. lia.
  - cbn.
    pose proof (flat_map_insert_length occupied _ w _ (AwaitRender url html) Hl) as Hlen.
    cbn in Hlen. lia.
  - destruct (finish_page_cases cfg st w url html [] false)
      as (ws' & added & Hi' & Hws & Hlog & _ & Hpl & _).
    rewrite Hws, Hlog, Hpl.
    pose proof (flat_map_insert_length occupied _ w _ ws' Hl) as Hlen.
    pose proof (Hle ws'). rewrite length_app. cbn in *. lia.
  - destruct (finish_page_cases cfg st w url html cands used)
      as (ws' & added & Hi' & Hws & Hlog & _ & Hpl & _).
    rewrite Hws, Hlog, Hpl.
    pose proof (flat_map_insert_length occupied _ w _ ws' Hl) as Hlen.
    pose proof (Hle ws'). rewrite length_app. cbn in *. lia.
  - cbn.
    pose proof (flat_map_insert_length occupied _ w _ Finished Hl) as Hlen.
    cbn in Hlen. lia.
Qed.

(** X5.  The workers start at most [max_pages] plus the number of workers
    less one plain fetches, in every run, also when exceptions end some of
    the workers: the page budget bounds the requests that the worker pool
    makes, not only the size of [visited]. *)
Theorem fetches_bounded_by_budget_plus_workers (cfg : config) (n : nat)
    (seeds : list (option string)) (evs : list event) :
  NoDup seeds ->
  length (plain_fetches (run cfg (init n seeds) evs)) <= max_pages cfg + (n - 1).
Proof.
  intros Hnd.
  assert (Hstep : forall st ev,
             logs_ok cfg st /\ frontier_ok st /\ length (workers st) = n /\
             length (plain_fetches st)
             <= length (visit_log st) + length (flat_map occupied (workers st)) /\
             length (plain_fetches st) <= max_pages cfg + (n - 1) ->
             logs_ok cfg (step cfg st ev) /\ frontier_ok (step cfg st ev) /\
             length (workers (step cfg st ev)) = n /\
             length (plain_fetches (step cfg st ev))
             <= length (visit_log (step cfg st ev))
                + length (flat_map occupied (workers (step cfg st ev))) /\
             length (plain_fetches (step cfg st ev)) <= max_pages cfg + (n - 1)).
  { intros st ev (L & F & Hn & Hc & Hb).
    destruct (CrawlFacts.step_ok cfg st ev L F) as [L' F'].
    pose proof (fetch_count_step cfg st ev Hc) as Hc'.
    split; [exact L'|]. split; [exact F'|].
    destruct (step_cases cfg st ev)
      as [E|[(w & ws & Hl & Hi & Hf & E)|[(w & url & html & Hl & _ & E)|
         [(w & url & html & Hl & _ & E)|[(w & url & h0 & html & cands & used & Hl & _ & E)|
          (w & url & h0 & e & Hl & _ & E)]]]]].
    - rewrite E in *. auto.
    - split; [|split; [exact Hc'|]].
      { rewrite E. destruct (resume_cases cfg st w) as (sk & ws' & -> & _).
        rewrite length_insert. exact Hn. }
      rewrite E in L' |- *.
      destruct (resume_cases cfg st w)
        as (sk & ws' & _ & Hlog & _ & _ & _ & _ &
            [(url & -> & _ & Hsz & Hpl & _)|(-> & Hpl & _)]).
      + destruct L' as [_ _ Lv Lvis _ _].
        rewrite Lvis, size_list_to_set, Hlog in Hsz by exact Lv.
        rewrite Hpl, !length_app in *. cbn.
        pose proof (occupied_idle _ w ws Hl Hi Hf) as Hidle. rewrite Hn in Hidle.
        lia.
      + rewrite Hpl. exact Hb.
    - rewrite E in *. cbn in *. split; [|split; [exact Hc'|exact Hb]].
      rewrite length_insert. exact Hn.
    - rewrite E in *.
      destruct (finish_page_cases cfg st w url html [] false)
        as (ws' & added & _ & Hws & _ & _ & Hpl & _).
      rewrite Hws, Hpl in *. split; [|split; [exact Hc'|exact Hb]].
      rewrite length_insert. exact Hn.
    - rewrite E in *.
      destruct (finish_page_cases cfg st w url html cands used)
        as (ws' & added & _ & Hws & _ & _ & Hpl & _).
      rewrite Hws, Hpl in *. split; [|split; [exact Hc'|exact Hb]].
      rewrite length_insert. exact Hn.
    - rewrite E in *. cbn in *. split; [|split; [exact Hc'|exact Hb]].
      rewrite length_insert. exact Hn. }
  destruct (CrawlFacts.init_ok cfg n seeds Hnd) as [L F].
  apply (run_invariant cfg _ Hstep evs (init n seeds)).
  split; [exact L|]. split; [exact F|]. cbn.
  split; [apply length_replicate|]. split; lia.
Qed.

End WithHostCheck.
End CrawlExtras.

(** ** [normalize_url], both copies *)

Module NormalizeExtras.
Import PyStr UrlParse Normalizer.

Section WithHostCheck.
Context {hc : HostCheck}.

Lemma products_normalize_url_host (u : string) (base : option string) (n : string) :
  case_insensitive hc ->
  Products.normalize_url u base = Some n ->
  exists p, urlparse n = Some p /\ netloc p <> "" /\ has_upper (netloc p) = false.
Proof.
  intros Hci. unfold Products.normalize_url.
  destruct (nonempty u); [|discriminate]. cbn.
  destruct (resolve u base) as [resolved|]; [|discriminate].
  destruct (urlparse resolved) as [parsed|] eqn:Hp; [|discriminate].
  destruct (String.eqb_spec (normalized_netloc parsed) "") as [|Hne]; [discriminate|].
  intros E. injection E as <-.
  assert (Hn : netloc parsed <> "").
  { intros E. apply Hne. unfold normalized_netloc. rewrite E. reflexivity. }
  destruct (NormalizerFacts.urlparse_reassemble resolved parsed Hci Hp Hn)
    as (p' & Hp' & Hn').
  exists p'. split; [exact Hp'|]. rewrite Hn'.
  split; [exact Hne|apply LowerFacts.has_upper_lower].
Qed.

(** X6.  Every URL that the [normalize_url] of
    [python_web_crawler_products.py] returns, with or without a base, is an
    absolute URL: [urlparse] accepts it again, and its host is not empty and
    has no upper-case letter. *)
Theorem normalize_url_returns_url_with_lower_case_host (u : string)
    (base : option string) (n : string) :
  case_insensitive hc ->
  Products.normalize_url u base = Some n ->
  exists p, urlparse n = Some p /\ netloc p <> "" /\ has_upper (netloc p) = false.
Proof. apply products_normalize_url_host. Qed.

(** X7.  The two copies of [normalize_url] agree wherever the copy of
    [python_web_crawler_products.py] returns a URL: that copy returns what
    the copy of [ai_crawler.py] returns, or [None]; it returns [None] where
    the other raises. *)
Theorem normalize_url_copies_agree (u : string) (base : option string) :
  match AiCrawler.normalize_url u base with
  | Ret x => Products.normalize_url u base = x \/ Products.normalize_url u base = None
  | Raise _ => Products.normalize_url u base = None
  end.
Proof.
  unfold AiCrawler.normalize_url, Products.normalize_url.
  destruct (negb (nonempty u)); [left; reflexivity|].
  destruct (resolve u base) as [resolved|]; [|reflexivity].
  destruct (urlparse resolved) as [parsed|]; [|reflexivity].
  destruct (String.eqb (normalized_netloc parsed) ""); auto.
Qed.

(** *** URLs written with their scheme and host *)

Lemma split_scheme_exact (d s rest : string) :
  valid_scheme s = true ->
  split_scheme d ((s +:+ ":") +:+ rest) = (lower s, rest).
Proof.
  intros Hs. unfold split_scheme.
  destruct (UrlParseFacts.valid_scheme_facts s Hs) as (Hne & Hcolon & _).
  rewrite PyStrFacts.app_assoc, (SplitFacts.partition_app ":" s _ Hcolon).
  change (":" +:+ rest) with (String ":" rest). cbn [partition fst snd].
  rewrite Ascii.eqb_refl. cbn [fst snd]. rewrite PyStrFacts.app_nil_r.
  destruct s as [|c0 s]; [congruence|].
  unfold valid_scheme in Hs. rewrite Hs. reflexivity.
Qed.

(** What [urlparse] returns for a URL written as scheme, [://], host and
    the rest *)
Lemma urlparse_written (s h rest : string) :
  valid_scheme s = true -> netloc_ok h = true -> after_netloc rest = true ->
  exists p prm q f,
    urlparse (s +:+ "://" +:+ h +:+ rest) = Some (mkParseResult (lower s) h p prm q f) /\
    forall s' h', valid_scheme s' = true -> netloc_ok h' = true -> lower s' = lower s ->
      urlparse (s' +:+ "://" +:+ h' +:+ rest) = Some (mkParseResult (lower s) h' p prm q f).
Proof.
  intros Hs Hh Hrest.
  assert (Hsplit : forall s' h', valid_scheme s' = true -> netloc_ok h' = true ->
             urlsplit (s' +:+ "://" +:+ h' +:+ rest) ""
             = let '(u4, frag) := partition "#" (remove_unsafe rest) in
               let '(p, q) := partition "?" u4 in
               Some (mkParseResult (lower s') h' p "" (default "" q) (default "" frag))).
  { clear s h Hs Hh. intros s h Hs Hh. unfold urlsplit.
    change ("://" +:+ h +:+ rest) with (":" +:+ "//" +:+ h +:+ rest).
    rewrite <- PyStrFacts.app_assoc.
    assert (Hpre : scheme_prefix (s +:+ ":")) by (right; eauto).
    destruct (UrlParseFacts.scheme_prefix_facts _ Hpre) as (_ & Hsafe & Hl).
    rewrite Hl. unfold remove_unsafe at 1.
    apply UrlParseFacts.netloc_ok_spec in Hh as Hh'. destruct Hh' as (_ & Hsafe' & _).
    rewrite (SplitFacts.filter_str_app _ (s +:+ ":")), (SplitFacts.filter_str_app _ "//"),
      (SplitFacts.filter_str_app _ h).
    rewrite (SplitFacts.filter_str_all _ _ Hsafe), (SplitFacts.filter_str_all _ _ Hsafe').
    change (filter_str (fun c => negb (unsafe_url_byte c)) "//") with "//".
    fold (remove_unsafe rest).
    rewrite (split_scheme_exact "" s _ Hs).
    rewrite (UrlParseFacts.split_netloc_shape h _ Hh
               (UrlParseFacts.after_netloc_remove_unsafe _ Hrest)).
    reflexivity. }
  unfold urlparse, urlparse_with.
  rewrite (Hsplit s h Hs Hh).
  destruct (partition "#" (remove_unsafe rest)) as [u4 frag].
  destruct (partition "?" u4) as [p q]. cbn [scheme path netloc query fragment].
  destruct (mem_str (lower s) uses_params && has_char ";" p) eqn:Hc.
  - destruct (splitparams p) as [p' prm] eqn:Hsp.
    exists p', prm, (default "" q), (default "" frag). split; [reflexivity|].
    intros s' h' Hs' Hh' E. rewrite (Hsplit s' h' Hs' Hh'). cbn [scheme path].
    rewrite E, Hc, Hsp. reflexivity.
  - exists p, "", (default "" q), (default "" frag). split; [reflexivity|].
    intros s' h' Hs' Hh' E. rewrite (Hsplit s' h' Hs' Hh'). cbn [scheme path].
    rewrite E, Hc. reflexivity.
Qed.

(** X8.  The letter case of the scheme and of the host does not matter to
    [normalize_url]: a URL written as scheme, [://], host and the rest
    gives the same result, in both copies, as the URL with the scheme and
    the host in lower case. *)
Theorem normalize_url_ignores_case_of_scheme_and_host (s h rest : string) :
  case_insensitive hc ->
  valid_scheme s = true -> netloc_ok h = true -> after_netloc rest = true ->
  Products.normalize_url (s +:+ "://" +:+ h +:+ rest) None
  = Products.normalize_url (lower s +:+ "://" +:+ lower h +:+ rest) None /\
  AiCrawler.normalize_url (s +:+ "://" +:+ h +:+ rest) None
  = AiCrawler.normalize_url (lower s +:+ "://" +:+ lower h +:+ rest) None.
Proof.
  intros Hci Hs Hh Hrest.
  assert (Hstrip : forall s' h', valid_scheme s' = true -> netloc_ok h' = true ->
             strip_fragment (s' +:+ "://" +:+ h' +:+ rest)
             = s' +:+ "://" +:+ h' +:+ (partition "#" rest).1).
  { intros s' h' Hs' Hh'. unfold strip_fragment.
    destruct (UrlParseFacts.valid_scheme_facts s' Hs') as (_ & _ & Hhash & _).
    apply UrlParseFacts.netloc_ok_spec in Hh' as (Hd & _).
    assert (Hhn : has_char "#" h' = false)
      by (eapply SplitFacts.has_char_all_chars; [exact Hd|reflexivity]).
    rewrite (SplitFacts.partition_app "#" s' _ Hhash). cbn [fst].
    rewrite (SplitFacts.partition_app "#" "://" _ eq_refl). cbn [fst].
    rewrite (SplitFacts.partition_app "#" h' _ Hhn). reflexivity. }
  pose proof (proj2 (proj2 (proj2 (proj2 (proj2 (UrlParseFacts.valid_scheme_facts s Hs))))))
    as Hs'.
  pose proof (UrlParseFacts.netloc_ok_lower _ Hci Hh) as Hh'.
  destruct (urlparse_written s h (partition "#" rest).1 Hs Hh
              (UrlParseFacts.after_netloc_strip _ Hrest))
    as (p & prm & q & f & Hp1 & Hp2).
  specialize (Hp2 (lower s) (lower h) Hs' Hh' (LowerFacts.lower_lower s)).
  assert (Hne : forall s' x, valid_scheme s' = true -> nonempty (s' +:+ x) = true).
  { intros s' x Hv. destruct s'; [discriminate|reflexivity]. }
  assert (Hre : reassemble (mkParseResult (lower s) h p prm q f)
                = reassemble (mkParseResult (lower s) (lower h) p prm q f)).
  { unfold reassemble, normalized_netloc, normalized_scheme. cbn [netloc scheme path query].
    rewrite LowerFacts.lower_lower. reflexivity. }
  unfold Products.normalize_url, AiCrawler.normalize_url, resolve.
  rewrite (Hne s _ Hs), (Hne (lower s) _ Hs'). cbn [negb].
  rewrite (Hstrip s h Hs Hh), (Hstrip (lower s) (lower h) Hs' Hh'), Hp1, Hp2, Hre.
  unfold normalized_netloc. cbn [netloc]. rewrite LowerFacts.lower_lower. auto.
Qed.

(** X9.  A fragment does not matter to [normalize_url]: a URL followed by
    [#] and anything gives the same result as the URL alone. *)
Theorem normalize_url_ignores_fragment (u f : string) :
  has_char "#" u = false ->
  Products.normalize_url (u +:+ "#" +:+ f) None = Products.normalize_url u None /\
  (u <> "" ->
   AiCrawler.normalize_url (u +:+ "#" +:+ f) None = AiCrawler.normalize_url u None).
Proof.
  intros Hu.
  assert (Hs : strip_fragment (u +:+ "#" +:+ f) = strip_fragment u).
  { unfold strip_fragment. rewrite (SplitFacts.partition_app "#" u _ Hu). cbn [fst].
    change ("#" +:+ f) with (String "#" f). cbn [partition fst].
    rewrite Ascii.eqb_refl. cbn [fst]. rewrite PyStrFacts.app_nil_r.
    destruct (partition "#" u) as [h [t|]] eqn:Hp.
    - apply SplitFacts.partition_found in Hp as [-> _].
      rewrite SplitFacts.has_char_app in Hu. cbn [has_char] in Hu.
      rewrite Ascii.eqb_refl, orb_true_r in Hu. discriminate.
    - apply SplitFacts.partition_missing in Hp as [-> _]. reflexivity. }
  unfold Products.normalize_url, AiCrawler.normalize_url, resolve. rewrite Hs.
  assert (Hne : nonempty (u +:+ "#" +:+ f) = true) by (destruct u; reflexivity).
  rewrite Hne. cbn [negb]. split.
  - destruct (nonempty u) eqn:E; [reflexivity|]. cbn [negb].
    apply PyStrFacts.nonempty_false in E. subst u. reflexivity.
  - intros Hu'. apply PyStrFacts.nonempty_true in Hu'. rewrite Hu'. reflexivity.
Qed.

End WithHostCheck.
End NormalizeExtras.

(** ** The query string in [normalize_url] *)

Module QueryFacts.
Import PyStr PyStrFacts SplitFacts UrlParse Normalizer PlainQuery.

Lemma split_single (c : ascii) (x : string) :
  has_char c x = false -> split c x = [x].
Proof.
  induction x as [|a x IH]; intros H; [reflexivity|].
  cbn [has_char] in H. apply orb_false_iff in H as [Ha Hx].
  cbn [split]. rewrite Ha, (IH Hx). reflexivity.
Qed.

Lemma split_item (c : ascii) (x rest : string) :
  has_char c x = false -> split c (x +:+ String c rest) = x :: split c rest.
Proof.
  induction x as [|a x IH]; intros H.
  - rewrite app_nil_l. cbn [split]. rewrite Ascii.eqb_refl. reflexivity.
  - cbn [has_char] in H. apply orb_false_iff in H as [Ha Hx].
    rewrite app_cons. cbn [split]. rewrite Ha, (IH Hx). reflexivity.
Qed.

Lemma split_join (c : ascii) (items : list string) :
  items <> [] -> Forall (fun x => has_char c x = false) items ->
  split c (join (String c "") items) = items.
Proof.
  unfold join. intros Hne Hall. induction Hall as [|x items Hx Hall IH]; [congruence|].
  destruct items as [|y items].
  - cbn [String.concat]. apply split_single, Hx.
  - change (String.concat (String c "") (x :: y :: items))
      with (x +:+ String c (String.concat (String c "") (y :: items))).
    rewrite (split_item _ _ _ Hx), IH; [reflexivity|discriminate].
Qed.

Lemma unquote_plain (s : string) : has_char "%" s = false -> unquote s = s.
Proof.
  induction s as [|c s IH]; intros H; [reflexivity|].
  cbn [has_char] in H. apply orb_false_iff in H as [Hc Hs].
  cbn [unquote]. rewrite Hc, (IH Hs).
  destruct s as [|a [|b r]]; reflexivity.
Qed.

Lemma plus_to_space_plain (s : string) : has_char "+" s = false -> plus_to_space s = s.
Proof.
  unfold plus_to_space. induction s as [|c s IH]; intros H; [reflexivity|].
  cbn [has_char] in H. apply orb_false_iff in H as [Hc Hs].
  cbn [map_str]. rewrite Hc, (IH Hs). reflexivity.
Qed.

Lemma plain_pair_spec (kv : string * string) :
  plain_pair kv = true ->
  has_char "&" (pair_text kv) = false /\
  partition "=" (pair_text kv) = (fst kv, Some (snd kv)) /\
  unquote (plus_to_space (fst kv)) = fst kv /\
  unquote (plus_to_space (snd kv)) = snd kv.
Proof.
  unfold plain_pair, pair_text. destruct kv as [k v]. cbn [fst snd]. intros H.
  repeat (apply andb_true_iff in H as [H ?]).
  repeat match goal with
         | H : negb _ = true |- _ => apply negb_true_iff in H
         end.
  split; [|split; [|split]].
  - rewrite !has_char_app. cbn [has_char].
    repeat match goal with H : has_char _ _ = false |- _ => rewrite H end.
    reflexivity.
  - rewrite partition_app by assumption.
    change ("=" +:+ v) with (String "=" v). cbn [partition fst snd].
    rewrite Ascii.eqb_refl. cbn [fst snd]. rewrite app_nil_r. reflexivity.
  - rewrite plus_to_space_plain, unquote_plain by assumption. reflexivity.
  - rewrite plus_to_space_plain, unquote_plain by assumption. reflexivity.
Qed.

(** [parse_qsl] reads a query of plain pairs as it was written *)
Lemma parse_qsl_plain (pairs : list (string * string)) :
  Forall (fun kv => plain_pair kv = true) pairs ->
  parse_qsl (query_of pairs) = pairs.
Proof.
  intros Hall. unfold parse_qsl, query_of.
  assert (Hflat :
    flat_map
      (fun name_value =>
         if nonempty name_value then
           let '(n, v) := partition "=" name_value in
           [(unquote (plus_to_space n), unquote (plus_to_space (default "" v)))]
         else [])
      (map pair_text pairs) = pairs).
  { induction Hall as [|kv rest Hkv Hall IH]; [reflexivity|].
    cbn [map flat_map].
    destruct (plain_pair_spec kv Hkv) as (_ & Hp & Hk & Hv).
    assert (Hn : nonempty (pair_text kv) = true).
    { apply nonempty_true. unfold pair_text. destruct (fst kv); discriminate. }
    rewrite Hn, Hp. change (default "" (Some kv.2)) with kv.2. rewrite Hk, Hv, IH.
    destruct kv; reflexivity. }
  destruct pairs as [|kv0 pairs]; [reflexivity|].
  assert (Hne : nonempty (join "&" (map pair_text (kv0 :: pairs))) = true).
  { apply nonempty_true. unfold join. cbn [map]. unfold pair_text at 1.
    destruct (map pair_text pairs); cbn [String.concat];
      destruct (fst kv0); discriminate. }
  rewrite Hne. rewrite split_join; [exact Hflat|discriminate|].
  apply Forall_map. eapply Forall_impl; [exact Hall|].
  intros kv Hkv. apply (plain_pair_spec kv Hkv).
Qed.

(** X10.  On a query string of plain pairs (no escape, no plus sign),
    [normalize_url] drops exactly the pairs whose key, lower-cased, starts
    with [utm_] or is [fbclid], [gclid] or [icid], and keeps the others as
    they are, in their order and with their repetitions; normalizing such a
    query twice gives what normalizing it once gives. *)
Theorem normalize_query_drops_tracking_pairs (pairs : list (string * string)) :
  Forall (fun kv => plain_pair kv = true) pairs ->
  normalize_query (query_of pairs)
  = query_of (filter (fun kv => negb (is_tracking (fst kv))) pairs) /\
  normalize_query (normalize_query (query_of pairs)) = normalize_query (query_of pairs).
Proof.
  assert (H : forall l, Forall (fun kv => plain_pair kv = true) l ->
                normalize_query (query_of l)
                = query_of (filter (fun kv => negb (is_tracking (fst kv))) l)).
  { intros l Hl. unfold normalize_query. rewrite (parse_qsl_plain l Hl).
    destruct (filter _ l); reflexivity. }
  intros Hall. split; [apply H, Hall|].
  rewrite (H pairs Hall), H.
  - f_equal. apply list_filter_filter_r. auto.
  - apply Forall_forall. intros kv Hkv. apply list_elem_of_filter in Hkv as [_ Hkv].
    rewrite Forall_forall in Hall. auto.
Qed.

End QueryFacts.

(** ** [extract_links_from_html] and the worker pool of [robust_crawl] *)

Module PageFacts.
Import PyStr Crawl CrawlInvariants CrawlShape HtmlLinks ProductsPool.

Section WithHostCheck.
Context {hc : HostCheck}.

Lemma truthy_spec (n : option string) (x : string) :
  x ∈ truthy n <-> n = Some x /\ x <> "".
Proof.
  unfold truthy. destruct n as [n|]; [|split; [intros H; inversion H|intros [H _]; discriminate]].
  destruct (nonempty n) eqn:Hn.
  - apply PyStrFacts.nonempty_true in Hn. rewrite list_elem_of_singleton.
    split; [intros ->; auto|intros [H _]; congruence].
  - apply PyStrFacts.nonempty_false in Hn. subst n.
    split; [intros H; inversion H|intros [H Hx]; congruence].
Qed.

(** Every link of the extractor is a result of [normalize_url] on some
    candidate, and passed the last loop *)
Lemma extract_links_spec (bs : string -> soup) (base_url html x : string) :
  x ∈ ProductsPage.extract_links_from_html bs base_url html <->
  (exists v, v ∈ raw_candidates (bs html) /\
             Products.normalize_url v (Some base_url) = Some x) /\
  kept ProductsVariant x = true.
Proof.
  unfold ProductsPage.extract_links_from_html, ProductsPage.found.
  rewrite elem_of_remove_dups, list_elem_of_filter, list_elem_of_In, in_flat_map.
  split.
  - intros (Hk & v & Hv & Hx). apply list_elem_of_In, truthy_spec in Hx as [Hx _].
    split; [|apply Is_true_true, Hk]. exists v. split; [apply list_elem_of_In, Hv|exact Hx].
  - intros ((v & Hv & Hx) & Hk). split; [apply Is_true_true, Hk|].
    exists v. split; [apply list_elem_of_In, Hv|].
    apply list_elem_of_In, truthy_spec. split; [exact Hx|].
    unfold kept in Hk. destruct (nonempty x) eqn:Hn; [|discriminate].
    apply PyStrFacts.nonempty_true, Hn.
Qed.

(** X11.  The links that [extract_links_from_html] of
    [python_web_crawler_products.py] returns are pairwise distinct, and each
    of them is an absolute URL with a non-empty host in lower case that
    starts neither with [mailto:] nor with [tel:] and ends with none of the
    skipped extensions, whatever the page holds. *)
Theorem extracted_links_are_normalized (bs : string -> soup) (base_url html : string) :
  case_insensitive hc ->
  NoDup (ProductsPage.extract_links_from_html bs base_url html) /\
  forall l, l ∈ ProductsPage.extract_links_from_html bs base_url html ->
    (exists p, UrlParse.urlparse l = Some p /\ UrlParse.netloc p <> "" /\
               has_upper (UrlParse.netloc p) = false) /\
    startswith "mailto:" (lower l) = false /\
    startswith "tel:" (lower l) = false /\
    existsb (fun ext => endswith ext (lower l)) (extension_skip ProductsVariant) = false.
Proof.
  intros Hci. split; [apply NoDup_remove_dups|].
  intros l Hl. apply extract_links_spec in Hl as ((v & _ & Hn) & Hk).
  split; [apply (NormalizeExtras.products_normalize_url_host v _ l Hci Hn)|].
  unfold kept in Hk.
  apply andb_true_iff in Hk as [Hk Hext]. apply andb_true_iff in Hk as [_ Hk].
  apply negb_true_iff in Hk, Hext. apply orb_false_iff in Hk as [Hm Ht]. auto.
Qed.

Lemma loop_head_parses (cfg : config) (q : list (option string)) :
  Forall parses q ->
  forall visited log q' visited' log' out,
    loop_head cfg q visited log = (q', visited', log', out) ->
    (forall e, out <> LoopRaises e) /\ Forall parses q'.
Proof.
  induction 1 as [|x q Hx Hq IH]; intros visited log q' visited' log' out H.
  - cbn in H. injection H as <- <- <- <-. split; [discriminate|constructor].
  - cbn [loop_head] in H. destruct (size visited <? max_pages cfg).
    2:{ injection H as <- <- <- <-. split; [discriminate|]. constructor; assumption. }
    destruct x as [url|]; [|eauto].
    destruct (negb (nonempty url)); [eauto|].
    destruct (bool_decide (url ∈ visited)); [eauto|].
    destruct (Hx url eq_refl) as [nl Hnl]. rewrite Hnl in H.
    destruct (negb (String.eqb nl (base_host cfg))); [eauto|].
    destruct (blocked_by_robots cfg url); [eauto|].
    injection H as <- <- <- <-. split; [discriminate|assumption].
Qed.

Lemma enqueue_parses (cfg : config) (links : list string) :
  Forall (fun l => is_Some (netloc_of l)) links ->
  forall q d, exists q' d', enqueue cfg links q d = (q', d', None).
Proof.
  induction 1 as [|l links [nl Hl] _ IH]; intros q d; cbn [enqueue]; [eauto|].
  destruct (negb (nonempty l)); [apply IH|].
  destruct (skipped_extension cfg l); [apply IH|].
  rewrite Hl. destruct (_ && _); apply IH.
Qed.

Section Pool.
Variable cfg : config.
Variable bs : string -> soup.
Hypothesis host_check : case_insensitive hc.
Hypothesis products : which cfg = ProductsVariant.
Hypothesis extractor : products_extractor bs (extract_links_from_html cfg).

Lemma products_links_parse (url : string) (html : string) (cands : list string)
    (found : list string) :
  extract_links_from_html cfg url html = Ret found ->
  Forall (fun l => is_Some (netloc_of l))
         (found ++ flat_map (normalized_candidate cfg url) cands).
Proof.
  intros Hf. apply Forall_app. split.
  - apply Forall_forall. intros l Hl.
    destruct (extractor url html) as (links & Hlinks & Hsub).
    rewrite Hf in Hlinks. injection Hlinks as <-.
    apply Hsub, extract_links_spec in Hl as ((v & _ & Hn) & _).
    destruct (NormalizeExtras.products_normalize_url_host v _ l host_check Hn)
      as (p & Hp & _).
    unfold netloc_of. rewrite Hp. eexists. reflexivity.
  - apply Forall_forall. intros l Hl.
    apply list_elem_of_In, in_flat_map in Hl as (raw & _ & Hl).
    unfold normalized_candidate in Hl. rewrite products in Hl.
    destruct (Products.normalize_url raw (Some url)) as [n|] eqn:Hn; [|destruct Hl].
    destruct (nonempty n); [|destruct Hl]. destruct Hl as [<-|[]].
    destruct (NormalizeExtras.products_normalize_url_host raw _ n host_check Hn)
      as (p & Hp & _).
    unfold netloc_of. rewrite Hp. eexists. reflexivity.
Qed.

Lemma finish_page_returns (st : state) (w : nat) (url : string)
    (html : option string) (cands : list string) (used : bool) :
  crashed st = None -> Forall parses (q st) ->
  crashed (finish_page cfg st w url html cands used) = None /\
  Forall parses (q (finish_page cfg st w url html cands used)).
Proof.
  intros Hc Hq. split.
  - unfold finish_page. destruct (falsy html); [exact Hc|].
    destruct (extractor url (default "" html)) as (links & Hlinks & _).
    rewrite Hlinks.
    destruct (enqueue_parses cfg _ (products_links_parse url _ cands links Hlinks)
                (q st) (discovered st)) as (q' & d' & ->).
    exact Hc.
  - destruct (finish_page_cases cfg st w url html cands used)
      as (ws' & added & _ & _ & _ & _ & _ & _ & -> & _ & Hon & _).
    apply Forall_app. split; [exact Hq|].
    apply Forall_fmap. eapply Forall_impl; [exact Hon|].
    intros l Hl u E. injection E as <-. cbn. rewrite Hl. eexists. reflexivity.
Qed.

Lemma no_raise_step (st : state) (ev : event) :
  crashed st = None /\ Forall parses (q st) ->
  crashed (step cfg st ev) = None /\ Forall parses (q (step cfg st ev)).
Proof.
  intros [Hc Hq].
  destruct (step_cases cfg st ev)
    as [->|[(w & ws & Hl & Hi & _ & ->)|[(w & url & html & Hl & Hwr & ->)|
       [(w & url & html & Hl & _ & ->)|[(w & url & h0 & html & cands & used & Hl & _ & ->)|
        (w & url & h0 & e & Hl & Hv & ->)]]]]]; [auto| | | | |].
  - unfold resume.
    destruct (loop_head cfg (q st) (visited st) (visit_log st))
      as [[[q' v'] log'] out] eqn:Hlh.
    destruct (loop_head_parses cfg _ Hq _ _ _ _ _ _ Hlh) as [Hout Hq'].
    destruct out as [url| |e]; cbn; auto. destruct (Hout e eq_refl).
  - cbn. auto.
  - apply finish_page_returns; assumption.
  - apply finish_page_returns; assumption.
  - rewrite products in Hv. discriminate.
Qed.

Lemma no_raise_run (n : nat) (seeds : list (option string)) (evs : list event) :
  Forall parses seeds -> crashed (run cfg (init n seeds) evs) = None.
Proof.
  intros Hs.
  apply (CrawlExtras.run_invariant cfg
           (fun st => crashed st = None /\ Forall parses (q st)) no_raise_step evs).
  split; [reflexivity|exact Hs].
Qed.

End Pool.

(** X12.  No exception leaves a worker of [robust_crawl]: every URL that
    reaches [urlparse] in the worker loop, seed or link, is a result of
    [normalize_url], which [urlparse] accepts; the extractor catches what
    [normalize_url] meets, and what the renderer raises is caught in the
    loop.  ([BeautifulSoup] is taken to return.) *)
Theorem robust_crawl_workers_never_raise (bs : string -> soup) (fuel : nat)
    (w : RobustCrawl.web) (start_url : string) (max_pages concurrency : nat)
    (ignore_robots use_sitemaps no_playwright : bool)
    (extract : string -> string -> py (list string)) (s : RobustCrawl.started)
    (evs : list event) :
  case_insensitive hc ->
  products_extractor bs extract ->
  RobustCrawl.robust_crawl_start fuel w start_url max_pages concurrency
    ignore_robots use_sitemaps no_playwright extract = Some (Ret s) ->
  crashed (run (RobustCrawl.cfg s) (RobustCrawl.st0 s) evs) = None.
Proof.
  intros Hci Hex. unfold RobustCrawl.robust_crawl_start.
  destruct (UrlParse.urlparse start_url) as [parsed|]; [|discriminate].
  destruct (if use_sitemaps then _ else _) as [[extra log]|] eqn:Hseed; [|discriminate].
  assert (Hnorm : forall u x, Products.normalize_url u None = Some x -> parses (Some x)).
  { intros u x Hn y E. injection E as <-.
    destruct (NormalizeExtras.products_normalize_url_host u _ x Hci Hn) as (p & Hp & _).
    unfold netloc_of. rewrite Hp. eexists. reflexivity. }
  destruct (Products.normalize_url start_url None) as [sn|] eqn:Hsn.
  - intros E. injection E as <-. cbn [RobustCrawl.cfg RobustCrawl.st0].
    match goal with
    | |- crashed (run ?c _ _) = None => apply (no_raise_run c bs Hci eq_refl Hex)
    end.
    apply Forall_fmap, Forall_forall. intros x Hx. cbn.
    rewrite CrawlFacts.sorted_perm in Hx.
    apply (proj1 (elem_of_remove_dups (sn :: extra) x)) in Hx.
    apply elem_of_cons in Hx as [->|Hx]; [eapply Hnorm; eauto|].
    destruct use_sitemaps; [|injection Hseed as <- <-; inversion Hx].
    destruct (CrawlFacts.seed_from_sitemaps_normalized _ _ _ _ _ _ Hseed x Hx) as (u & Hu).
    eapply Hnorm; eauto.
  - destruct (remove_dups extra); [|discriminate].
    intros E. injection E as <-. cbn [RobustCrawl.cfg RobustCrawl.st0].
    match goal with
    | |- crashed (run ?c _ _) = None => apply (no_raise_run c bs Hci eq_refl Hex)
    end.
    constructor; [|constructor]. intros u E. discriminate E.
Qed.

End WithHostCheck.
End PageFacts.

(** ** [extract_links_from_html] of [ai_crawler.py] *)

Module AiPageFacts.
Import PyStr Crawl HtmlLinks.

Section WithHostCheck.
Context {hc : HostCheck}.

Lemma ai_normalize_url_raises (v : string) (base : option string) (e : exn) :
  AiCrawler.normalize_url v base = Raise e -> e = ValueError.
Proof.
  unfold AiCrawler.normalize_url. destruct (negb (nonempty v)); [discriminate|].
  destruct (Normalizer.resolve v base) as [r|]; [|congruence].
  destruct (UrlParse.urlparse r); [discriminate|congruence].
Qed.

Lemma collect_spec (base_url : string) (vs : list string) :
  forall found,
    (Exists (fun v => AiCrawler.normalize_url v (Some base_url) = Raise ValueError) vs /\
     AiPage.collect base_url vs found = Raise ValueError) \/
    (Forall (fun v => exists n, AiCrawler.normalize_url v (Some base_url) = Ret n) vs /\
     exists found', AiPage.collect base_url vs found = Ret found').
Proof.
  induction vs as [|v vs IH]; intros found; cbn [AiPage.collect].
  - right. split; [constructor|eauto].
  - destruct (AiCrawler.normalize_url v (Some base_url)) as [n|e] eqn:Hn.
    + destruct (IH (found ++ truthy n)) as [[Hex Hc]|[Hall Hc]].
      * left. split; [apply Exists_cons_tl, Hex|exact Hc].
      * right. split; [constructor; eauto|exact Hc].
    + pose proof (ai_normalize_url_raises _ _ _ Hn) as ->.
      left. split; [apply Exists_cons_hd; exact Hn|reflexivity].
Qed.

(** X13.  [extract_links_from_html] of [ai_crawler.py] raises [ValueError]
    exactly when [normalize_url] raises on one of the candidates of the page
    (an [href] that [urljoin] or [urlparse] rejects), and raises nothing
    else; in the worker, which calls it outside of any [try], the exception
    then leaves the worker. *)
Theorem ai_extract_links_raises_on_rejected_href (bs : string -> soup)
    (base_url html : string) :
  (AiPage.extract_links_from_html bs base_url html = Raise ValueError <->
   Exists (fun v => AiCrawler.normalize_url v (Some base_url) = Raise ValueError)
          (raw_candidates (bs html))) /\
  (forall e, AiPage.extract_links_from_html bs base_url html = Raise e -> e = ValueError) /\
  (forall cfg st w,
     extract_links_from_html cfg = AiPage.extract_links_from_html bs ->
     workers st !! w = Some (AwaitPlain base_url) -> crashed st = None ->
     wants_render cfg (Some html) = false -> html <> "" ->
     AiPage.extract_links_from_html bs base_url html = Raise ValueError ->
     crashed (step cfg st (PlainDone w (Some html))) = Some ValueError).
Proof.
  unfold AiPage.extract_links_from_html.
  destruct (collect_spec base_url (raw_candidates (bs html)) []) as [[Hex Hc]|[Hall [f Hc]]];
    rewrite Hc.
  - split; [tauto|]. split; [congruence|].
    intros cfg st w Hextract Hw Hcr Hwr Hne _.
    unfold step. rewrite Hw, Hwr. unfold finish_page.
    apply PyStrFacts.nonempty_true in Hne. cbn [falsy]. rewrite Hne. cbn [negb].
    change (default "" (Some html)) with html.
    rewrite Hextract, Hc. cbn [crashed]. rewrite Hcr. reflexivity.
  - split; [|split; [discriminate|discriminate]].
    split; [discriminate|]. intros Hex. exfalso.
    apply Exists_exists in Hex as (v & Hv & Hr).
    rewrite Forall_forall in Hall. destruct (Hall v Hv) as [n Hn]. congruence.
Qed.

End WithHostCheck.
End AiPageFacts.

(** ** More on Python strings *)

Module StrFacts.
Import PyStr PyStrFacts.

Lemma lower_app (s t : string) : lower (s +:+ t) = lower s +:+ lower t.
Proof.
  unfold lower. induction s as [|a s IH]; [reflexivity|].
  rewrite app_cons. cbn [map_str]. rewrite IH. reflexivity.
Qed.

Lemma startswith_app (pre s : string) : startswith pre (pre +:+ s) = true.
Proof.
  induction pre as [|a pre IH]; [reflexivity|].
  rewrite app_cons. cbn [startswith]. rewrite Ascii.eqb_refl, IH. reflexivity.
Qed.

Lemma startswith_spec (pre s : string) :
  startswith pre s = true <-> exists t, s = pre +:+ t.
Proof.
  split.
  - revert s. induction pre as [|a pre IH]; intros s H.
    + exists s. reflexivity.
    + destruct s as [|b s]; [discriminate|]. cbn [startswith] in H.
      apply andb_true_iff in H as [Hab H]. apply Ascii.eqb_eq in Hab. subst b.
      destruct (IH s H) as [t ->]. exists t. reflexivity.
  - intros [t ->]. apply startswith_app.
Qed.

Lemma contains_spec (needle s : string) :
  contains needle s = true <-> exists a b, s = a +:+ needle +:+ b.
Proof.
  split.
  - induction s as [|c s IH]; cbn [contains]; intros H.
    + rewrite orb_false_r in H. apply startswith_spec in H as [t ->].
      exists "", t. reflexivity.
    + apply orb_true_iff in H as [H|H].
      * apply startswith_spec in H as [t ->]. exists "", t. reflexivity.
      * destruct (IH H) as (a & b & ->). exists (String c a), b. reflexivity.
  - intros (a & b & ->). induction a as [|c a IH].
    + rewrite app_nil_l. destruct (needle +:+ b) eqn:E; cbn [contains];
        rewrite <- E, startswith_app; reflexivity.
    + rewrite app_cons. cbn [contains]. rewrite IH. apply orb_true_r.
Qed.

Lemma has_upper_app (s t : string) :
  has_upper (s +:+ t) = has_upper s || has_upper t.
Proof.
  unfold has_upper. rewrite SplitFacts.all_chars_app, negb_andb. reflexivity.
Qed.

(** [rstrip('/')] leaves no slash at the end *)
Lemma rstrip_slash_end (s : string) : endswith "/" (rstrip (is_char "/") s) = false.
Proof.
  induction s as [|a s IH]; [reflexivity|].
  cbn [rstrip]. destruct (rstrip (is_char "/") s) as [|b r] eqn:E.
  - unfold is_char. destruct (Ascii.eqb_spec a "/") as [->|Ha]; [reflexivity|].
    cbn. destruct (Ascii.eqb_spec a "/"); [contradiction|reflexivity].
  - rewrite endswith_cons, IH, orb_false_r. apply String.eqb_neq. discriminate.
Qed.

End StrFacts.

(** ** [simple_classify], both copies *)

Module ClassifyFacts.
Import PyStr StrFacts.

Lemma contains_keyword (a k b : string) :
  contains (lower k) (lower (a +:+ k +:+ b)) = true.
Proof.
  rewrite !lower_app. apply contains_spec. eauto.
Qed.

(** X14.  Both copies of [simple_classify] answer ['course'] for every text
    in which [course], [enroll] or [training] occurs, in whatever letter
    case and whatever else the text holds: the classes are tested in a fixed
    order, on the lower-cased text. *)
Theorem simple_classify_course_first (a k b : string) :
  lower k = "course" \/ lower k = "enroll" \/ lower k = "training" ->
  ProductsPage.simple_classify (Some (a +:+ k +:+ b)) = "course" /\
  AiPage.simple_classify (Some (a +:+ k +:+ b)) = "course".
Proof.
  intros Hk. pose proof (contains_keyword a k b) as Hc.
  unfold ProductsPage.simple_classify, AiPage.simple_classify.
  change (default "" (Some (a +:+ k +:+ b))) with (a +:+ k +:+ b). cbv zeta.
  destruct Hk as [E|[E|E]]; rewrite E in Hc; rewrite Hc, ?orb_true_r; auto.
Qed.

(** X15.  The copy of [simple_classify] in [ai_crawler.py] answers what the
    copy in [python_web_crawler_products.py] answers, except that it has no
    class ['careers']: where the latter says ['careers'] it says ['other']. *)
Theorem simple_classify_copies (text : option string) :
  AiPage.simple_classify text
  = if String.eqb (ProductsPage.simple_classify text) "careers" then "other"
    else ProductsPage.simple_classify text.
Proof.
  unfold ProductsPage.simple_classify, AiPage.simple_classify. cbv zeta.
  repeat match goal with
         | |- context [if ?c then _ else _] =>
             lazymatch c with
             | String.eqb _ _ => fail
             | _ => destruct c; try reflexivity
             end
         end.
Qed.

End ClassifyFacts.

(** ** [KeywordCrawler.run] *)

Module KeywordRunFacts.
Import PyStr KeywordCrawler KeywordRun.

Section WithHostCheck.
Context {hc : HostCheck}.

(** What one step can do: nothing to [visited] and the log, or one
    submission *)
Lemma pool_step_cases (self : crawler) (a : pool_action) :
  max_pages (pool_step self a) = max_pages self /\
  can_fetch (pool_step self a) = can_fetch self /\
  ((log (pool_step self a) = log self /\ visited (pool_step self a) = visited self) \/
   (exists u,
      size (visited self) < max_pages self /\
      can_fetch self u = true /\ (u ∉ visited self) /\
      endswith "/" u = false /\
      visited (pool_step self a) = {[u]} ∪ visited self /\
      log (pool_step self a) = log self ++ [Submit u; Sleep (submission_sleep self)])).
Proof.
  destruct a as [|tv]; cbn [pool_step step]; [|cbn; auto].
  unfold run_iteration.
  destruct (to_visit self) as [|url tv] eqn:Htv; [auto|].
  destruct (size (visited self) <? max_pages self) eqn:Hsz; [|auto].
  apply Nat.ltb_lt in Hsz.
  destruct (UrlParse.urlparse url) as [parsed|]; [|auto].
  set (u := rstrip (is_char "/") _).
  destruct (can_fetch self u) eqn:Hcf; cbn [negb]; [|cbn; auto].
  destruct (bool_decide (u ∈ visited self)) eqn:Hin; [cbn; auto|].
  apply bool_decide_eq_false in Hin.
  cbn. split; [reflexivity|]. split; [reflexivity|]. right.
  exists u. repeat split; auto. apply StrFacts.rstrip_slash_end.
Qed.

Lemma pool_run_invariant (P : crawler -> Prop) :
  (forall self a, P self -> P (pool_step self a)) ->
  forall schedule self, P self -> P (pool_run self schedule).
Proof.
  intros Hstep. induction schedule as [|a schedule IH]; intros self H; [exact H|].
  apply IH, Hstep, H.
Qed.

(** X16.  [KeywordCrawler.run] keeps to its page budget, whatever the pool
    threads put in the queue and whenever they do: [visited] never holds
    more than [max_pages] URLs. *)
Theorem keyword_crawler_keeps_budget (start_url : string) (mp : nat) (d : Q)
    (conc : Z) (robots_can_fetch : string -> bool) (crawl_delay : option Q)
    (self : crawler) (schedule : list pool_action) :
  init start_url mp d conc robots_can_fetch crawl_delay = Ret self ->
  size (visited (pool_run self schedule)) <= mp.
Proof.
  unfold init. destruct (UrlParse.urlparse _) as [parsed|]; [|discriminate].
  intros E. injection E as <-.
  match goal with |- context [pool_run ?s _] => set (self := s) end.
  assert (H : max_pages (pool_run self schedule) = mp /\
              size (visited (pool_run self schedule)) <= mp).
  { apply (pool_run_invariant
             (fun c => max_pages c = mp /\ size (visited c) <= mp)).
    - clear. intros c a (Hmp & Hv).
      destruct (pool_step_cases c a) as (Hmp' & _ & [(_ & Hvis)|
        (u & Hlt & _ & Hfresh & _ & Hvis & _)]).
      + rewrite Hmp', Hvis. auto.
      + rewrite Hmp', Hvis. split; [exact Hmp|].
        rewrite size_union by set_solver. rewrite size_singleton. lia.
    - subst self. cbn. rewrite size_empty. lia. }
  destruct H as (_ & H). exact H.
Qed.

(** X17.  Every URL that [KeywordCrawler.run] submits to the pool is
    allowed by the robots policy and has no trailing slash; no URL is
    submitted twice; and [visited] is the set of the submitted URLs. *)
Theorem keyword_crawler_submits_allowed_urls_once (start_url : string) (mp : nat)
    (d : Q) (conc : Z) (robots_can_fetch : string -> bool) (crawl_delay : option Q)
    (self : crawler) (schedule : list pool_action) :
  init start_url mp d conc robots_can_fetch crawl_delay = Ret self ->
  NoDup (submitted (log (pool_run self schedule))) /\
  visited (pool_run self schedule)
    = list_to_set (submitted (log (pool_run self schedule))) /\
  Forall (fun u => robots_can_fetch u = true /\ endswith "/" u = false)
         (submitted (log (pool_run self schedule))).
Proof.
  unfold init. destruct (UrlParse.urlparse _) as [parsed|]; [|discriminate].
  intros E. injection E as <-.
  match goal with |- context [pool_run ?s _] => set (self := s) end.
  assert (H : can_fetch (pool_run self schedule) = robots_can_fetch /\
              NoDup (submitted (log (pool_run self schedule))) /\
              visited (pool_run self schedule)
                = list_to_set (submitted (log (pool_run self schedule))) /\
              Forall (fun u => robots_can_fetch u = true /\ endswith "/" u = false)
                     (submitted (log (pool_run self schedule)))).
  { apply (pool_run_invariant
             (fun c => can_fetch c = robots_can_fetch /\
                       NoDup (submitted (log c)) /\
                       visited c = list_to_set (submitted (log c)) /\
                       Forall (fun u => robots_can_fetch u = true /\ endswith "/" u = false)
                              (submitted (log c)))).
    - clear. intros c a (Hcf & Hnd & Hvis & Hall).
      destruct (pool_step_cases c a) as (_ & Hcf' & [(Hlog & Hvis')|
        (u & _ & Hok & Hfresh & Hslash & Hvis' & Hlog)]).
      + rewrite Hcf', Hlog, Hvis'. auto.
      + rewrite Hcf', Hlog, Hvis'. unfold submitted in *.
        rewrite flat_map_app. cbn. split; [exact Hcf|].
        split; [|split].
        * apply NoDup_app. split; [exact Hnd|]. split; [|apply NoDup_singleton].
          intros x Hx Hx'. apply list_elem_of_singleton in Hx'. subst x.
          apply Hfresh. rewrite Hvis. apply elem_of_list_to_set, Hx.
        * rewrite list_to_set_app_L, Hvis. set_solver.
        * apply Forall_app. split; [exact Hall|].
          constructor; [|constructor]. rewrite <- Hcf. auto.
    - subst self. cbn. split; [reflexivity|]. split; [constructor|].
      split; [reflexivity|constructor]. }
  destruct H as (_ & H1 & H2 & H3). auto.
Qed.

End WithHostCheck.
End KeywordRunFacts.

(** ** Sitemap resolution *)

Module SitemapExtras.
Import PyStr Xml SitemapTree.

(** On a sitemap graph without cycle, [fetch_sitemap_urls] returns as soon
    as the depth allowed exceeds the rank of the sitemap *)
Lemma fetch_sitemap_urls_returns (web : sitemap_web) (rank : string -> nat) :
  ranked web rank ->
  forall fuel url fetched,
    rank url < fuel ->
    exists urls log,
      ProductsSitemap.fetch_sitemap_urls fuel web url fetched
      = (Some urls, fetched ++ url :: log).
Proof.
  intros Hrank. induction fuel as [|fuel IH]; intros url fetched Hlt; [lia|].
  cbn [ProductsSitemap.fetch_sitemap_urls].
  destruct (web url) as [root|] eqn:Hweb; [|exists [], []; reflexivity].
  pose proof (Hrank url root) as Hch. specialize (Hch) with (1 := Hweb).
  unfold children in Hch.
  destruct (endswith "sitemapindex" (lower (tag root))); [|eexists _, []; reflexivity].
  match goal with
  | |- exists urls log, ?loop ?l ?u ?f = _ =>
      enough (Hloop : forall locs urls fetched',
                 (forall c, c ∈ locs -> c ∈ l) ->
                 exists urls' log', loop locs urls (fetched ++ url :: fetched')
                                    = (Some urls', fetched ++ url :: log'))
  end.
  { destruct (Hloop (ProductsSitemap.locs_of (findall_any_ns "sitemap" root)) [] [])
      as (us & log & Hrun); [auto|].
    exists us, log. exact Hrun. }
  induction locs as [|child rest IHl]; intros urls fetched' Hsub.
  - eexists _, fetched'. reflexivity.
  - assert (Hc : rank child < fuel).
    { specialize (Hch child (Hsub child ltac:(left))). lia. }
    destruct (IH child (fetched ++ url :: fetched') Hc) as (more & log & ->).
    destruct (IHl (urls ++ more) (fetched' ++ child :: log)) as (us & log' & Hrest).
    { intros c Hin. apply Hsub. right. exact Hin. }
    exists us, log'. rewrite <- Hrest. f_equal.
    rewrite <- !app_assoc. reflexivity.
Qed.

(** X18.  On a sitemap graph without cycle, where every index lists
    sitemaps of a lower rank only, [fetch_sitemap_urls] returns: the
    recursion is no deeper than the rank of the sitemap it starts from, and
    its first request is for that sitemap. *)
Theorem fetch_sitemap_urls_ends_on_acyclic_graphs (web : sitemap_web)
    (rank : string -> nat) (url : string) (fuel : nat) :
  ranked web rank -> rank url < fuel ->
  exists urls log,
    ProductsSitemap.fetch_sitemap_urls fuel web url [] = (Some urls, url :: log).
Proof.
  intros Hrank Hlt.
  destruct (fetch_sitemap_urls_returns web rank Hrank fuel url [] Hlt)
    as (urls & log & H).
  exists urls, log. exact H.
Qed.

(** X19.  [parse_sitemap] returns on every sitemap graph with finitely many
    documents, cyclic or not, and has then requested no URL twice. *)
Theorem parse_sitemap_ends_requesting_each_url_once (web : sitemap_web)
    (known : gset string) (url : string) :
  (forall u, web u <> None -> u ∈ known) ->
  exists urls w',
    RobotsCrawler.parse_sitemap (S (size known)) web url (RobotsCrawler.mkWalk ∅ [])
    = Some (urls, w') /\
    NoDup (RobotsCrawler.fetched w').
Proof.
  intros Hfin. apply (SitemapFacts.parse_sitemap_terminates_once web known Hfin url).
Qed.

End SitemapExtras.

(** ** The scroll loop of [fetch_with_playwright] *)

Module ScrollFacts.
Import Playwright.
Local Open Scope Z_scope.

Lemma scroll_loop_runs_on (p : page) (viewport_h : Z) :
  (forall i, scroll_to p i = Done tt) ->
  (forall i, exists h, scroll_height p i = Done h /\
                       Z.of_nat i * Z.quot (9 * viewport_h) 10 < h) ->
  forall fuel i total_h,
    Z.of_nat i * Z.quot (9 * viewport_h) 10 < total_h ->
    scroll_loop fuel p viewport_h (Z.of_nat i * Z.quot (9 * viewport_h) 10) total_h i
    = Running.
Proof.
  intros Hto Hgrow. induction fuel as [|fuel IH]; intros i total_h Hlt; [reflexivity|].
  cbn [scroll_loop]. apply Z.ltb_lt in Hlt. rewrite Hlt, Hto.
  destruct (Hgrow (S i)) as (h & -> & Hh).
  replace (Z.of_nat i * Z.quot (9 * viewport_h) 10 + Z.quot (9 * viewport_h) 10)
    with (Z.of_nat (S i) * Z.quot (9 * viewport_h) 10) by lia.
  apply IH, Hh.
Qed.

(** X20.  The scroll loop has no bound of its own.  On a page that loads
    and whose document height, each time it is read, is ahead of the scroll
    position (a page that appends content as it is scrolled, or any page of
    positive height seen through a viewport of height 0 or 1, for which the
    scroll step is 0), [fetch_with_playwright] never leaves the loop:
    whatever number of steps is allowed, it has not returned. *)
Theorem fetch_with_playwright_hangs_on_growing_pages (p : page) (viewport_h : Z)
    (scan : string -> list string) (fuel : nat) :
  new_page p = Done tt -> set_extra_http_headers p = Done tt -> goto p = Done tt ->
  inner_height p = Done viewport_h ->
  (forall i, scroll_to p i = Done tt) ->
  (forall i, exists h, scroll_height p i = Done h /\
                       Z.of_nat i * Z.quot (9 * viewport_h) 10 < h) ->
  result (fetch_with_playwright fuel scan p) = Hangs.
Proof.
  intros Hn Hs Hg Hi Hto Hgrow.
  unfold fetch_with_playwright, scroll. rewrite Hn, Hs, Hg, Hi.
  destruct (Hgrow 0%nat) as (h & -> & Hh).
  pose proof (scroll_loop_runs_on p viewport_h Hto Hgrow fuel 0 h Hh) as Hl.
  change (Z.of_nat 0 * Z.quot (9 * viewport_h) 10) with 0 in Hl.
  rewrite Hl. reflexivity.
Qed.

End ScrollFacts.

(** ** [notebook/robots_crawler.py] *)

Module RobotsFastFacts.
Import PyStr PyStrFacts SplitFacts StrFacts Xml RobotsFast.

Lemma has_char_lstrip (p : ascii -> bool) (c : ascii) (s : string) :
  has_char c (lstrip p s) = true -> has_char c s = true.
Proof.
  induction s as [|a s IH]; [discriminate|]. cbn [lstrip].
  destruct (p a); [|auto]. intros H. cbn [has_char]. rewrite (IH H). apply orb_true_r.
Qed.

Lemma has_char_rstrip (p : ascii -> bool) (c : ascii) (s : string) :
  has_char c (rstrip p s) = true -> has_char c s = true.
Proof.
  induction s as [|a s IH]; [discriminate|]. cbn [rstrip].
  destruct (rstrip p s) as [|b r].
  - destruct (p a); [discriminate|]. cbn [has_char]. rewrite orb_false_r.
    intros ->. reflexivity.
  - cbn [has_char] in *. intros H. apply orb_true_iff in H as [->|H]; [reflexivity|].
    rewrite (IH H). apply orb_true_r.
Qed.

Lemma rstrip_cons_keep (p : ascii -> bool) (a : ascii) (s : string) :
  p a = false -> rstrip p (String a s) = String a (rstrip p s).
Proof.
  intros Ha. cbn [rstrip]. destruct (rstrip p s); [rewrite Ha|]; reflexivity.
Qed.

Lemma sitemap_of_line_returns (line : string) : sitemap_of_line line <> None.
Proof.
  unfold sitemap_of_line.
  destruct (startswith "sitemap:" (lower (strip line))) eqn:Hs; [|discriminate].
  apply startswith_spec in Hs as [t Ht].
  assert (Hc : has_char ":" line = true).
  { apply (has_char_lstrip is_space), (has_char_rstrip is_space).
    fold (strip line). rewrite <- (LowerFacts.has_char_lower ":" _ eq_refl), Ht.
    reflexivity. }
  destruct (partition ":" line) as [h [rest|]] eqn:Hp; [discriminate|].
  apply partition_missing in Hp as [_ Hp]. congruence.
Qed.

Lemma sitemaps_of_lines_returns (lines : list string) :
  forall acc, exists l, sitemaps_of_lines lines acc = Some l.
Proof.
  induction lines as [|line lines IH]; intros acc; cbn [sitemaps_of_lines]; [eauto|].
  destruct (sitemap_of_line line) as [found|] eqn:Hl; [apply IH|].
  destruct (sitemap_of_line_returns line Hl).
Qed.

(** [splitlines] gives back the lines that were joined with line feeds *)
Lemma splitlines_line (x rest : string) :
  all_chars (fun c => negb (is_linebreak c)) x = true ->
  splitlines (x +:+ String "010" rest) = x :: splitlines rest.
Proof.
  induction x as [|a x IH]; intros Hx.
  - rewrite app_nil_l. cbn [splitlines]. change (is_linebreak "010") with true.
    cbv iota. destruct rest; reflexivity.
  - cbn [all_chars] in Hx. apply andb_true_iff in Hx as [Ha Hx].
    rewrite app_cons. cbn [splitlines]. apply negb_true_iff in Ha. rewrite Ha.
    rewrite (IH Hx). reflexivity.
Qed.

Lemma splitlines_last (x : string) :
  x <> "" -> all_chars (fun c => negb (is_linebreak c)) x = true ->
  splitlines x = [x].
Proof.
  induction x as [|a x IH]; intros Hne Hx; [congruence|].
  cbn [all_chars] in Hx. apply andb_true_iff in Hx as [Ha Hx].
  cbn [splitlines]. apply negb_true_iff in Ha. rewrite Ha.
  destruct x as [|b x]; [reflexivity|]. rewrite IH; [reflexivity|discriminate|exact Hx].
Qed.

Lemma splitlines_join (lines : list string) :
  Forall (fun x => x <> "" /\ all_chars (fun c => negb (is_linebreak c)) x = true) lines ->
  splitlines (join (String "010" "") lines) = lines.
Proof.
  unfold join. induction 1 as [|x lines [Hne Hx] Hall IH]; [reflexivity|].
  destruct lines as [|y lines].
  - cbn [String.concat]. apply splitlines_last; assumption.
  - change (String.concat (String "010" "") (x :: y :: lines))
      with (x +:+ String "010" (String.concat (String "010" "") (y :: lines))).
    rewrite (splitlines_line _ _ Hx), IH. reflexivity.
Qed.

Lemma sitemap_line (u : string) :
  strip u = u -> sitemap_of_line ("Sitemap: " +:+ u) = Some [u].
Proof.
  intros Hu. unfold sitemap_of_line.
  assert (Hstrip : strip ("Sitemap: " +:+ u) = "Sitemap:" +:+ rstrip is_space (String " " u)).
  { unfold strip.
    change (lstrip is_space ("Sitemap: " +:+ u)) with ("Sitemap: " +:+ u).
    change ("Sitemap: " +:+ u)
      with (String "S" (String "i" (String "t" (String "e" (String "m" (String "a"
             (String "p" (String ":" (String " " u))))))))).
    rewrite !rstrip_cons_keep by reflexivity. reflexivity. }
  rewrite Hstrip, lower_app.
  change (lower "Sitemap:") with "sitemap:". rewrite startswith_app.
  change (partition ":" ("Sitemap: " +:+ u)) with ("Sitemap", Some (String " " u)).
  f_equal. f_equal. unfold strip in *. exact Hu.
Qed.

(** X21.  [get_sitemaps_from_robots] never raises: a line that passes the
    test holds the colon at which it is cut.  And it reads back what was
    written: from the lines [Sitemap: u], one for each [u] of a list of
    URLs without surrounding white space and without line break, it returns
    that list. *)
Theorem get_sitemaps_from_robots_reads_back (robots_txt : string) (urls : list string) :
  (exists sitemaps, get_sitemaps_from_robots robots_txt = Some sitemaps) /\
  (Forall (fun u => strip u = u /\
                    all_chars (fun c => negb (is_linebreak c)) u = true) urls ->
   get_sitemaps_from_robots
     (join (String "010" "") (map (fun u => "Sitemap: " +:+ u) urls))
   = Some urls).
Proof.
  split; [apply sitemaps_of_lines_returns|].
  intros Hall. unfold get_sitemaps_from_robots.
  rewrite splitlines_join.
  2:{ apply Forall_map. eapply Forall_impl; [exact Hall|].
      intros u [_ Hu]. split; [discriminate|].
      rewrite all_chars_app, Hu. reflexivity. }
  enough (H : forall acc, sitemaps_of_lines (map (fun u => "Sitemap: " +:+ u) urls) acc
                          = Some (acc ++ urls)) by apply (H []).
  induction Hall as [|u urls [Hu _] _ IH]; intros acc; cbn [map sitemaps_of_lines].
  - rewrite List.app_nil_r. reflexivity.
  - rewrite (sitemap_line u Hu), IH, <- List.app_assoc. reflexivity.
Qed.

(** X22.  [url_matches_keywords] compares the keywords with the lower-cased
    URL: the letter case of the URL does not matter, and a keyword that
    holds an upper-case letter matches no URL. *)
Theorem url_matches_keywords_lower_case_only (url : string) (keywords : list string) :
  url_matches_keywords (lower url) keywords = url_matches_keywords url keywords /\
  (Forall (fun kw => has_upper kw = true) keywords ->
   url_matches_keywords url keywords = false).
Proof.
  unfold url_matches_keywords. split; [rewrite LowerFacts.lower_lower; reflexivity|].
  intros Hall. apply not_true_is_false. intros H.
  apply existsb_exists in H as (kw & Hin & Hc).
  rewrite Forall_forall in Hall. specialize (Hall kw (proj2 (list_elem_of_In _ _) Hin)).
  apply contains_spec in Hc as (a & b & E).
  pose proof (LowerFacts.has_upper_lower url) as Hl.
  rewrite E, !has_upper_app, Hall, orb_true_r in Hl. discriminate.
Qed.

Lemma insert_sorted_head (s : string) (l : list string) :
  exists r, RobustCrawl.insert_sorted s l = s :: r \/
            exists x l', l = x :: l' /\ String.leb s x = false /\
                         RobustCrawl.insert_sorted s l = x :: r.
Proof.
  destruct l as [|x l]; cbn [RobustCrawl.insert_sorted]; [eauto|].
  destruct (String.leb s x) eqn:E; [eauto|].
  eexists. right. exists x, l. eauto.
Qed.

Lemma insert_sorted_ascending (s : string) (l : list string) :
  ascending l = true -> ascending (RobustCrawl.insert_sorted s l) = true.
Proof.
  induction l as [|x l IH]; intros Hl; [reflexivity|].
  cbn [RobustCrawl.insert_sorted]. destruct (String.leb s x) eqn:E.
  - cbn [ascending]. rewrite E. exact Hl.
  - assert (Hxs : String.leb x s = true).
    { destruct (String.leb_total s x) as [H|H]; [congruence|exact H]. }
    assert (Hl' : ascending l = true).
    { destruct l as [|y l]; [reflexivity|]. cbn [ascending] in Hl.
      apply andb_true_iff in Hl as [_ Hl]. exact Hl. }
    specialize (IH Hl').
    destruct (insert_sorted_head s l) as (r & [Hr|(y & l' & -> & _ & Hr)]);
      rewrite Hr in *; cbn [ascending].
    + rewrite Hxs. exact IH.
    + cbn [ascending] in Hl. apply andb_true_iff in Hl as [Hxy _].
      rewrite Hxy. exact IH.
Qed.

Lemma sorted_ascending (l : list string) : ascending (RobustCrawl.sorted l) = true.
Proof.
  unfold RobustCrawl.sorted. induction l as [|x l IH]; [reflexivity|].
  cbn [fold_right]. apply insert_sorted_ascending, IH.
Qed.

Lemma fromkeys_spec (l : list string) :
  NoDup (fromkeys l) /\ forall x, x ∈ fromkeys l <-> x ∈ l.
Proof.
  induction l as [|a l [IHn IHe]]; [split; [constructor|reflexivity]|].
  cbn [fromkeys].
  assert (Hf : forall x, x ∈ filter (fun y => negb (String.eqb y a)) (fromkeys l)
                         <-> x <> a /\ x ∈ l).
  { intros x. rewrite list_elem_of_filter, IHe.
    destruct (String.eqb_spec x a); cbn; intuition congruence. }
  split.
  - constructor; [rewrite Hf; tauto|]. apply NoDup_filter, IHn.
  - intros x. rewrite !elem_of_cons, Hf.
    destruct (String.eqb_spec x a); intuition congruence.
Qed.

Section WithHostCheck.
Context {hc : HostCheck}.

Lemma parse_all_spec (fuel : nat) (web : sitemap_web) (sitemaps : list string) :
  forall acc cands,
    parse_all fuel web sitemaps acc = Some cands ->
    forall u, u ∈ cands ->
      u ∈ acc \/
      exists sm urls w,
        sm ∈ sitemaps /\
        RobotsCrawler.parse_sitemap fuel web sm (RobotsCrawler.mkWalk ∅ [])
        = Some (urls, w) /\
        u ∈ urls.
Proof.
  induction sitemaps as [|sm rest IH]; intros acc cands H u Hu; cbn [parse_all] in H.
  - injection H as <-. auto.
  - destruct (RobotsCrawler.parse_sitemap fuel web sm _) as [[urls w]|] eqn:Hp; [|discriminate].
    destruct (IH _ _ H u Hu) as [Hin|(sm' & urls' & w' & Hsm & Hp' & Hin)].
    + apply elem_of_app in Hin as [Hin|Hin]; [auto|].
      right. exists sm, urls, w. split; [left|auto].
    + right. exists sm', urls', w'. split; [right; exact Hsm|auto].
Qed.

Lemma parse_all_returns (web : sitemap_web) (known : gset string)
    (sitemaps : list string) :
  (forall u, web u <> None -> u ∈ known) ->
  forall acc, exists cands, parse_all (S (size known)) web sitemaps acc = Some cands.
Proof.
  intros Hfin. induction sitemaps as [|sm rest IH]; intros acc; [cbn; eauto|].
  cbn [parse_all].
  destruct (SitemapFacts.parse_sitemap_terminates_once web known Hfin sm)
    as (urls & w & -> & _).
  apply IH.
Qed.

(** X23.  What [collect_crawlable_relevant_links_fast] returns is in
    ascending order and without duplicates, and each of its URLs is listed
    by a sitemap that robots.txt names, is allowed by the parser built from
    that robots.txt (for the agent of the file or for [*]), and holds one of
    the keywords.  On a site with finitely many sitemap documents the
    sitemap resolution ends. *)
Theorem fast_links_are_listed_allowed_and_relevant (fuel : nat) (s : site)
    (site_url : string) (keywords : option (list string)) :
  (forall links,
     collect_crawlable_relevant_links_fast fuel s site_url keywords = Links links ->
     ascending links = true /\ NoDup links /\
     forall u, u ∈ links ->
       url_matches_keywords u (default DEFAULT_KEYWORDS keywords) = true /\
       exists base_url robots_txt sitemaps sm urls w,
         get_robots_txt s base_url = Some robots_txt /\
         robots_txt <> "" /\
         get_sitemaps_from_robots robots_txt = Some sitemaps /\
         allowed (robot_parser s robots_txt) u = true /\
         sm ∈ sitemaps /\
         RobotsCrawler.parse_sitemap fuel (sitemap_docs s) sm (RobotsCrawler.mkWalk ∅ [])
         = Some (urls, w) /\
         u ∈ urls) /\
  (forall known : gset string,
     (forall u, sitemap_docs s u <> None -> u ∈ known) ->
     fuel = S (size known) ->
     collect_crawlable_relevant_links_fast fuel s site_url keywords <> Unfinished).
Proof.
  unfold collect_crawlable_relevant_links_fast.
  destruct (UrlParse.urlparse site_url) as [parsed|]; [|split; intros; discriminate].
  destruct (UrlParse.urlparse _) as [parsed2|]; [|split; intros; discriminate].
  destruct (get_robots_txt s _) as [robots_txt|] eqn:Hrob; [|split; intros; discriminate].
  destruct (nonempty robots_txt) eqn:Hne; cbn [negb].
  2:{ split; [|intros; discriminate]. intros links E. injection E as <-.
      split; [reflexivity|]. split; [constructor|]. intros u Hu. inversion Hu. }
  apply nonempty_true in Hne.
  destruct (get_sitemaps_from_robots robots_txt) as [[|sm0 sms]|] eqn:Hsm;
    [|  |split; intros; discriminate].
  { split; [|intros; discriminate]. intros links E. injection E as <-.
    split; [reflexivity|]. split; [constructor|]. intros u Hu. inversion Hu. }
  split.
  - destruct (parse_all fuel (sitemap_docs s) (sm0 :: sms) []) as [cands|] eqn:Hpa;
      [|discriminate].
    intros links E. injection E as <-.
    split; [apply sorted_ascending|].
    pose proof (CrawlFacts.sorted_perm
                  (filter (fun u => url_matches_keywords u (default DEFAULT_KEYWORDS keywords))
                     (filter_allowed_urls_by_robots (fromkeys cands)
                        (robot_parser s robots_txt)))) as Hperm.
    split.
    + rewrite Hperm. apply NoDup_filter, NoDup_filter, fromkeys_spec.
    + intros u Hu. rewrite Hperm in Hu.
      apply list_elem_of_filter in Hu as [Hk Hu].
      apply list_elem_of_filter in Hu as [Ha Hu].
      apply (proj1 (proj2 (fromkeys_spec cands) u)) in Hu.
      split; [apply Is_true_true, Hk|].
      destruct (parse_all_spec _ _ _ _ _ Hpa u Hu) as [Hin|(sm & urls & w & Hin & Hp & Hu')];
        [inversion Hin|].
      eexists _, robots_txt, (sm0 :: sms), sm, urls, w.
      split; [exact Hrob|]. split; [exact Hne|]. split; [exact Hsm|].
      split; [apply Is_true_true, Ha|]. auto.
  - intros known Hfin ->.
    destruct (parse_all_returns (sitemap_docs s) known (sm0 :: sms) Hfin []) as [cands ->].
    discriminate.
Qed.

End WithHostCheck.
End RobotsFastFacts.

(** ** [normalize_url] of [keyword_crawler.py] *)

Module KeywordLinksFacts.
Import PyStr PyStrFacts SplitFacts UrlParse KeywordLinks.

Lemma has_char_substring (c : ascii) (s : string) :
  has_char c s = false -> forall n m, has_char c (substring n m s) = false.
Proof.
  induction s as [|a s IH]; intros H n m; [destruct n, m; reflexivity|].
  cbn [has_char] in H. apply orb_false_iff in H as [Ha Hs].
  destruct n as [|n]; [|cbn [substring]; auto].
  destruct m as [|m]; [reflexivity|].
  cbn [substring has_char]. rewrite Ha, (IH Hs). reflexivity.
Qed.

Lemma has_char_rpartition_tail (c d : ascii) (s : string) :
  has_char c s = false -> has_char c (rpartition_tail d s) = false.
Proof.
  induction s as [|a s IH]; intros H; [reflexivity|].
  pose proof H as H'. cbn [has_char] in H'. apply orb_false_iff in H' as [Ha Hs].
  cbn [rpartition_tail]. destruct (has_char d s); [auto|].
  destruct (Ascii.eqb a d); [exact Hs|exact H].
Qed.

Lemma has_char_partition (c d : ascii) (s h : string) (t : option string) :
  partition d s = (h, t) -> has_char c s = false ->
  has_char c h = false /\ has_char c (default "" t) = false.
Proof.
  intros Hp Hs. destruct t as [t|].
  - apply partition_found in Hp as [-> _]. rewrite has_char_app in Hs.
    apply orb_false_iff in Hs as [Hh Ht]. cbn [has_char] in Ht.
    apply orb_false_iff in Ht as [_ Ht]. auto.
  - apply partition_missing in Hp as [-> _]. auto.
Qed.

Lemma splitparams_no_hash (url p prm : string) :
  splitparams url = (p, prm) -> has_char "#" url = false ->
  has_char "#" p = false /\ has_char "#" prm = false.
Proof.
  unfold splitparams. intros H Hu.
  destruct (has_char "/" url).
  - pose proof (has_char_rpartition_tail "#" "/" url Hu) as Hl.
    destruct (partition ";" (rpartition_tail "/" url)) as [h [t|]] eqn:Hp.
    + destruct (has_char_partition "#" _ _ _ _ Hp Hl) as [Hh Ht].
      injection H as <- <-. rewrite has_char_app, Hh, has_char_substring by exact Hu.
      auto.
    + injection H as <- <-. auto.
  - destruct (partition ";" url) as [h [t|]] eqn:Hp.
    + destruct (has_char_partition "#" _ _ _ _ Hp Hu) as [Hh Ht].
      injection H as <- <-. auto.
    + injection H as <- <-. rewrite has_char_substring by exact Hu. auto.
Qed.

Section WithHostCheck.
Context {hc : HostCheck}.

(** No component that [urlparse] returns holds a [#], the fragment apart *)
Lemma urlparse_no_hash (u : string) (r : ParseResult) :
  urlparse u = Some r ->
  has_char "#" (scheme r) = false /\ has_char "#" (netloc r) = false /\
  has_char "#" (path r) = false /\ has_char "#" (params r) = false /\
  has_char "#" (query r) = false.
Proof.
  unfold urlparse, urlparse_with, urlsplit.
  destruct (split_scheme "" _) as [sch u2] eqn:Hs.
  assert (Hsch : has_char "#" sch = false).
  { destruct (UrlParseFacts.split_scheme_scheme _ _ _ _ Hs) as [->|Hv]; [reflexivity|].
    apply (UrlParseFacts.valid_scheme_facts _ Hv). }
  destruct (split_netloc_checked u2) as [[nl u3]|] eqn:Hn; [|discriminate].
  assert (Hnl : has_char "#" nl = false).
  { destruct (String.eqb_spec nl "") as [->|Hne]; [reflexivity|].
    destruct (UrlParseFacts.split_netloc_spec _ _ _ Hn Hne) as (_ & Hd & _).
    apply (has_char_all_chars _ _ _ Hd). reflexivity. }
  destruct (partition "#" u3) as [u4 frag] eqn:Hf.
  assert (Hu4 : has_char "#" u4 = false).
  { destruct frag as [frag|].
    - apply (partition_found _ _ _ _ Hf).
    - apply partition_missing in Hf as [-> Hf]. exact Hf. }
  destruct (partition "?" u4) as [p qy] eqn:Hq.
  destruct (has_char_partition "#" _ _ _ _ Hq Hu4) as [Hp Hqy].
  cbn [scheme path]. destruct (_ && _).
  - destruct (splitparams p) as [p' prm] eqn:Hsp.
    destruct (splitparams_no_hash _ _ _ Hsp Hp) as [Hp' Hprm].
    intros E. injection E as <-. cbn. auto.
  - intros E. injection E as <-. cbn. auto.
Qed.

Lemma urlunparse_no_hash (sch nl p prm qy : string) :
  has_char "#" sch = false -> has_char "#" nl = false -> has_char "#" p = false ->
  has_char "#" prm = false -> has_char "#" qy = false ->
  has_char "#" (urlunparse sch nl p prm qy "") = false.
Proof.
  intros Hs Hn Hp Hprm Hq. unfold urlunparse, urlunsplit.
  change (nonempty "") with false. cbv iota.
  repeat match goal with
         | |- context [if ?c then _ else _] => destruct c
         end;
    rewrite ?has_char_app, ?Hs, ?Hn, ?Hp, ?Hprm, ?Hq; reflexivity.
Qed.

(** X24.  A link that [normalize_url] of [keyword_crawler.py] returns holds
    no [#]: the fragment is cut off, whatever the base and the link; and an
    empty link gives [None]. *)
Theorem keyword_normalize_url_has_no_fragment (base link cleaned : string) :
  normalize_url base "" = Ret None /\
  (normalize_url base link = Ret (Some cleaned) -> has_char "#" cleaned = false).
Proof.
  split; [reflexivity|].
  unfold normalize_url. destruct (negb (nonempty link)); [discriminate|].
  destruct (UrlJoin.urljoin base link) as [joined|]; [|discriminate].
  unfold urldefrag. destruct (has_char "#" joined) eqn:Hh.
  - destruct (urlparse joined) as [r|] eqn:Hr; [|discriminate].
    intros E. injection E as <-.
    destruct (urlparse_no_hash _ _ Hr) as (H1 & H2 & H3 & H4 & H5).
    apply urlunparse_no_hash; assumption.
  - intros E. injection E as <-. exact Hh.
Qed.

End WithHostCheck.
End KeywordLinksFacts.

(** ** [process_page] of [keyword_crawler.py] *)

Module KeywordPageFacts.
Import PyStr UrlParse KeywordCrawler KeywordPage.

Section WithHostCheck.
Context {hc : HostCheck}.

Lemma enqueue_link_domain (self : crawler) (link : string) :
  base_domain (enqueue_link self link) = base_domain self.
Proof.
  unfold enqueue_link. destruct (_ || _); [reflexivity|].
  destruct (_ <? _); reflexivity.
Qed.

(** An entry that [process_page] may add for the page [url] *)
Lemma record_link_spec (url : string) (self : crawler) (found_links : gmap string found)
    (link anchor_text : string) (self' : crawler) (found_links' : gmap string found) :
  record_link url self found_links link anchor_text = Some (self', found_links') ->
  base_domain self' = base_domain self /\
  (forall l v, found_links !! l = Some v -> found_links' !! l = Some v) /\
  (forall l v, found_links' !! l = Some v ->
     found_links !! l = Some v \/
     (found_on v = url /\ ignored_scheme l = false /\
      same_domain self l = Some true /\ looks_relevant l (anchor v) = true)).
Proof.
  unfold record_link.
  destruct (ignored_scheme link) eqn:Hi.
  { intros E. injection E as <- <-. auto. }
  destruct (same_domain self link) as [[|]|] eqn:Hd; [| |discriminate].
  2:{ intros E. injection E as <- <-. auto. }
  destruct (looks_relevant link anchor_text) eqn:Hr.
  2:{ intros E. injection E as <- <-.
      split; [apply enqueue_link_domain|auto]. }
  destruct (found_links !! link) as [old|] eqn:Hl.
  { intros E. injection E as <- <-.
    split; [apply enqueue_link_domain|auto]. }
  intros E. injection E as <- <-.
  split; [apply enqueue_link_domain|]. split.
  - intros l v Hv. destruct (decide (link = l)) as [<-|Hne]; [congruence|].
    rewrite lookup_insert_ne by exact Hne. exact Hv.
  - intros l v Hv. destruct (decide (link = l)) as [<-|Hne].
    + rewrite lookup_insert_eq in Hv. injection Hv as <-. right. cbn. auto.
    + rewrite lookup_insert_ne in Hv by exact Hne. auto.
Qed.

Lemma same_domain_const (self self' : crawler) (l : string) :
  base_domain self' = base_domain self -> same_domain self' l = same_domain self l.
Proof. intros E. unfold same_domain. rewrite E. reflexivity. Qed.

Lemma record_links_spec (url : string) (tags : list (string * string)) :
  forall (self : crawler) (found_links : gmap string found) self' found_links' err,
    record_links url self found_links tags = (self', found_links', err) ->
    base_domain self' = base_domain self /\
    (forall l v, found_links !! l = Some v -> found_links' !! l = Some v) /\
    (forall l v, found_links' !! l = Some v ->
       found_links !! l = Some v \/
       (found_on v = url /\ ignored_scheme l = false /\
        same_domain self l = Some true /\ looks_relevant l (anchor v) = true)).
Proof.
  induction tags as [|[href anchor_text] rest IH];
    intros self found_links self' found_links' err H; cbn [record_links] in H.
  - injection H as <- <- <-. auto.
  - destruct (KeywordLinks.normalize_url url href) as [[link|]|e].
    3:{ injection H as <- <- <-. auto. }
    2:{ apply (IH _ _ _ _ _ H). }
    destruct (negb (nonempty link)); [apply (IH _ _ _ _ _ H)|].
    destruct (record_link url self found_links link anchor_text) as [[self1 fl1]|] eqn:Hr.
    2:{ injection H as <- <- <-. auto. }
    destruct (record_link_spec _ _ _ _ _ _ _ Hr) as (Hd1 & Hkeep1 & Hnew1).
    destruct (IH _ _ _ _ _ H) as (Hd & Hkeep & Hnew).
    split; [congruence|]. split; [auto|].
    intros l v Hv. destruct (Hnew l v Hv) as [Hold|(Hon & Hi & Hs & Hrel)].
    + apply Hnew1, Hold.
    + right. rewrite (same_domain_const self self1 l Hd1) in Hs. auto.
Qed.

(** X25.  [process_page] never removes or overwrites an entry of
    [found_links]: the anchor and the page recorded for a link are those of
    its first recording.  Every entry it adds is for a link found on this
    page that starts with none of [mailto:], [tel:] and [javascript:], is of
    the domain of the crawl (or has no host) and looks relevant with the
    recorded anchor text.  A page that robots.txt blocks, a fetch that
    fails and an answer with a status of 400 or more change nothing. *)
Theorem process_page_records_relevant_links_once
    (fetch : string -> option (nat * string))
    (a_tags : string -> list (string * string)) (self : crawler)
    (found_links : gmap string found) (url : string) :
  (forall l v, found_links !! l = Some v ->
     (process_page fetch a_tags self found_links url).1.2 !! l = Some v) /\
  (forall l v, (process_page fetch a_tags self found_links url).1.2 !! l = Some v ->
     found_links !! l = Some v \/
     (found_on v = url /\ ignored_scheme l = false /\
      same_domain self l = Some true /\ looks_relevant l (anchor v) = true)) /\
  (can_fetch self url = false \/ fetch url = None \/
   (exists status html, fetch url = Some (status, html) /\ 400 <= status) ->
   process_page fetch a_tags self found_links url = (self, found_links, None)).
Proof.
  unfold process_page.
  destruct (can_fetch self url) eqn:Hcf; cbn [negb]; [|cbn; auto].
  destruct (fetch url) as [[status html]|] eqn:Hf; [|cbn; auto].
  destruct (400 <=? status) eqn:Hs; [cbn; auto|].
  apply Nat.leb_gt in Hs.
  destruct (record_links url self found_links (a_tags html)) as [[self' fl'] err] eqn:Hr.
  destruct (record_links_spec _ _ _ _ _ _ _ Hr) as (_ & Hkeep & Hnew).
  cbn [fst snd]. split; [exact Hkeep|]. split; [exact Hnew|].
  intros [Hc|[Hc|(st & h & Hc & Hle)]]; [discriminate|discriminate|].
  injection Hc as <- <-. lia.
Qed.


End WithHostCheck.
End KeywordPageFacts.

(** ** The theorems at concrete inputs *)

Module ExtraWitnesses.
Import PyStr Crawl CrawlInvariants RobustCrawl CrawlExamples SitemapExamples
       PlaywrightExamples ExtraExamples.

Lemma no_bracketed_hosts_case_insensitive : case_insensitive no_bracketed_hosts.
Proof. intros h Hh. discriminate Hh. Qed.

Lemma shop_extract_products :
  ProductsPool.products_extractor (hc := no_bracketed_hosts) (fun _ => shop_soup)
                                  shop_extract.
Proof. intros base_url html. eexists. split; [reflexivity|auto]. Qed.

Lemma two_children_ranked : SitemapTree.ranked two_children_web SitemapTree.two_children_rank.
Proof.
  intros u root child Hweb Hchild. unfold two_children_web in Hweb.
  unfold SitemapTree.two_children_rank at 2.
  destruct (String.eqb u "http://x.com/sitemap.xml").
  - injection Hweb as <-. vm_compute in Hchild.
    apply elem_of_cons in Hchild as [->|Hchild]; [vm_compute; lia|].
    apply elem_of_cons in Hchild as [->|Hchild]; [vm_compute; lia|].
    inversion Hchild.
  - destruct (String.eqb u "http://x.com/s1.xml");
      [injection Hweb as <-; vm_compute in Hchild; inversion Hchild|].
    destruct (String.eqb u "http://x.com/s2.xml");
      [injection Hweb as <-; vm_compute in Hchild; inversion Hchild|discriminate].
Qed.

Lemma two_children_finite (u : string) :
  two_children_web u <> None -> u ∈ two_children_known.
Proof.
  unfold two_children_web, two_children_known.
  destruct (String.eqb_spec u "http://x.com/sitemap.xml") as [->|_]; [set_solver|].
  destruct (String.eqb_spec u "http://x.com/s1.xml") as [->|_]; [set_solver|].
  destruct (String.eqb_spec u "http://x.com/s2.xml") as [->|_]; [set_solver|].
  intros H. contradiction.
Qed.

Lemma growing_page_grows (i : nat) :
  exists h, Playwright.scroll_height growing_page i = Playwright.Done h /\
            (Z.of_nat i * Z.quot (9 * 800) 10 < h)%Z.
Proof.
  eexists. split; [reflexivity|].
  change (Z.quot (9 * 800) 10) with 720%Z. lia.
Qed.

Lemma no_browser_no_render_witness :
  render_fetches
    (run (hc := no_bracketed_hosts)
         (mkConfig ProductsVariant "x.com" 10 None false false tracking_links)
         (init 1 [Some "http://x.com/"]) one_worker_run) = [] /\
  Forall (fun r => rendered_with_playwright r = false)
    (results
       (run (hc := no_bracketed_hosts)
            (mkConfig ProductsVariant "x.com" 10 None false false tracking_links)
            (init 1 [Some "http://x.com/"]) one_worker_run)).
Proof.
  exact (CrawlExtras.no_browser_no_render (hc := no_bracketed_hosts)
           (mkConfig ProductsVariant "x.com" 10 None false false tracking_links)
           1 [Some "http://x.com/"] one_worker_run eq_refl).
Defined.

Lemma reported_pages_fetched_and_visited_once_witness :
  NoDup (reported
           (run (hc := no_bracketed_hosts)
                (mkConfig ProductsVariant "x.com" 10 None false false tracking_links)
                (init 1 [Some "http://x.com/"]) one_worker_run)) /\
  (forall u,
     u ∈ reported
           (run (hc := no_bracketed_hosts)
                (mkConfig ProductsVariant "x.com" 10 None false false tracking_links)
                (init 1 [Some "http://x.com/"]) one_worker_run) ->
     u ∈ plain_fetches
           (run (hc := no_bracketed_hosts)
                (mkConfig ProductsVariant "x.com" 10 None false false tracking_links)
                (init 1 [Some "http://x.com/"]) one_worker_run) /\
     u ∈ visited
           (run (hc := no_bracketed_hosts)
                (mkConfig ProductsVariant "x.com" 10 None false false tracking_links)
                (init 1 [Some "http://x.com/"]) one_worker_run)) /\
  length (results
            (run (hc := no_bracketed_hosts)
                 (mkConfig ProductsVariant "x.com" 10 None false false tracking_links)
                 (init 1 [Some "http://x.com/"]) one_worker_run))
  <= size (visited
             (run (hc := no_bracketed_hosts)
                  (mkConfig ProductsVariant "x.com" 10 None false false tracking_links)
                  (init 1 [Some "http://x.com/"]) one_worker_run)).
Proof.
  exact (CrawlExtras.reported_pages_fetched_and_visited_once (hc := no_bracketed_hosts)
           (mkConfig ProductsVariant "x.com" 10 None false false tracking_links)
           1 [Some "http://x.com/"] one_worker_run
           (NoDup_singleton (Some "http://x.com/"))).
Defined.

Lemma normalize_url_returns_url_with_lower_case_host_witness :
  Products.normalize_url (hc := no_bracketed_hosts) "HTTP://X.com/a/#top" None
    = Some "http://x.com/a" /\
  exists p, UrlParse.urlparse (hc := no_bracketed_hosts) "http://x.com/a" = Some p /\
            UrlParse.netloc p <> "" /\ has_upper (UrlParse.netloc p) = false.
Proof.
  split; [reflexivity|].
  exact (NormalizeExtras.normalize_url_returns_url_with_lower_case_host
           (hc := no_bracketed_hosts) "HTTP://X.com/a/#top" None "http://x.com/a"
           no_bracketed_hosts_case_insensitive eq_refl).
Defined.

Lemma extracted_links_are_normalized_witness :
  ProductsPage.extract_links_from_html (hc := no_bracketed_hosts) (fun _ => shop_soup)
    "http://x.com/p/q" ""
  = ["http://x.com/a"; "http://x.com/b"; "http://x.com/cart"; "http://x.com/"] /\
  NoDup (ProductsPage.extract_links_from_html (hc := no_bracketed_hosts)
           (fun _ => shop_soup) "http://x.com/p/q" "").
Proof.
  split; [vm_compute; reflexivity|].
  exact (proj1 (PageFacts.extracted_links_are_normalized (hc := no_bracketed_hosts)
                  (fun _ => shop_soup) "http://x.com/p/q" ""
                  no_bracketed_hosts_case_insensitive)).
Defined.

(** The start of [robust_crawl] on the site with a sitemap of one page,
    whatever the page parser *)
Lemma two_page_web_start (extract : string -> string -> py (list string)) :
  robust_crawl_start (hc := no_bracketed_hosts) 2 two_page_web "http://x.com/" 5 2
    false true true extract
  = Some (Ret (mkStarted
                 (mkConfig ProductsVariant "x.com" 5 (robots_txt two_page_web)
                           false false extract)
                 (init 2 [Some "http://x.com/"; Some "http://x.com/a"])
                 (map Probe (sitemap_candidates "http://x.com")
                  ++ [FetchSitemap "http://x.com/sitemap.xml"]))).
Proof. vm_compute. reflexivity. Defined.

Lemma robust_crawl_workers_never_raise_witness :
  robust_crawl_start (hc := no_bracketed_hosts) 2 two_page_web "http://x.com/" 5 2
    false true true shop_extract
  = Some (Ret (mkStarted
                 (mkConfig ProductsVariant "x.com" 5 (robots_txt two_page_web)
                           false false shop_extract)
                 (init 2 [Some "http://x.com/"; Some "http://x.com/a"])
                 (map Probe (sitemap_candidates "http://x.com")
                  ++ [FetchSitemap "http://x.com/sitemap.xml"]))) /\
  crashed
    (run (hc := no_bracketed_hosts)
         (mkConfig ProductsVariant "x.com" 5 (robots_txt two_page_web)
                   false false shop_extract)
         (init 2 [Some "http://x.com/"; Some "http://x.com/a"])
         overlapping_run) = None.
Proof.
  pose proof (two_page_web_start shop_extract) as H.
  split; [exact H|].
  exact (PageFacts.robust_crawl_workers_never_raise (hc := no_bracketed_hosts)
           (fun _ => shop_soup) _ _ _ _ _ _ _ _ _ _ overlapping_run
           no_bracketed_hosts_case_insensitive shop_extract_products H).
Defined.

Lemma ai_extract_links_raises_on_rejected_href_witness :
  AiPage.extract_links_from_html (hc := no_bracketed_hosts) (fun _ => broken_soup)
    "http://x.com/" "<html>" = Raise ValueError /\
  crashed
    (step (hc := no_bracketed_hosts)
          (mkConfig AiVariant "x.com" 5 None false false
             (AiPage.extract_links_from_html (hc := no_bracketed_hosts)
                (fun _ => broken_soup)))
          waiting (PlainDone 0 (Some "<html>"))) = Some ValueError.
Proof.
  assert (H : AiPage.extract_links_from_html (hc := no_bracketed_hosts)
                (fun _ => broken_soup) "http://x.com/" "<html>" = Raise ValueError)
    by (vm_compute; reflexivity).
  split; [exact H|].
  refine (proj2 (proj2 (AiPageFacts.ai_extract_links_raises_on_rejected_href
                          (hc := no_bracketed_hosts) (fun _ => broken_soup)
                          "http://x.com/" "<html>"))
                (mkConfig AiVariant "x.com" 5 None false false
                   (AiPage.extract_links_from_html (hc := no_bracketed_hosts)
                      (fun _ => broken_soup)))
                waiting 0 eq_refl eq_refl eq_refl eq_refl _ H).
  discriminate.
Defined.

Lemma simple_classify_course_first_witness :
  ProductsPage.simple_classify (Some ("Products and " +:+ "Training" +:+ " for teams"))
    = "course" /\
  AiPage.simple_classify (Some ("Products and " +:+ "Training" +:+ " for teams"))
    = "course".
Proof.
  exact (ClassifyFacts.simple_classify_course_first "Products and " "Training"
           " for teams" (or_intror (or_intror eq_refl))).
Defined.

Lemma keyword_crawler_keeps_budget_witness :
  size (KeywordCrawler.visited
          (KeywordRun.pool_run (hc := no_bracketed_hosts)
             (KeywordCrawler.mkCrawler "x.com" "http" 1 (Qmax 1 2) (Z.max 1 5)%Z
                (fun _ => true) ["http://x.com"] ∅ [])
             [KeywordRun.iterate;
              KeywordRun.requeue ["http://x.com/a"; "http://x.com/b"];
              KeywordRun.iterate; KeywordRun.iterate])) <= 1.
Proof.
  exact (KeywordRunFacts.keyword_crawler_keeps_budget (hc := no_bracketed_hosts)
           "http://x.com" 1 1%Q 5%Z (fun _ => true) (Some 2%Q) _ _ eq_refl).
Defined.

Lemma keyword_crawler_submits_allowed_urls_once_witness :
  NoDup (KeywordRun.submitted
           (KeywordCrawler.log
              (KeywordRun.pool_run (hc := no_bracketed_hosts)
                 (KeywordCrawler.mkCrawler "x.com" "http" 9 (Qmax 1 2) (Z.max 1 5)%Z
                    (fun u => negb (String.eqb u "http://x.com/b"))
                    ["http://x.com"] ∅ [])
                 [KeywordRun.iterate;
                  KeywordRun.requeue ["http://x.com/a/"; "http://x.com/b"; "http://x.com/a"];
                  KeywordRun.iterate; KeywordRun.iterate; KeywordRun.iterate]))).
Proof.
  exact (proj1 (KeywordRunFacts.keyword_crawler_submits_allowed_urls_once
                  (hc := no_bracketed_hosts) "http://x.com" 9 1%Q 5%Z
                  (fun u => negb (String.eqb u "http://x.com/b")) (Some 2%Q) _ _ eq_refl)).
Defined.

Lemma fetch_sitemap_urls_ends_on_acyclic_graphs_witness :
  exists urls log,
    ProductsSitemap.fetch_sitemap_urls 2 two_children_web "http://x.com/sitemap.xml" []
    = (Some urls, "http://x.com/sitemap.xml" :: log).
Proof.
  refine (SitemapExtras.fetch_sitemap_urls_ends_on_acyclic_graphs two_children_web
            SitemapTree.two_children_rank "http://x.com/sitemap.xml" 2
            two_children_ranked _).
  vm_compute. lia.
Defined.

Lemma parse_sitemap_ends_requesting_each_url_once_witness :
  exists urls w',
    RobotsCrawler.parse_sitemap (S (size two_children_known)) two_children_web
      "http://x.com/sitemap.xml" (RobotsCrawler.mkWalk ∅ [])
    = Some (urls, w') /\
    NoDup (RobotsCrawler.fetched w').
Proof.
  exact (SitemapExtras.parse_sitemap_ends_requesting_each_url_once two_children_web
           two_children_known "http://x.com/sitemap.xml" two_children_finite).
Defined.

Lemma fetch_with_playwright_hangs_on_growing_pages_witness :
  Playwright.result (Playwright.fetch_with_playwright 50 (fun _ => []) growing_page)
    = Playwright.Hangs.
Proof.
  exact (ScrollFacts.fetch_with_playwright_hangs_on_growing_pages growing_page 800
           (fun _ => []) 50 eq_refl eq_refl eq_refl eq_refl (fun _ => eq_refl)
           growing_page_grows).
Defined.

Lemma fetches_bounded_by_budget_plus_workers_witness :
  length (plain_fetches
            (run (hc := no_bracketed_hosts)
                 (mkConfig ProductsVariant "x.com" 10 None false false tracking_links)
                 (init 1 [Some "http://x.com/"]) one_worker_run))
  <= 10 + (1 - 1).
Proof.
  exact (CrawlExtras.fetches_bounded_by_budget_plus_workers (hc := no_bracketed_hosts)
           (mkConfig ProductsVariant "x.com" 10 None false false tracking_links)
           1 [Some "http://x.com/"] one_worker_run
           (NoDup_singleton (Some "http://x.com/"))).
Defined.

Lemma normalize_url_ignores_case_of_scheme_and_host_witness :
  Products.normalize_url (hc := no_bracketed_hosts)
    ("HTTP" +:+ "://" +:+ "X.com" +:+ "/a") None
  = Products.normalize_url (hc := no_bracketed_hosts)
      (lower "HTTP" +:+ "://" +:+ lower "X.com" +:+ "/a") None /\
  AiCrawler.normalize_url (hc := no_bracketed_hosts)
    ("HTTP" +:+ "://" +:+ "X.com" +:+ "/a") None
  = AiCrawler.normalize_url (hc := no_bracketed_hosts)
      (lower "HTTP" +:+ "://" +:+ lower "X.com" +:+ "/a") None.
Proof.
  exact (NormalizeExtras.normalize_url_ignores_case_of_scheme_and_host
           (hc := no_bracketed_hosts) "HTTP" "X.com" "/a"
           no_bracketed_hosts_case_insensitive eq_refl eq_refl eq_refl).
Defined.

Lemma normalize_url_ignores_fragment_witness :
  Products.normalize_url (hc := no_bracketed_hosts) ("http://x.com/a" +:+ "#" +:+ "top") None
  = Products.normalize_url (hc := no_bracketed_hosts) "http://x.com/a" None.
Proof.
  exact (proj1 (NormalizeExtras.normalize_url_ignores_fragment (hc := no_bracketed_hosts)
                  "http://x.com/a" "top" eq_refl)).
Defined.

Lemma normalize_query_drops_tracking_pairs_witness :
  Normalizer.normalize_query (PlainQuery.query_of tracked_query)
  = PlainQuery.query_of
      (filter (fun kv => negb (Normalizer.is_tracking (fst kv))) tracked_query).
Proof.
  refine (proj1 (QueryFacts.normalize_query_drops_tracking_pairs tracked_query _)).
  repeat constructor.
Defined.

Lemma keyword_normalize_url_has_no_fragment_witness :
  KeywordLinks.normalize_url (hc := no_bracketed_hosts) "http://x.com/a/b" "c#f"
    = Ret (Some "http://x.com/a/c") /\
  has_char "#" "http://x.com/a/c" = false.
Proof.
  assert (H : KeywordLinks.normalize_url (hc := no_bracketed_hosts) "http://x.com/a/b" "c#f"
              = Ret (Some "http://x.com/a/c")) by (vm_compute; reflexivity).
  split; [exact H|].
  exact (proj2 (KeywordLinksFacts.keyword_normalize_url_has_no_fragment
                  (hc := no_bracketed_hosts) "http://x.com/a/b" "c#f" "http://x.com/a/c") H).
Defined.

Lemma get_sitemaps_from_robots_reads_back_witness :
  RobotsFast.get_sitemaps_from_robots
    (join (String "010" "")
          (map (fun u => "Sitemap: " +:+ u) ["http://x.com/s1.xml"; "http://x.com/s2.xml"]))
  = Some ["http://x.com/s1.xml"; "http://x.com/s2.xml"].
Proof.
  refine (proj2 (RobotsFastFacts.get_sitemaps_from_robots_reads_back ""
                   ["http://x.com/s1.xml"; "http://x.com/s2.xml"]) _).
  repeat constructor.
Defined.

Lemma url_matches_keywords_lower_case_only_witness :
  RobotsFast.url_matches_keywords "http://x.com/Products" ["Products"; "Course"] = false.
Proof.
  refine (proj2 (RobotsFastFacts.url_matches_keywords_lower_case_only
                   "http://x.com/Products" ["Products"; "Course"]) _).
  repeat constructor.
Defined.

Lemma fast_links_are_listed_allowed_and_relevant_witness :
  RobotsFast.collect_crawlable_relevant_links_fast (hc := no_bracketed_hosts) 4
    listed_site "x.com" (Some ["/a"; "/b"; "/c"])
  = RobotsFast.Links ["http://x.com/a"; "http://x.com/c"] /\
  RobotsFast.ascending ["http://x.com/a"; "http://x.com/c"] = true /\
  NoDup ["http://x.com/a"; "http://x.com/c"].
Proof.
  assert (H : RobotsFast.collect_crawlable_relevant_links_fast (hc := no_bracketed_hosts)
                4 listed_site "x.com" (Some ["/a"; "/b"; "/c"])
              = RobotsFast.Links ["http://x.com/a"; "http://x.com/c"])
    by (vm_compute; reflexivity).
  split; [exact H|].
  pose proof (proj1 (RobotsFastFacts.fast_links_are_listed_allowed_and_relevant
                       (hc := no_bracketed_hosts) 4 listed_site "x.com"
                       (Some ["/a"; "/b"; "/c"])) _ H) as (Ha & Hn & _).
  exact (conj Ha Hn).
Defined.

Lemma shop_page_processed :
  (KeywordPage.process_page (hc := no_bracketed_hosts)
     (fun _ => Some (200, "<html>")) (fun _ => shop_tags) shop_crawler ∅
     "http://x.com").1.2 !! "http://x.com/products"
  = Some (KeywordPage.mkFound "Shop" "http://x.com").
Proof. vm_compute. reflexivity. Defined.

Lemma process_page_records_relevant_links_once_witness :
  KeywordPage.ignored_scheme "http://x.com/products" = false /\
  KeywordPage.same_domain (hc := no_bracketed_hosts) shop_crawler "http://x.com/products"
  = Some true /\
  KeywordPage.looks_relevant "http://x.com/products" "Shop" = true.
Proof.
  destruct (proj1 (proj2 (KeywordPageFacts.process_page_records_relevant_links_once
                            (hc := no_bracketed_hosts)
                            (fun _ => Some (200, "<html>")) (fun _ => shop_tags)
                            shop_crawler ∅ "http://x.com"))
                  "http://x.com/products" (KeywordPage.mkFound "Shop" "http://x.com")
                  shop_page_processed) as [Hold|(_ & H)].
  - rewrite lookup_empty in Hold. discriminate Hold.
  - exact H.
Defined.


End ExtraWitnesses.
